(** * Verification of the CAPTCHA normalisation pipeline of [server.js]

    The development embeds the pixel loops of the [/solve-captcha] handler
    (ROI mean, polarity decision, binarisation branch), the Otsu-style
    threshold selectors, the digit filter applied to the OCR text and the
    readiness guard in front of the handler.

    The repository holds three versions of the server.  server.js is the
    reference.  The password variant puts [authMiddleware] in front of
    the handler and does not await the initialisation; its pixel code is
    that of server.js.  The [otsuThreshold] variant computes the cut
    point with [otsuThreshold] instead of [otsuLike] and filters the text
    with [/[^\d]/g].

    Number model.  JavaScript numbers are IEEE binary64 doubles.  Every
    counter and every sum of samples in the code is an integer far below
    2^53, hence exact, and is modelled in [Z].  Where a proof needs the
    double of such an integer to be that integer, the statement says so:
    255 times the length of the buffer is below 2^53.

    The selector divides, subtracts, multiplies and compares numbers that
    are not integers, and rounding can change the order of two variances.
    The selector is therefore written over a class [Numbers] of the
    operations it uses.  The program runs on [binary64], the doubles of
    the machine, as specified by the standard library ([SpecFloat]); the
    properties of the selector are stated and proved for that instance,
    NaN and the infinities included.  The instance [exact] (rationals,
    no rounding) is the between-class variance as a real number: it is
    the yardstick of the counterexamples, not the arithmetic of the
    program.

    The polarity test compares [roiSum / roiCount] with 128.  Rounding to
    nearest is monotone and 128 is a double, so for a region of fewer than
    2^45 pixels the comparison on doubles has the outcome of the exact
    one; the quotient is modelled as an exact rational. *)

From Stdlib Require Import ZArith QArith Qfield Lia Lqa List Bool.
From Stdlib Require PrimFloat.
From Stdlib Require Import SpecFloat FloatOps FloatAxioms.
From stdpp Require Import base list.
Import ListNotations.

Local Open Scope Z_scope.

(** ** Grayscale buffers *)

(** A raw single-channel buffer: one sample per pixel, row-major.  The
    samples of a [Buffer] are bytes. *)
Definition sample (v : Z) : Prop := 0 <= v <= 255.

Definition gray (data : list Z) : Prop := Forall sample data.

(** ** Numbers *)

(** The operations of the selector on numbers: the number of an integer,
    [/], [-], [*], [** 2] and [>]. *)
Class Numbers (num : Type) : Type := {
  of_int : Z -> num;
  ndiv : num -> num -> num;
  nsub : num -> num -> num;
  nmul : num -> num -> num;
  nsq : num -> num;
  ngt : num -> num -> bool
}.

(** [a > b] on rationals, as a boolean. *)
Definition Qgtb (a b : Q) : bool :=
  match Qcompare a b with
  | Gt => true
  | _ => false
  end.

(** Arithmetic without rounding: the variances as real numbers. *)
#[export] Instance exact : Numbers Q := {|
  of_int := inject_Z;
  ndiv := Qdiv;
  nsub := Qminus;
  nmul := Qmult;
  nsq := fun x => (x ^ 2)%Q;
  ngt := Qgtb
|}.

(** The double of a positive integer, built by doubling; every step is
    exact below 2^53. *)
Fixpoint float_of_pos (p : positive) : PrimFloat.float :=
  match p with
  | xH => PrimFloat.one
  | xO q => PrimFloat.mul PrimFloat.two (float_of_pos q)
  | xI q =>
    PrimFloat.add (PrimFloat.mul PrimFloat.two (float_of_pos q)) PrimFloat.one
  end.

Definition float_of_Z (z : Z) : PrimFloat.float :=
  match z with
  | Z0 => PrimFloat.zero
  | Zpos p => float_of_pos p
  | Zneg p => PrimFloat.opp (float_of_pos p)
  end.

(** Arithmetic on doubles, round to nearest even; [x ** 2] is the
    rounded product [x * x]. *)
#[export] Instance binary64 : Numbers PrimFloat.float := {|
  of_int := float_of_Z;
  ndiv := PrimFloat.div;
  nsub := PrimFloat.sub;
  nmul := PrimFloat.mul;
  nsq := fun x => PrimFloat.mul x x;
  ngt := fun a b => PrimFloat.ltb b a
|}.

(** The doubles as [SpecFloat] describes them. *)
Module Doubles.

(** The sign bit is clear, or the double is NaN. *)
Definition not_negative (x : spec_float) : Prop :=
  match x with
  | S754_nan => True
  | S754_zero s | S754_infinity s | S754_finite s _ _ => s = false
  end.

Definition sign_of (x : spec_float) : bool :=
  match x with
  | S754_zero s | S754_infinity s | S754_finite s _ _ => s
  | S754_nan => false
  end.

(** [m * 2^e >= c], with the negative powers moved to the other side. *)
Definition ge_int (m e c : Z) : Prop :=
  c * 2 ^ Z.max 0 (- e) <= m * 2 ^ Z.max 0 e.

(** The magnitude of a double is at least the integer [c]; an infinity
    is. *)
Definition mag_at_least (c : Z) (x : spec_float) : Prop :=
  match x with
  | S754_infinity _ => True
  | S754_finite _ m e => ge_int (Zpos m) e c
  | _ => False
  end.

(** The magnitude of a double is at most the integer [c]; a zero is. *)
Definition mag_at_most (c : Z) (x : spec_float) : Prop :=
  match x with
  | S754_zero _ => True
  | S754_finite _ m e => e <= 0 /\ Zpos m <= c * 2 ^ (- e)
  | _ => False
  end.

(** The double is the positive integer [z]. *)
Definition is_int (z : Z) (x : spec_float) : Prop :=
  match x with
  | S754_finite false m e => e <= 0 /\ Zpos m = z * 2 ^ (- e)
  | _ => False
  end.

(** The bits dropped by a right shift are all zero. *)
Definition lossless (mrs : shr_record) : Prop :=
  shr_r mrs = false /\ shr_s mrs = false.

(** 0 when a location is exact, 1 when something lies beyond the
    mantissa. *)
Definition inexactness (l : location) : Z :=
  match l with
  | loc_Exact => 0
  | loc_Inexact _ => 1
  end.

End Doubles.

(** ** The threshold selector *)

Module Otsu.

(** [hist[grayData[i]]++] for every [i], starting from 256 zero bins. *)
Definition histogram (grayData : list Z) : list Z :=
  fold_left
    (fun hist v => <[Z.to_nat v := (hist !!! Z.to_nat v) + 1]> hist)
    grayData (replicate 256 0).

(** [for (let t = 0; t < 256; t++) sum += t * hist[t]] *)
Definition weighted_sum (hist : list Z) : Z :=
  fold_left (fun sum t => sum + t * (hist !!! Z.to_nat t)) (seqZ 0 256) 0.

(** The bins of the [otsuThreshold] variant are a [Uint32Array], whose
    increments wrap at 2^32; its [sum] is accumulated sample by sample
    in the same pass. *)
Definition uint32 (n : Z) : Z := n mod 2 ^ 32.

Definition tally (data : list Z) : list Z * Z :=
  fold_left
    (fun '(hist, sum) val =>
       (<[Z.to_nat val := uint32 ((hist !!! Z.to_nat val) + 1)]> hist,
        sum + val))
    data (replicate 256 0, 0).

Section Scan.

Context {num : Type} {N : Numbers num}.

(** The mutable variables of the scan. *)
Record scan_state : Type := ScanState {
  sumB : Z;
  wB : Z;
  wF : Z;
  varMax : num;
  threshold : Z
}.

Definition scan_init : scan_state :=
  {| sumB := 0; wB := 0; wF := 0; varMax := of_int 0; threshold := 0 |}.

(** The body of the scanning loop, run for the cut points [ts] in order.
    [continue] goes on with the next cut point, [break] returns the
    state reached. *)
Fixpoint scan (hist : list Z) (sum total : Z) (ts : list Z)
    (st : scan_state) : scan_state :=
  match ts with
  | [] => st
  | t :: ts' =>
    let wB' := wB st + hist !!! Z.to_nat t in
    if wB' =? 0 then
      scan hist sum total ts'
        {| sumB := sumB st; wB := wB'; wF := wF st;
           varMax := varMax st; threshold := threshold st |}
    else
      let wF' := total - wB' in
      if wF' =? 0 then
        {| sumB := sumB st; wB := wB'; wF := wF';
           varMax := varMax st; threshold := threshold st |}
      else
        let sumB' := sumB st + t * (hist !!! Z.to_nat t) in
        let mB := ndiv (of_int sumB') (of_int wB') in
        let mF := ndiv (of_int (sum - sumB')) (of_int wF') in
        let betweenVar :=
          nmul (nmul (of_int wB') (of_int wF')) (nsq (nsub mB mF)) in
        if ngt betweenVar (varMax st) then
          scan hist sum total ts'
            {| sumB := sumB'; wB := wB'; wF := wF';
               varMax := betweenVar; threshold := t |}
        else
          scan hist sum total ts'
            {| sumB := sumB'; wB := wB'; wF := wF';
               varMax := varMax st; threshold := threshold st |}
  end.

(** [otsuLike] of server.js. *)
Definition otsuLike (grayData : list Z) : Z :=
  let hist := histogram grayData in
  let sum := weighted_sum hist in
  let total := Z.of_nat (length grayData) in
  threshold (scan hist sum total (seqZ 0 256) scan_init).

(** [otsuThreshold], the selector of the variant named after it. *)
Definition otsuThreshold (data : list Z) : Z :=
  let total := Z.of_nat (length data) in
  let '(hist, sum) := tally data in
  threshold (scan hist sum total (seqZ 0 256) scan_init).

End Scan.

Arguments scan_state num : clear implicits.

End Otsu.

(** ** Between-class variance of a cut point, on the pixel populations

    The reference against which the selector is checked: the bipartition
    {pixels <= t} / {pixels > t} of the buffer itself, with no histogram
    and no running sums. *)

Module Variance.

(** Number of samples [<= t]. *)
Fixpoint weight_below (t : Z) (data : list Z) : Z :=
  match data with
  | [] => 0
  | v :: rest => (if v <=? t then 1 else 0) + weight_below t rest
  end.

(** Sum of the samples [<= t]. *)
Fixpoint mass_below (t : Z) (data : list Z) : Z :=
  match data with
  | [] => 0
  | v :: rest => (if v <=? t then v else 0) + mass_below t rest
  end.

(** Sum of all samples. *)
Fixpoint intensity (data : list Z) : Z :=
  match data with
  | [] => 0
  | v :: rest => v + intensity rest
  end.

(** Number of samples equal to [t]. *)
Fixpoint occurrences (t : Z) (data : list Z) : Z :=
  match data with
  | [] => 0
  | v :: rest => (if v =? t then 1 else 0) + occurrences t rest
  end.

(** The smallest and the largest intensity present in a buffer. *)
Definition darkest (data : list Z) : Z := fold_right Z.min 255 data.
Definition brightest (data : list Z) : Z := fold_right Z.max 0 data.

Section Variance.

Context {num : Type} {N : Numbers num}.

(** [wB * wF * (mB - mF)^2] from the weights and sums of the two sides. *)
Definition variance (wB wF sumB sumF : Z) : num :=
  let mB := ndiv (of_int sumB) (of_int wB) in
  let mF := ndiv (of_int sumF) (of_int wF) in
  nmul (nmul (of_int wB) (of_int wF)) (nsq (nsub mB mF)).

(** The between-class variance of the cut point [t].  A cut point that
    leaves one side empty separates nothing; its variance is zero. *)
Definition betweenVar (data : list Z) (t : Z) : num :=
  let total := Z.of_nat (length data) in
  let wB := weight_below t data in
  let wF := total - wB in
  let sumB := mass_below t data in
  let sumF := intensity data - sumB in
  if (wB =? 0) || (wF =? 0) then of_int 0
  else variance wB wF sumB sumF.

(** [t] is a cut point of largest variance among 0..255: no cut point
    has a strictly greater one. *)
Definition maximizer (data : list Z) (t : Z) : Prop :=
  forall u, 0 <= u <= 255 -> ngt (betweenVar data u) (betweenVar data t) = false.

(** The numbers that the scan compares: the initial zero and the
    variances of cut points with samples on both sides. *)
Inductive score : num -> Prop :=
  | score_zero : score (of_int 0)
  | score_variance (wB wF sumB sumF : Z) :
      0 < wB -> 0 < wF -> 0 <= sumB -> 0 <= sumF ->
      score (variance wB wF sumB sumF).

(** A number that [>] relates to no number, on either side.  No
    rational is; among the doubles, NaN is. *)
Definition unordered (a : num) : Prop :=
  forall x, ngt a x = false /\ ngt x a = false.

End Variance.

(** What the proofs need of [>], and no more than the doubles give:
    [>] is a strict order; a number that is not above [b] is below
    every number above [b], unless it is unordered; and a score that is
    not above zero has above it only what is above zero.  Nothing is
    asked of numbers that are unordered, so that the laws hold of the
    doubles with NaN as they hold of the rationals. *)
Class ComparedScores {num : Type} (N : Numbers num) : Prop := {
  gt_irrefl : forall a, ngt a a = false;
  gt_trans : forall a b c,
    ngt a b = true -> ngt b c = true -> ngt a c = true;
  gt_total : forall a b c,
    ngt a b = false -> ngt c b = true -> unordered a \/ ngt c a = true;
  score_floor : forall a b,
    score b -> ngt b (of_int 0) = false -> ngt a (of_int 0) = false ->
    ngt a b = false
}.

End Variance.

(** ** Invariants of the scanning loop *)

Module ScanInv.

Import Otsu Variance.

Section Invariants.

Context {num : Type} {N : Numbers num}.

(** Before cut point [t0] is visited, the running sums are those of the
    samples below [t0]. *)
Definition Sync (data : list Z) (t0 : Z) (st : scan_state num) : Prop :=
  wB st = weight_below (t0 - 1) data /\
  sumB st = mass_below (t0 - 1) data.

(** [threshold] is still the initial 0, or a cut point below [bound]
    with samples on both sides. *)
Definition Picked (data : list Z) (bound : Z) (st : scan_state num) : Prop :=
  threshold st = 0 \/
  (0 <= threshold st < bound /\
   0 < weight_below (threshold st) data /\
   0 < Z.of_nat (length data) - weight_below (threshold st) data).

(** Over the cut points below [bound], no variance is above [varMax],
    and [threshold] is the first cut point that reaches it: the variance
    of an earlier cut point is below [varMax] or unordered.  [threshold]
    is still the initial 0 when no variance above zero has been met. *)
Definition Best (data : list Z) (bound : Z) (st : scan_state num) : Prop :=
  (forall t, 0 <= t < bound -> ngt (betweenVar data t) (varMax st) = false) /\
  (varMax st = of_int 0 /\ threshold st = 0 \/
   0 <= threshold st < bound /\
   varMax st = betweenVar data (threshold st) /\
   ngt (varMax st) (of_int 0) = true) /\
  (forall t, 0 <= t < threshold st ->
     unordered (betweenVar data t) \/
     ngt (varMax st) (betweenVar data t) = true).

End Invariants.

End ScanInv.

(** ** The image operations of the library

    Modelled from the spec: [negate] and [threshold] are calls into the
    image library, whose code is not part of the repository.  The spec
    gives them as: inversion replaces each sample [v] by [255 - v];
    thresholding outputs 255 where the input sample is greater than the
    threshold and 0 elsewhere. *)

Module Sharp.

Definition negate (img : list Z) : list Z := map (fun v => 255 - v) img.

Definition threshold (thr : Z) (img : list Z) : list Z :=
  map (fun v => if v >? thr then 255 else 0) img.

End Sharp.

(** ** The [/solve-captcha] pixel stages *)

Module Handler.

(** [Math.floor(width * 0.25)] and [Math.floor(width * 0.75)]: both
    products are exact in doubles, so the floors are integer quotients. *)
Definition roiStart (extent : Z) : Z := extent / 4.
Definition roiEnd (extent : Z) : Z := (3 * extent) / 4.

(** [data[i]]: [undefined] outside the buffer. *)
Definition read (data : list Z) (i : Z) : option Z :=
  if i <? 0 then None else data !! Z.to_nat i.

(** [roiSum += data[...]]; [None] stands for the [NaN] that adding
    [undefined] produces, and stays [NaN] afterwards. *)
Definition accumulate (roiSum : option Z) (px : option Z) : option Z :=
  match roiSum, px with
  | Some s, Some v => Some (s + v)
  | _, _ => None
  end.

(** The two nested loops over the region of interest; the state is
    [(roiSum, roiCount)]. *)
Definition roi_row (width : Z) (data : list Z) (y : Z)
    (acc : option Z * Z) : option Z * Z :=
  fold_left
    (fun '(roiSum, roiCount) x =>
       (accumulate roiSum (read data (y * width + x)), roiCount + 1))
    (seqZ (roiStart width) (roiEnd width - roiStart width)) acc.

Definition roi_scan (width height : Z) (data : list Z) : option Z * Z :=
  fold_left
    (fun acc y => roi_row width data y acc)
    (seqZ (roiStart height) (roiEnd height - roiStart height))
    (Some 0, 0).

Definition roiCount (width height : Z) (data : list Z) : Z :=
  snd (roi_scan width height data).

(** [roiCount > 0 ? roiSum / roiCount : 128]; [None] is [NaN]. *)
Definition avgROIGray (width height : Z) (data : list Z) : option Q :=
  let '(roiSum, roiCount) := roi_scan width height data in
  if roiCount >? 0 then
    match roiSum with
    | Some s => Some (inject_Z s / inject_Z roiCount)%Q
    | None => None
    end
  else Some (inject_Z 128).

(** [avgROIGray > threshold] with [threshold = 128]; a comparison with
    [NaN] is false. *)
Definition numbersAreLighter (width height : Z) (data : list Z) : bool :=
  match avgROIGray width height data with
  | Some avg => Qgtb avg (inject_Z 128)
  | None => false
  end.

Section Binarization.

Context {num : Type} {N : Numbers num}.

(** The binarisation branch of server.js: the raster handed to the
    encoder.  The cut point is computed from [data] in both branches. *)
Definition binarize (width height : Z) (data : list Z) : list Z :=
  if numbersAreLighter width height data then
    Sharp.threshold (Otsu.otsuLike data) (Sharp.negate data)
  else
    Sharp.threshold (Otsu.otsuLike data) data.

(** The same stage in the [otsuThreshold] variant: negate if needed, then
    threshold with [otsuThreshold(rawData)]. *)
Definition binarize2 (width height : Z) (rawData : list Z) : list Z :=
  let sharpImage :=
    if numbersAreLighter width height rawData then Sharp.negate rawData
    else rawData in
  let threshold := Otsu.otsuThreshold rawData in
  Sharp.threshold threshold sharpImage.

End Binarization.

(** Pixel-wise inversion of an input image. *)
Definition invert (data : list Z) : list Z := map (fun v => 255 - v) data.

(** The loop state [(roiSum, roiCount)] on the inverted image, given the
    state on the original: every sample read so far is replaced by 255
    minus itself. *)
Definition mirrored (acc : option Z * Z) : option Z * Z :=
  ((fun s => 255 * snd acc - s) <$> fst acc, snd acc).

End Handler.


(** ** The digit filter on the recognised text *)

Module OcrText.

(** A string is its sequence of UTF-16 code units; the patterns carry no
    [u] flag, so they match one code unit at a time. *)
Definition is_digit (c : Z) : bool := (48 <=? c) && (c <=? 57).

(** The class [\s]: white space and line terminators. *)
Definition is_space (c : Z) : bool :=
  existsb (Z.eqb c)
    [9; 10; 11; 12; 13; 32; 160; 5760; 8232; 8233; 8239; 8287; 12288; 65279]
  || ((8192 <=? c) && (c <=? 8202)).

(** [text.replace(/[cls]/g, '')]: every code unit in the class is
    replaced by the empty string. *)
Definition strip (cls : Z -> bool) (text : list Z) : list Z :=
  List.filter (fun c => negb (cls c)) text.

(** [text.replace(/[\s\D]/g, '')] of server.js. *)
Definition cleanedText (text : list Z) : list Z :=
  strip (fun c => is_space c || negb (is_digit c)) text.

(** [text.replace(/[^\d]/g, '')] of the [otsuThreshold] variant. *)
Definition cleanedText2 (text : list Z) : list Z :=
  strip (fun c => negb (is_digit c)) text.

End OcrText.

(** ** The readiness guard of [/solve-captcha]

    The process is a single-threaded event loop.  Its events are the
    arrival of a request and the end of [initializeTesseractWorker],
    which either sets [isTesseractWorkerReady] and fulfils
    [tesseractReadyPromise], or exits the process.  A handler that awaits
    a pending promise is suspended until the promise is fulfilled. *)

Module Readiness.

Inductive promise : Type := Pending | Fulfilled.

Record request : Type := Request {
  authorized : bool;
  imageUrl : option (list Z)
}.

(** What the handler does with a request at the readiness guard: it
    sends a response with a status, or it enters the [try] block and
    starts the image processing.  The response of a processed request
    comes later, after further [await]s, and is not part of this
    model. *)
Inductive outcome : Type :=
  | Respond (status : Z)
  | Process (url : list Z).

Record server : Type := Server {
  running : bool;
  isTesseractWorkerReady : bool;
  tesseractReadyPromise : promise;
  suspended : list request
}.

Inductive event : Type :=
  | Arrive (r : request)
  | InitSucceeded
  | InitFailed.

(** The state after the module is loaded: the initialisation has been
    started and nothing has happened yet. *)
Definition boot : server :=
  {| running := true; isTesseractWorkerReady := false;
     tesseractReadyPromise := Pending; suspended := [] |}.

(** The handler from the readiness test on: 503 if the flag is unset,
    400 if [imageUrl] is missing or empty, the processing otherwise. *)
Definition after_guard (ready : bool) (r : request) : outcome :=
  if negb ready then Respond 503
  else
    match imageUrl r with
    | None | Some [] => Respond 400
    | Some url => Process url
    end.

(** server.js (and the [otsuThreshold] variant): the handler starts with
    [await tesseractReadyPromise]. *)
Definition step (s : server) (e : event) : server * list (request * outcome) :=
  if negb (running s) then (s, [])
  else
    match e with
    | Arrive r =>
      match tesseractReadyPromise s with
      | Pending =>
        ({| running := true;
            isTesseractWorkerReady := isTesseractWorkerReady s;
            tesseractReadyPromise := Pending;
            suspended := suspended s ++ [r] |}, [])
      | Fulfilled => (s, [(r, after_guard (isTesseractWorkerReady s) r)])
      end
    | InitSucceeded =>
      match tesseractReadyPromise s with
      | Pending =>
        ({| running := true; isTesseractWorkerReady := true;
            tesseractReadyPromise := Fulfilled; suspended := [] |},
         map (fun r => (r, after_guard true r)) (suspended s))
      | Fulfilled => (s, [])
      end
    | InitFailed =>
      match tesseractReadyPromise s with
      | Pending =>
        ({| running := false;
            isTesseractWorkerReady := isTesseractWorkerReady s;
            tesseractReadyPromise := Pending;
            suspended := suspended s |}, [])
      | Fulfilled => (s, [])
      end
    end.

(** The password variant: [authMiddleware] in front, and no [await]
    before the readiness test. *)
Definition step0 (s : server) (e : event) : server * list (request * outcome) :=
  if negb (running s) then (s, [])
  else
    match e with
    | Arrive r =>
      if authorized r then
        (s, [(r, after_guard (isTesseractWorkerReady s) r)])
      else (s, [(r, Respond 401)])
    | InitSucceeded =>
      match tesseractReadyPromise s with
      | Pending =>
        ({| running := true; isTesseractWorkerReady := true;
            tesseractReadyPromise := Fulfilled;
            suspended := suspended s |}, [])
      | Fulfilled => (s, [])
      end
    | InitFailed =>
      match tesseractReadyPromise s with
      | Pending =>
        ({| running := false;
            isTesseractWorkerReady := isTesseractWorkerReady s;
            tesseractReadyPromise := Pending;
            suspended := suspended s |}, [])
      | Fulfilled => (s, [])
      end
    end.

(** A sequence of events, with what the handler does at the guard along
    the way, in that order. *)
Fixpoint run (stp : server -> event -> server * list (request * outcome))
    (s : server) (events : list event) : server * list (request * outcome) :=
  match events with
  | [] => (s, [])
  | e :: rest =>
    let '(s1, out1) := stp s e in
    let '(s2, out2) := run stp s1 rest in
    (s2, out1 ++ out2)
  end.

End Readiness.

(** ** Strings and values of a request *)

Module Text.

(** [s.startsWith(prefix)] on code units. *)
Fixpoint startsWith (s prefix : list Z) : bool :=
  match prefix, s with
  | [], _ => true
  | p :: prefix', c :: s' => (c =? p) && startsWith s' prefix'
  | _ :: _, [] => false
  end.

(** [s.split(sep)] for a separator of one code unit: the empty string
    gives one empty field. *)
Fixpoint split (sep : Z) (s : list Z) : list (list Z) :=
  match s with
  | [] => [[]]
  | c :: s' =>
    if c =? sep then [] :: split sep s'
    else
      match split sep s' with
      | field :: fields => (c :: field) :: fields
      | [] => [[c]]
      end
  end.

(** [a === b] on strings. *)
Fixpoint same (a b : list Z) : bool :=
  match a, b with
  | [], [] => true
  | x :: a', y :: b' => (x =? y) && same a' b'
  | _, _ => false
  end.

(** ['data:image'], ['http'], [','] and [' ']. *)
Definition data_image : list Z := [100; 97; 116; 97; 58; 105; 109; 97; 103; 101].
Definition http : list Z := [104; 116; 116; 112].
Definition comma : Z := 44.
Definition space : Z := 32.

(** A value found in a parsed JSON body, or [undefined] for a missing
    property.  Objects and arrays are not told apart. *)
Inductive jsvalue : Type :=
  | JUndefined
  | JNull
  | JBool (b : bool)
  | JNumber (q : Q)
  | JString (s : list Z)
  | JObject.

(** The values that pass [if (v)]: all but [undefined], [null],
    [false], [0] and [""]. *)
Definition truthy (v : jsvalue) : bool :=
  match v with
  | JUndefined | JNull => false
  | JBool b => b
  | JNumber q => negb (Qeq_bool q 0)
  | JString [] => false
  | JString (_ :: _) => true
  | JObject => true
  end.

End Text.

(** ** The password of the password variant *)

Module Auth.

(** [a_secret_password = process.env.APP_PASSWORD], with the module
    throwing at load time when it is unset or empty: [None] is the
    failed start. *)
Definition a_secret_password (APP_PASSWORD : option (list Z)) : option (list Z) :=
  match APP_PASSWORD with
  | Some (c :: s) => Some (c :: s)
  | Some [] | None => None
  end.

(** [req.headers.authorization?.split(' ')[1]] *)
Definition providedPassword (authorization : option (list Z)) : option (list Z) :=
  match authorization with
  | None => None
  | Some header => Text.split Text.space header !! 1%nat
  end.

(** [authMiddleware]: [true] is [next()], [false] the 401 response. *)
Definition authMiddleware (secret : list Z) (authorization : option (list Z)) : bool :=
  match providedPassword authorization with
  | Some (c :: p) => Text.same (c :: p) secret
  | Some [] | None => false
  end.

(** [/verify-password]: the status of the response, for the [password]
    property of the body. *)
Definition verify_password (secret : list Z) (password : Text.jsvalue) : Z :=
  if Text.truthy password
     && match password with
        | Text.JString p => Text.same p secret
        | _ => false
        end
  then 200 else 401.

End Auth.

(** ** The [/solve-captcha] handler past the readiness guard

    The handler calls into the network, the image library and the OCR
    worker.  Each call is a field of [collaborators]; [None] is a call
    that throws or a promise that is rejected, which the [try] block
    turns into the 500 response. *)

Module Pipeline.

Import Text.

(** Where the image bytes are taken from. *)
Inductive source : Type :=
  | Inline (base64Data : option (list Z))
  | Remote (url : list Z)
  | Unsupported.

(** The three branches on [imageUrl]; [base64Data] is
    [imageUrl.split(',')[1]], [undefined] when there is no comma. *)
Definition imageSource (imageUrl : list Z) : source :=
  if startsWith imageUrl data_image then
    Inline (split comma imageUrl !! 1%nat)
  else if startsWith imageUrl http then Remote imageUrl
  else Unsupported.

Record collaborators : Type := Collaborators {
  (** [Buffer.from(base64Data, 'base64')] on a string *)
  from_base64 : list Z -> list Z;
  (** [fetch(imageUrl)] then [buffer()]; [None] also when the response
      is not [ok] *)
  fetch : list Z -> option (list Z);
  (** resize, greyscale, sharpen, median, raw: the samples, [width] and
      [height] *)
  preprocess : list Z -> option (list Z * Z * Z);
  (** [toFormat('png').toBuffer()] of a raw raster *)
  to_png : list Z -> Z -> Z -> option (list Z);
  (** [tesseractWorker.recognize]: the text *)
  recognize : list Z -> option (list Z)
}.

Inductive response : Type :=
  | Failed (status : Z)
  | Solved (text : list Z).

(** [imageBuffer]: [Buffer.from(undefined, 'base64')] throws. *)
Definition imageBuffer (c : collaborators) (imageUrl : list Z) : option (list Z) :=
  match imageSource imageUrl with
  | Inline (Some base64Data) => Some (from_base64 c base64Data)
  | Inline None => None
  | Remote url => fetch c url
  | Unsupported => None
  end.

Section Solve.

Context {num : Type} {N : Numbers num}.

(** The [try] block, for an [imageUrl] that is a string. *)
Definition process (c : collaborators) (imageUrl : list Z) : option (list Z) :=
  buffer ← imageBuffer c imageUrl;
  '(data, width, height) ← preprocess c buffer;
  finalImageBuffer ← to_png c (Handler.binarize width height data) width height;
  text ← recognize c finalImageBuffer;
  Some (OcrText.cleanedText text).

(** The handler once the worker is ready: 400 for a missing [imageUrl],
    500 for anything thrown in the [try] block (calling [startsWith] on
    a value that is not a string included), the cleaned text
    otherwise. *)
Definition solve (c : collaborators) (imageUrl : jsvalue) : response :=
  if negb (truthy imageUrl) then Failed 400
  else
    match imageUrl with
    | JString s =>
      match process c s with
      | Some cleanedText => Solved cleanedText
      | None => Failed 500
      end
    | _ => Failed 500
    end.

(** The route of the password variant: [authMiddleware], the readiness
    test, then the same handler. *)
Definition solve_protected (secret : list Z) (ready : bool)
    (c : collaborators) (authorization : option (list Z))
    (imageUrl : jsvalue) : response :=
  if negb (Auth.authMiddleware secret authorization) then Failed 401
  else if negb ready then Failed 503
  else solve c imageUrl.

End Solve.

End Pipeline.

(** ** Concrete buffers used to exercise the statements *)

Module Samples.

(** Two intensity levels. *)
Definition two_levels : list Z := [20; 20; 230; 20; 230].

(** Cut points 0 and 1 have the same, largest, variance; both are
    computed without rounding. *)
Definition tied : list Z := [0; 1; 2].

(** Cut points 0 and 1 have the same variance 16/3, which is not a
    double. *)
Definition tied_thirds : list Z := [0; 1; 1; 2].

(** One intensity only. *)
Definition flat : list Z := [100; 100; 100].

(** A 180 x 60 raster in three bands: 15 rows at 0, 30 rows at 64 and 15
    rows at 128.  The cut points 0 and 64 have the same variance,
    159252480000. *)
Definition tied_bands : list Z :=
  replicate (Z.to_nat 2700) 0 ++ replicate (Z.to_nat 5400) 64
  ++ replicate (Z.to_nat 2700) 128.

(** A 180 x 342 raster: 30780 samples at 128, one at 129 and 30779 at
    130.  The variances of the cut points 128 and 129 are closer to each
    other than the doubles can tell. *)
Definition near_tie : list Z :=
  replicate (Z.to_nat 30780) 128 ++ [129] ++ replicate (Z.to_nat 30779) 130.

(** A 4 x 4 raster, dark surround (100), bright block (250) on the
    region of interest. *)
Definition bright_block : list Z :=
  [100; 100; 100; 100;
   100; 250; 250; 100;
   100; 250; 250; 100;
   100; 100; 100; 100].

(** A 4 x 4 raster with three levels: surround 20, block 230 with one
    pixel at 120. *)
Definition three_levels : list Z :=
  [20; 20; 20; 20;
   20; 230; 230; 20;
   20; 230; 120; 20;
   20; 20; 20; 20].

(** A 4 x 4 raster of mid-gray. *)
Definition mid_gray : list Z := replicate 16 128.

(** A request with a password and an image address. *)
Definition some_request : Readiness.request :=
  {| Readiness.authorized := true; Readiness.imageUrl := Some [104; 116] |}.

End Samples.

(** ** Further concrete values *)

Module Cases.

(** A 4 x 4 raster, dark surround (20), bright block (230) on the region
    of interest. *)
Definition bright_on_dark : list Z :=
  [20; 20; 20; 20;
   20; 230; 230; 20;
   20; 230; 230; 20;
   20; 20; 20; 20].

(** A 4 x 4 raster, bright surround (230), dark block (20) on the region
    of interest. *)
Definition dark_on_bright : list Z :=
  [230; 230; 230; 230;
   230; 20; 20; 230;
   230; 20; 20; 230;
   230; 230; 230; 230].

(** [Samples.bright_block] with another surround (200). *)
Definition bright_block_pale : list Z :=
  [200; 200; 200; 200;
   200; 250; 250; 200;
   200; 250; 250; 200;
   200; 200; 200; 200].

(** ["hunter2"], ["Bearer hunter2"], ["open sesame"]. *)
Definition hunter2 : list Z := [104; 117; 110; 116; 101; 114; 50].
Definition bearer_hunter2 : list Z :=
  [66; 101; 97; 114; 101; 114; 32; 104; 117; 110; 116; 101; 114; 50].
Definition bearer : list Z := [66; 101; 97; 114; 101; 114].
Definition open_sesame : list Z :=
  [111; 112; 101; 110; 32; 115; 101; 115; 97; 109; 101].

(** ["data:image/png;base64"] and ["iVBORw0KGgo="]. *)
Definition png_header : list Z :=
  [100; 97; 116; 97; 58; 105; 109; 97; 103; 101; 47; 112; 110; 103; 59;
   98; 97; 115; 101; 54; 52].
Definition png_payload : list Z :=
  [105; 86; 66; 79; 82; 119; 48; 75; 71; 103; 111; 61].


(** Collaborators that always succeed, and return what they are given. *)
Definition echo : Pipeline.collaborators :=
  {| Pipeline.from_base64 := fun s => s;
     Pipeline.fetch := fun url => Some url;
     Pipeline.preprocess := fun bytes => Some (bytes, 4, 4);
     Pipeline.to_png := fun raster _ _ => Some raster;
     Pipeline.recognize := fun png => Some png |}.

(** Collaborators that succeed; the OCR worker reads ["4 2\n7"]. *)
Definition reader : Pipeline.collaborators :=
  {| Pipeline.from_base64 := fun s => s;
     Pipeline.fetch := fun url => Some url;
     Pipeline.preprocess := fun _ => Some (Samples.bright_block, 4, 4);
     Pipeline.to_png := fun raster _ _ => Some raster;
     Pipeline.recognize := fun _ => Some [52; 32; 50; 10; 55] |}.

(** Collaborators whose every fallible call fails. *)
Definition broken : Pipeline.collaborators :=
  {| Pipeline.from_base64 := fun s => s;
     Pipeline.fetch := fun _ => None;
     Pipeline.preprocess := fun _ => None;
     Pipeline.to_png := fun _ _ _ => None;
     Pipeline.recognize := fun _ => None |}.

End Cases.

(** Case analysis on the comparisons of exponents and mantissas of two
    doubles. *)
Ltac compare_cases :=
  repeat match goal with
  | H : context [Z.compare ?x ?y] |- _ => destruct (Z.compare_spec x y)
  | |- context [Z.compare ?x ?y] => destruct (Z.compare_spec x y)
  | H : context [Pos.compare_cont Eq ?x ?y] |- _ =>
      change (Pos.compare_cont Eq x y) with (Pos.compare x y) in H
  | |- context [Pos.compare_cont Eq ?x ?y] =>
      change (Pos.compare_cont Eq x y) with (Pos.compare x y)
  | H : context [Pos.compare ?x ?y] |- _ => destruct (Pos.compare_spec x y)
  | |- context [Pos.compare ?x ?y] => destruct (Pos.compare_spec x y)
  end.

Ltac float_cases a b :=
  destruct a as [[|]|[|]| |[|] ? ?], b as [[|]|[|]| |[|] ? ?]; cbn;
  auto; try discriminate;
  compare_cases; cbn; auto; try discriminate;
  intros; exfalso; subst; lia.

(** Every sample of a literal buffer is one of two given levels. *)
Ltac two_levels_list :=
  let v := fresh "v" in
  let Hv := fresh "Hv" in
  intros v Hv; simpl in Hv;
  repeat (destruct Hv as [Hv|Hv]; [rewrite <- Hv; auto|]);
  destruct Hv.

(** Every sample of a literal buffer is a byte. *)
Ltac gray_list :=
  unfold gray;
  repeat (apply List.Forall_cons; [unfold sample; lia|]);
  apply List.Forall_nil.

(** * Properties *)

Local Open Scope Z_scope.

(** ** The histogram counts occurrences *)

Section Histogram.

Import Otsu Variance.

Lemma bump_lookup (hist : list Z) (v t : Z) (f : Z -> Z) :
  length hist = 256%nat -> sample v -> 0 <= t < 256 ->
  (<[Z.to_nat v := f (hist !!! Z.to_nat v)]> hist) !!! Z.to_nat t
  = if v =? t then f (hist !!! Z.to_nat t) else hist !!! Z.to_nat t.
Proof.
  intros Hlen [Hv0 Hv1] Ht.
  destruct (Z.eqb_spec v t) as [->|Hne].
  - apply list_lookup_total_insert_eq. lia.
  - apply list_lookup_total_insert_ne. lia.
Qed.

Lemma histogram_fold (data : list Z) :
  gray data ->
  forall (hist : list Z) (t : Z),
    length hist = 256%nat -> 0 <= t < 256 ->
    fold_left
      (fun hist v => <[Z.to_nat v := (hist !!! Z.to_nat v) + 1]> hist)
      data hist !!! Z.to_nat t
    = hist !!! Z.to_nat t + occurrences t data.
Proof.
  induction 1 as [|v data Hv Hdata IH]; intros hist t Hlen Ht; simpl.
  - lia.
  - rewrite IH by (rewrite ?length_insert; assumption).
    rewrite (bump_lookup hist v t (fun n => n + 1)) by assumption.
    destruct (v =? t); lia.
Qed.

Lemma histogram_lookup (data : list Z) (t : Z) :
  gray data -> 0 <= t < 256 ->
  histogram data !!! Z.to_nat t = occurrences t data.
Proof.
  intros Hg Ht. unfold histogram.
  rewrite histogram_fold by (rewrite ?length_replicate; auto).
  rewrite lookup_total_replicate_2 by lia. lia.
Qed.

Lemma occurrences_nonneg (t : Z) (data : list Z) : 0 <= occurrences t data.
Proof. induction data as [|v data IH]; simpl; [lia | destruct (v =? t); lia]. Qed.

Lemma occurrences_le_length (t : Z) (data : list Z) :
  occurrences t data <= Z.of_nat (length data).
Proof. induction data as [|v data IH]; simpl; [lia | destruct (v =? t); lia]. Qed.

(** Moving the cut point one step up adds the samples equal to it. *)
Lemma weight_below_step (t : Z) (data : list Z) :
  weight_below t data = weight_below (t - 1) data + occurrences t data.
Proof.
  induction data as [|v data IH]; simpl; [lia|].
  rewrite IH.
  destruct (Z.leb_spec v t), (Z.leb_spec v (t - 1)), (Z.eqb_spec v t); lia.
Qed.

Lemma mass_below_step (t : Z) (data : list Z) :
  mass_below t data = mass_below (t - 1) data + t * occurrences t data.
Proof.
  induction data as [|v data IH]; simpl; [lia|].
  rewrite IH.
  destruct (Z.leb_spec v t), (Z.leb_spec v (t - 1)), (Z.eqb_spec v t); lia.
Qed.

Lemma weight_below_neg (t : Z) (data : list Z) :
  gray data -> t < 0 -> weight_below t data = 0.
Proof.
  induction 1 as [|v data [Hv _] _ IH]; intros Ht; simpl; [lia|].
  rewrite IH by lia. destruct (Z.leb_spec v t); lia.
Qed.

Lemma mass_below_neg (t : Z) (data : list Z) :
  gray data -> t < 0 -> mass_below t data = 0.
Proof.
  induction 1 as [|v data [Hv _] _ IH]; intros Ht; simpl; [lia|].
  rewrite IH by lia. destruct (Z.leb_spec v t); lia.
Qed.

Lemma weight_below_top (t : Z) (data : list Z) :
  gray data -> 255 <= t -> weight_below t data = Z.of_nat (length data).
Proof.
  induction 1 as [|v data [_ Hv] _ IH]; intros Ht; simpl length; simpl; [lia|].
  rewrite IH by lia. destruct (Z.leb_spec v t); lia.
Qed.

Lemma mass_below_top (t : Z) (data : list Z) :
  gray data -> 255 <= t -> mass_below t data = intensity data.
Proof.
  induction 1 as [|v data [_ Hv] _ IH]; intros Ht; simpl; [lia|].
  rewrite IH by lia. destruct (Z.leb_spec v t); lia.
Qed.

Lemma weight_below_range (t : Z) (data : list Z) :
  0 <= weight_below t data <= Z.of_nat (length data).
Proof.
  induction data as [|v data IH]; simpl length; simpl; [lia|].
  destruct (v <=? t); lia.
Qed.

Lemma weight_below_mono (t u : Z) (data : list Z) :
  t <= u -> weight_below t data <= weight_below u data.
Proof.
  intros Htu. induction data as [|v data IH]; simpl; [lia|].
  destruct (Z.leb_spec v t), (Z.leb_spec v u); lia.
Qed.

(** The samples at or below [t] weigh at most [t] each, the samples
    above [t] at least [t + 1] each. *)
Lemma mass_below_bound (t : Z) (data : list Z) :
  mass_below t data <= t * weight_below t data.
Proof.
  induction data as [|v data IH]; simpl; [lia|].
  destruct (Z.leb_spec v t); lia.
Qed.

Lemma mass_above_bound (t : Z) (data : list Z) :
  (t + 1) * (Z.of_nat (length data) - weight_below t data)
  <= intensity data - mass_below t data.
Proof.
  induction data as [|v data IH]; simpl length; simpl; [lia|].
  destruct (Z.leb_spec v t); lia.
Qed.

(** [sum] as the first loop of [otsuLike] computes it. *)
Lemma weighted_sum_prefix (data : list Z) (n : nat) :
  gray data -> (n <= 256)%nat ->
  fold_left (fun sum t => sum + t * (histogram data !!! Z.to_nat t))
    (seqZ 0 (Z.of_nat n)) 0
  = mass_below (Z.of_nat n - 1) data.
Proof.
  intros Hg. induction n as [|n IH]; intros Hn.
  - simpl. symmetry. apply mass_below_neg; [assumption | lia].
  - rewrite seqZ_S, fold_left_app, IH by lia. cbn [fold_left].
    rewrite Z.add_0_l, histogram_lookup by (auto; lia).
    replace (Z.of_nat (S n) - 1) with (Z.of_nat n) by lia.
    rewrite (mass_below_step (Z.of_nat n)). reflexivity.
Qed.

Lemma weighted_sum_histogram (data : list Z) :
  gray data -> weighted_sum (histogram data) = intensity data.
Proof.
  intros Hg. unfold weighted_sum.
  change 256 with (Z.of_nat 256).
  rewrite weighted_sum_prefix by auto.
  apply mass_below_top; [assumption | lia].
Qed.

End Histogram.

Lemma mass_below_nonneg (t : Z) (data : list Z) :
  gray data -> 0 <= Variance.mass_below t data.
Proof.
  induction 1 as [|v data [Hv _] _ IH]; simpl; [lia|].
  destruct (v <=? t); lia.
Qed.

Lemma mass_above_nonneg (t : Z) (data : list Z) :
  gray data -> 0 <= Variance.intensity data - Variance.mass_below t data.
Proof.
  induction 1 as [|v data [Hv _] _ IH]; simpl; [lia|].
  destruct (v <=? t); lia.
Qed.

(** ** Consequences of the order laws *)

Section Order.

Import Variance.

Context {num : Type} {N : Numbers num} {O : ComparedScores N}.

Lemma gt_asym (a b : num) : ngt a b = true -> ngt b a = false.
Proof.
  intros Hab. destruct (ngt b a) eqn:Hba; [|reflexivity].
  pose proof (gt_trans a b a Hab Hba) as Haa.
  rewrite (gt_irrefl a) in Haa. discriminate.
Qed.

(** [a] is not above [b] and [c] is above [b]: [a] is not above [c]. *)
Lemma not_gt_below (a b c : num) :
  ngt a b = false -> ngt c b = true -> ngt a c = false.
Proof.
  intros Hab Hcb. destruct (ngt a c) eqn:Hac; [|reflexivity].
  rewrite (gt_trans a c b Hac Hcb) in Hab. discriminate.
Qed.

(** A number above another one is not unordered. *)
Lemma gt_ordered (a b : num) : ngt a b = true -> ~ unordered a.
Proof.
  intros Hab Hun. destruct (Hun b) as [H _]. congruence.
Qed.

End Order.

(** ** The variance of a cut point *)

Section VarianceFacts.

Import Variance.

Context {num : Type} {N : Numbers num}.

Variable data : list Z.

Lemma betweenVar_empty_below (t : Z) :
  weight_below t data = 0 -> betweenVar data t = of_int 0.
Proof. intros H. unfold betweenVar. rewrite H. reflexivity. Qed.

Lemma betweenVar_empty_above (t : Z) :
  Z.of_nat (length data) - weight_below t data = 0 ->
  betweenVar data t = of_int 0.
Proof.
  intros H. unfold betweenVar. rewrite H, orb_true_r. reflexivity.
Qed.

Lemma betweenVar_both (t : Z) :
  weight_below t data <> 0 ->
  Z.of_nat (length data) - weight_below t data <> 0 ->
  betweenVar data t
  = variance (weight_below t data)
      (Z.of_nat (length data) - weight_below t data)
      (mass_below t data) (intensity data - mass_below t data).
Proof.
  intros HB HF. unfold betweenVar.
  apply Z.eqb_neq in HB, HF. rewrite HB, HF. reflexivity.
Qed.

Lemma betweenVar_score (t : Z) : gray data -> score (betweenVar data t).
Proof.
  intros Hg. pose proof (weight_below_range t data) as Hr.
  destruct (Z.eq_dec (weight_below t data) 0) as [HB|HB].
  { rewrite betweenVar_empty_below by assumption. constructor. }
  destruct (Z.eq_dec (Z.of_nat (length data) - weight_below t data) 0)
    as [HF|HF].
  { rewrite betweenVar_empty_above by assumption. constructor. }
  rewrite betweenVar_both by assumption.
  constructor; try lia.
  - apply mass_below_nonneg. assumption.
  - apply mass_above_nonneg. assumption.
Qed.

End VarianceFacts.

(** ** The scan keeps the first largest variance *)

Section ScanCorrect.

Import Otsu Variance ScanInv.

Context {num : Type} {N : Numbers num} {O : ComparedScores N}.

Variable data : list Z.
Hypothesis Hgray : gray data.

(** Zero, the variance of a cut point with an empty side, is never
    above [varMax]. *)
Lemma best_zero (t0 : Z) (st : scan_state num) :
  Best data t0 st -> ngt (of_int 0) (varMax st) = false.
Proof.
  intros (_ & [[-> _]|(_ & _ & Hpos)] & _).
  - apply gt_irrefl.
  - apply gt_asym. assumption.
Qed.

Lemma best_continue (t0 : Z) (st : scan_state num) (s w f : Z) :
  Best data t0 st -> weight_below t0 data = 0 ->
  Best data (Z.succ t0)
    {| sumB := s; wB := w; wF := f;
       varMax := varMax st; threshold := threshold st |}.
Proof.
  intros HB Hz. pose proof (best_zero t0 st HB) as H0.
  destruct HB as (Hall & Hdisj & Hfirst). unfold Best; cbn.
  split; [|split; [|assumption]].
  - intros t Ht. destruct (Z.eq_dec t t0) as [->|Hne].
    + rewrite betweenVar_empty_below by assumption. exact H0.
    + apply Hall. lia.
  - destruct Hdisj as [?|(? & ? & ?)]; [left; assumption | right].
    split; [lia|]. split; assumption.
Qed.

Lemma best_break (t0 : Z) (st : scan_state num) (s w f : Z) :
  0 <= t0 <= 256 ->
  Best data t0 st ->
  Z.of_nat (length data) - weight_below t0 data = 0 ->
  Best data 256
    {| sumB := s; wB := w; wF := f;
       varMax := varMax st; threshold := threshold st |}.
Proof.
  intros Ht0 HB Hz. pose proof (best_zero t0 st HB) as H0.
  destruct HB as (Hall & Hdisj & Hfirst). unfold Best; cbn.
  split; [|split; [|assumption]].
  - intros t Ht. destruct (Z_lt_le_dec t t0) as [Hlt|Hge].
    + apply Hall. lia.
    + rewrite betweenVar_empty_above; [exact H0|].
      pose proof (weight_below_mono t0 t data Hge).
      pose proof (weight_below_range t data). lia.
  - destruct Hdisj as [?|(? & ? & ?)]; [left; assumption | right].
    split; [lia|]. split; assumption.
Qed.

Lemma best_update (t0 : Z) (st : scan_state num) (s w f : Z) :
  0 <= t0 ->
  Best data t0 st ->
  ngt (betweenVar data t0) (varMax st) = true ->
  Best data (Z.succ t0)
    {| sumB := s; wB := w; wF := f;
       varMax := betweenVar data t0; threshold := t0 |}.
Proof.
  intros Ht0 (Hall & Hdisj & Hfirst) Hgt. unfold Best; cbn.
  split; [|split].
  - intros t Ht. destruct (Z.eq_dec t t0) as [->|Hne]; [apply gt_irrefl|].
    apply (not_gt_below _ (varMax st)); [apply Hall; lia | assumption].
  - right. split; [lia|]. split; [reflexivity|].
    destruct Hdisj as [[Hz _]|(_ & _ & Hpos)].
    + rewrite <- Hz. assumption.
    + apply (gt_trans _ (varMax st)); assumption.
  - intros t Ht.
    apply (gt_total _ (varMax st)); [apply Hall; lia | assumption].
Qed.

Lemma best_keep (t0 : Z) (st : scan_state num) (s w f : Z) :
  Best data t0 st ->
  ngt (betweenVar data t0) (varMax st) = false ->
  Best data (Z.succ t0)
    {| sumB := s; wB := w; wF := f;
       varMax := varMax st; threshold := threshold st |}.
Proof.
  intros (Hall & Hdisj & Hfirst) Hle. unfold Best; cbn.
  split; [|split; [|assumption]].
  - intros t Ht. destruct (Z.eq_dec t t0) as [->|Hne]; [assumption|].
    apply Hall. lia.
  - destruct Hdisj as [?|(? & ? & ?)]; [left; assumption | right].
    split; [lia|]. split; assumption.
Qed.

Lemma scan_best (n : nat) :
  forall (t0 : Z) (st : scan_state num),
    0 <= t0 -> t0 + Z.of_nat n = 256 ->
    Sync data t0 st -> Best data t0 st ->
    Best data 256
      (scan (histogram data) (intensity data) (Z.of_nat (length data))
         (seqZ t0 (Z.of_nat n)) st).
Proof.
  induction n as [|n IH]; intros t0 st Ht0 Hend [HwB HsumB] HB.
  - simpl. replace 256 with t0 by lia. exact HB.
  - rewrite seqZ_cons by lia.
    replace (Z.pred (Z.of_nat (S n))) with (Z.of_nat n) by lia.
    cbn [scan].
    rewrite histogram_lookup by (auto; lia).
    pose proof (weight_below_step t0 data) as Hw.
    pose proof (mass_below_step t0 data) as Hm.
    rewrite HwB, HsumB, <- Hw, <- Hm.
    destruct (Z.eqb_spec (weight_below t0 data) 0) as [Hz|Hnz].
    { apply IH; [lia | lia | | apply best_continue; assumption].
      split; cbn; replace (Z.succ t0 - 1) with t0 by lia; [reflexivity|].
      rewrite Hm.
      pose proof (occurrences_nonneg t0 data).
      pose proof (weight_below_range (t0 - 1) data).
      replace (occurrences t0 data) with 0 by lia. lia. }
    destruct (Z.eqb_spec (Z.of_nat (length data) - weight_below t0 data) 0)
      as [Hf|Hnf].
    { apply (best_break t0); [lia | assumption | assumption]. }
    pose proof (betweenVar_both data t0 Hnz Hnf) as Hbv.
    unfold variance in Hbv. cbn zeta in Hbv. rewrite <- Hbv.
    destruct (ngt (betweenVar data t0) (varMax st)) eqn:Hcmp.
    + apply IH; [lia | lia | | ].
      * split; cbn; replace (Z.succ t0 - 1) with t0 by lia; reflexivity.
      * apply (best_update t0 st); [lia | assumption | assumption].
    + apply IH; [lia | lia | | ].
      * split; cbn; replace (Z.succ t0 - 1) with t0 by lia; reflexivity.
      * apply best_keep; assumption.
Qed.

Lemma best_init : Best data 0 scan_init.
Proof.
  unfold Best, scan_init; cbn.
  split; [intros; lia|].
  split; [left; split; reflexivity | intros; lia].
Qed.

Lemma sync_init : Sync data 0 (scan_init (num := num)).
Proof.
  unfold Sync, scan_init; cbn.
  rewrite weight_below_neg, mass_below_neg by (auto; lia). split; reflexivity.
Qed.

(** The state in which [otsuLike] leaves its loop. *)
Lemma otsuLike_best :
  exists st : scan_state num,
    otsuLike data = threshold st /\ Best data 256 st.
Proof.
  eexists. split; [reflexivity|].
  rewrite weighted_sum_histogram by assumption.
  change 256 with (Z.of_nat 256) at 2.
  apply scan_best; [lia | reflexivity | apply sync_init | apply best_init].
Qed.

End ScanCorrect.

(** ** The scan only picks cut points with samples on both sides *)

Section ScanPicks.

Import Otsu Variance ScanInv.

Context {num : Type} {N : Numbers num}.

Variable data : list Z.
Hypothesis Hgray : gray data.

Lemma picked_later (t0 t1 : Z) (st : scan_state num) (s w f : Z) (v : num) :
  t0 <= t1 -> Picked data t0 st ->
  Picked data t1
    {| sumB := s; wB := w; wF := f; varMax := v; threshold := threshold st |}.
Proof.
  intros Hle [Hz|(Hr & HB & HF)]; [left; assumption | right].
  cbn. split; [lia|]. split; assumption.
Qed.

Lemma scan_picked (n : nat) :
  forall (t0 : Z) (st : scan_state num),
    0 <= t0 -> t0 + Z.of_nat n = 256 ->
    wB st = weight_below (t0 - 1) data ->
    Picked data t0 st ->
    forall sum : Z,
      Picked data 256
        (scan (histogram data) sum (Z.of_nat (length data))
           (seqZ t0 (Z.of_nat n)) st).
Proof.
  induction n as [|n IH]; intros t0 st Ht0 Hend HwB HP sum.
  - simpl. replace 256 with t0 by lia. exact HP.
  - rewrite seqZ_cons by lia.
    replace (Z.pred (Z.of_nat (S n))) with (Z.of_nat n) by lia.
    cbn [scan].
    rewrite histogram_lookup by (auto; lia).
    pose proof (weight_below_step t0 data) as Hw.
    pose proof (weight_below_range t0 data) as Hr.
    rewrite HwB, <- Hw.
    destruct (Z.eqb_spec (weight_below t0 data) 0) as [Hz|Hnz].
    { apply IH; [lia | lia | |].
      - cbn. f_equal. lia.
      - apply (picked_later t0); [lia | assumption]. }
    destruct (Z.eqb_spec (Z.of_nat (length data) - weight_below t0 data) 0)
      as [Hf|Hnf].
    { apply (picked_later t0); [lia | assumption]. }
    match goal with |- context [if ?c then _ else _] => destruct c end.
    + apply IH; [lia | lia | |].
      * cbn. f_equal. lia.
      * right. cbn. split; [lia|]. split; lia.
    + apply IH; [lia | lia | |].
      * cbn. f_equal. lia.
      * apply (picked_later t0); [lia | assumption].
Qed.

Lemma otsuLike_picked :
  otsuLike data = 0 \/
  (0 <= otsuLike data < 256 /\
   0 < weight_below (otsuLike data) data /\
   0 < Z.of_nat (length data) - weight_below (otsuLike data) data).
Proof.
  unfold otsuLike. cbv zeta.
  change 256 with (Z.of_nat 256) at 1 4.
  apply (scan_picked 256 0 scan_init); [lia | reflexivity | | left; reflexivity].
  cbn. symmetry. apply weight_below_neg; [assumption | lia].
Qed.

End ScanPicks.

(** ** The two selectors agree *)

Section Variants.

Import Otsu Variance.

Lemma tally_fold (data : list Z) :
  gray data ->
  forall (hist : list Z) (sum c : Z),
    length hist = 256%nat ->
    Forall (fun b => 0 <= b <= c) hist ->
    c + Z.of_nat (length data) < 2 ^ 32 ->
    fold_left
      (fun '(hist, sum) val =>
         (<[Z.to_nat val := uint32 ((hist !!! Z.to_nat val) + 1)]> hist,
          sum + val))
      data (hist, sum)
    = (fold_left
         (fun hist v => <[Z.to_nat v := (hist !!! Z.to_nat v) + 1]> hist)
         data hist,
       sum + intensity data).
Proof.
  induction 1 as [|v data Hv Hdata IH]; intros hist sum c Hlen Hbins Hc.
  - simpl. f_equal. lia.
  - cbn [fold_left intensity]. cbn [length] in Hc.
    assert (Hb : 0 <= hist !!! Z.to_nat v <= c).
    { apply (Forall_lookup_total_1 (fun b => 0 <= b <= c)); [assumption|].
      destruct Hv. lia. }
    assert (Hwrap : uint32 (hist !!! Z.to_nat v + 1) = hist !!! Z.to_nat v + 1).
    { unfold uint32. apply Z.mod_small. lia. }
    rewrite Hwrap.
    rewrite (IH _ _ (c + 1)).
    + f_equal. lia.
    + rewrite length_insert. assumption.
    + apply Forall_insert; [|lia].
      eapply Forall_impl; [exact Hbins|]. cbn. intros; lia.
    + lia.
Qed.

Lemma tally_histogram (data : list Z) :
  gray data -> Z.of_nat (length data) < 2 ^ 32 ->
  tally data = (histogram data, intensity data).
Proof.
  intros Hg Hlen. unfold tally, histogram.
  rewrite (tally_fold data Hg _ _ 0).
  - reflexivity.
  - apply length_replicate.
  - apply Forall_replicate. lia.
  - lia.
Qed.

Lemma otsuThreshold_otsuLike {num : Type} {N : Numbers num} (data : list Z) :
  gray data -> Z.of_nat (length data) < 2 ^ 32 ->
  otsuThreshold data = otsuLike data.
Proof.
  intros Hg Hlen. unfold otsuThreshold, otsuLike.
  rewrite tally_histogram, weighted_sum_histogram by assumption.
  reflexivity.
Qed.

End Variants.

(** ** Which cut points have samples on both sides *)

Section Populations.

Import Variance.

Lemma weight_below_pos (t : Z) (data : list Z) :
  0 < weight_below t data <-> exists v, In v data /\ v <= t.
Proof.
  induction data as [|v data IH]; simpl.
  - split; [lia | intros (v & [] & _)].
  - pose proof (weight_below_range t data) as Hr.
    destruct (Z.leb_spec v t) as [Hle|Hgt]; split.
    + intros _. exists v. auto.
    + intros _. lia.
    + intros H. apply IH in H; [|lia..]. destruct H as (u & Hu & Hut).
      exists u. auto.
    + intros (u & [->|Hu] & Hut); [lia|].
      assert (0 < weight_below t data) by (apply IH; eauto). lia.
Qed.

Lemma weight_above_pos (t : Z) (data : list Z) :
  0 < Z.of_nat (length data) - weight_below t data
  <-> exists v, In v data /\ t < v.
Proof.
  induction data as [|v data IH]; simpl length; simpl weight_below.
  - simpl. split; [lia | intros (v & [] & _)].
  - pose proof (weight_below_range t data) as Hr.
    destruct (Z.leb_spec v t) as [Hle|Hgt]; split.
    + intros H. assert (H' : 0 < Z.of_nat (length data) - weight_below t data)
        by lia.
      apply IH in H'. destruct H' as (u & Hu & Hut). exists u. simpl. auto.
    + intros (u & [->|Hu] & Hut); [lia|].
      assert (0 < Z.of_nat (length data) - weight_below t data)
        by (apply IH; eauto). lia.
    + intros _. exists v. simpl. auto.
    + intros _. lia.
Qed.

Lemma darkest_cons (u : Z) (data : list Z) :
  darkest (u :: data) = Z.min u (darkest data).
Proof. reflexivity. Qed.

Lemma brightest_cons (u : Z) (data : list Z) :
  brightest (u :: data) = Z.max u (brightest data).
Proof. reflexivity. Qed.

Lemma darkest_le (data : list Z) (v : Z) :
  In v data -> darkest data <= v.
Proof.
  induction data as [|u data IH]; [intros []|].
  rewrite darkest_cons. intros [->|Hv]; [lia|]. specialize (IH Hv). lia.
Qed.

Lemma brightest_ge (data : list Z) (v : Z) :
  In v data -> v <= brightest data.
Proof.
  induction data as [|u data IH]; [intros []|].
  rewrite brightest_cons. intros [->|Hv]; [lia|]. specialize (IH Hv). lia.
Qed.

Lemma darkest_in (data : list Z) :
  gray data -> data <> [] -> In (darkest data) data.
Proof.
  induction 1 as [|v data [_ Hv] Hd IH]; intros Hne; [congruence|].
  rewrite darkest_cons.
  destruct data as [|u data'].
  - left. unfold darkest; simpl. lia.
  - destruct (Z.min_spec v (darkest (u :: data'))) as [[_ ->]|[_ ->]].
    + left; reflexivity.
    + right. apply IH. discriminate.
Qed.

Lemma brightest_in (data : list Z) :
  gray data -> data <> [] -> In (brightest data) data.
Proof.
  induction 1 as [|v data [Hv _] Hd IH]; intros Hne; [congruence|].
  rewrite brightest_cons.
  destruct data as [|u data'].
  - left. unfold brightest; simpl. lia.
  - destruct (Z.max_spec v (brightest (u :: data'))) as [[_ ->]|[_ ->]].
    + right. apply IH. discriminate.
    + left; reflexivity.
Qed.

End Populations.

(** ** The rationals satisfy the laws *)

Lemma Qgtb_true (a b : Q) : Qgtb a b = true <-> (b < a)%Q.
Proof.
  unfold Qgtb. rewrite (Qgt_alt a b).
  destruct (a ?= b)%Q; split; congruence.
Qed.

Lemma Qgtb_false (a b : Q) : Qgtb a b = false <-> (a <= b)%Q.
Proof.
  unfold Qgtb. rewrite (Qle_alt a b).
  destruct (a ?= b)%Q; split; congruence.
Qed.

Lemma Qsquare (x : Q) : (x ^ 2 == x * x)%Q.
Proof. reflexivity. Qed.

Lemma Qsquare_nonneg (x : Q) : (0 <= x ^ 2)%Q.
Proof. rewrite Qsquare. nra. Qed.

Lemma exact_variance_nonneg (wB wF sumB sumF : Z) :
  0 <= wB -> 0 <= wF ->
  (0 <= Variance.variance (N := exact) wB wF sumB sumF)%Q.
Proof.
  intros HB HF.
  change (0 <= inject_Z wB * inject_Z wF
               * (inject_Z sumB / inject_Z wB
                  - inject_Z sumF / inject_Z wF) ^ 2)%Q.
  apply Qmult_le_0_compat; [apply Qmult_le_0_compat|].
  - change 0%Q with (inject_Z 0). rewrite <- Zle_Qle. lia.
  - change 0%Q with (inject_Z 0). rewrite <- Zle_Qle. lia.
  - apply Qsquare_nonneg.
Qed.

Lemma exact_score_nonneg (a : Q) :
  Variance.score (N := exact) a -> (0 <= a)%Q.
Proof.
  intros [|wB wF sumB sumF HB HF _ _].
  - apply Qle_refl.
  - apply exact_variance_nonneg; lia.
Qed.

(** The rationals are ordered, none is unordered, and squares are not
    negative. *)
Lemma exact_compared : Variance.ComparedScores exact.
Proof.
  split; cbn.
  - intros a. apply Qgtb_false, Qle_refl.
  - intros a b c. rewrite !Qgtb_true. intros Hab Hbc.
    apply (Qlt_trans _ b); assumption.
  - intros a b c. rewrite Qgtb_false, !Qgtb_true. intros Hab Hcb.
    right. apply (Qle_lt_trans _ b); assumption.
  - intros a b Hb. rewrite !Qgtb_false. intros _ Ha.
    apply (Qle_trans _ (inject_Z 0)); [assumption|].
    apply exact_score_nonneg. assumption.
Qed.

(** ** The doubles satisfy the laws

    The comparisons and the operations of the doubles are those of
    [SpecFloat], through the specifications of the primitive floats. *)

Section DoubleLaws.

Lemma SFltb_irrefl (a : spec_float) : SFltb a a = false.
Proof.
  unfold SFltb. destruct a as [[|]|[|]| |[|] m e]; cbn; try reflexivity;
    rewrite Z.compare_refl, Pos.compare_cont_refl; reflexivity.
Qed.

Lemma SFltb_trans (a b c : spec_float) :
  SFltb a b = true -> SFltb b c = true -> SFltb a c = true.
Proof.
  unfold SFltb. destruct c as [[|]|[|]| |[|] mc ec]; float_cases a b.
Qed.

(** Two numbers are comparable unless one of them is NaN. *)
Lemma SFltb_total (a b c : spec_float) :
  SFltb b a = false -> SFltb b c = true ->
  a = S754_nan \/ SFltb a c = true.
Proof.
  unfold SFltb. destruct c as [[|]|[|]| |[|] mc ec]; float_cases a b.
Qed.

Lemma SFltb_nan_r (a : spec_float) : SFltb a S754_nan = false.
Proof. destruct a; reflexivity. Qed.

Lemma SFleb_nan_r (a : spec_float) : SFleb a S754_nan = false.
Proof. destruct a; reflexivity. Qed.

Lemma SFltb_not_leb (a b : spec_float) :
  SFltb a b = true -> SFleb b a = false.
Proof. unfold SFltb, SFleb. float_cases a b. Qed.

Lemma SFeqb_leb (a b : spec_float) : SFeqb a b = true -> SFleb b a = true.
Proof. unfold SFeqb, SFleb. float_cases a b. Qed.

(** Two numbers, neither of them NaN: if the first is not below the
    second, the second is below or equal to the first. *)
Lemma SFleb_total (a b : spec_float) :
  SFltb a b = false -> a <> S754_nan -> b <> S754_nan -> SFleb b a = true.
Proof.
  unfold SFltb, SFleb.
  destruct a as [[|]|[|]| |[|] ma ea], b as [[|]|[|]| |[|] mb eb]; cbn;
    intros; try congruence;
    compare_cases; cbn in *; congruence || (exfalso; subst; lia).
Qed.

(** Only NaN is neither below plus infinity nor above minus infinity. *)
Lemma SFltb_bounds (a : spec_float) :
  SFltb a (S754_infinity false) = false ->
  SFltb (S754_infinity true) a = false ->
  a = S754_nan.
Proof.
  unfold SFltb. destruct a as [[|]|[|]| |[|] m e]; cbn;
    try discriminate; reflexivity.
Qed.

(** *** Signs *)

Lemma binary_round_aux_sign (m e : Z) (l : location) :
  Doubles.not_negative (binary_round_aux prec emax false m e l).
Proof.
  unfold binary_round_aux.
  destruct (shr_fexp prec emax m e l) as [mrs' e'].
  destruct (shr_fexp prec emax _ e' loc_Exact) as [mrs'' e''].
  destruct (shr_m mrs''); cbn; auto.
  destruct (e'' <=? emax - prec); cbn; reflexivity.
Qed.

Lemma SFmul_sign (a b : spec_float) :
  Doubles.not_negative a -> Doubles.not_negative b ->
  Doubles.not_negative (SF64mul a b).
Proof.
  destruct a as [sa|sa| |sa ma ea], b as [sb|sb| |sb mb eb]; cbn;
    intros; subst; cbn; auto.
  apply binary_round_aux_sign.
Qed.

(** A square is not negative, whatever is squared. *)
Lemma SFsquare_sign (a : spec_float) : Doubles.not_negative (SF64mul a a).
Proof.
  destruct a as [sa|sa| |sa ma ea]; cbn; try (destruct sa; reflexivity); auto.
  replace (xorb sa sa) with false by (destruct sa; reflexivity).
  apply binary_round_aux_sign.
Qed.

Lemma SFadd_sign (a b : spec_float) :
  Doubles.not_negative a -> Doubles.not_negative b ->
  Doubles.not_negative (SF64add a b).
Proof.
  destruct a as [sa|sa| |sa ma ea], b as [sb|sb| |sb mb eb]; cbn;
    intros; subst; cbn; auto.
  unfold binary_normalize.
  match goal with
  | |- context [match ?z with Z0 => _ | Zpos _ => _ | Zneg _ => _ end] =>
    assert (Hz : 0 < z) by lia; destruct z; try lia
  end.
  unfold binary_round.
  destruct (shl_align _ _ _). apply binary_round_aux_sign.
Qed.

Lemma float_of_pos_sign (p : positive) :
  Doubles.not_negative (Prim2SF (float_of_pos p)).
Proof.
  induction p as [q IH|q IH|]; cbn [float_of_pos].
  - rewrite FloatAxioms.add_spec, FloatAxioms.mul_spec.
    apply SFadd_sign; [|vm_compute; reflexivity].
    apply SFmul_sign; [vm_compute; reflexivity | exact IH].
  - rewrite FloatAxioms.mul_spec.
    apply SFmul_sign; [vm_compute; reflexivity | exact IH].
  - vm_compute. reflexivity.
Qed.

Lemma variance_sign (wB wF sumB sumF : Z) :
  0 < wB -> 0 < wF ->
  Doubles.not_negative
    (Prim2SF (Variance.variance (N := binary64) wB wF sumB sumF)).
Proof.
  intros HB HF. unfold Variance.variance. cbn.
  rewrite !FloatAxioms.mul_spec. apply SFmul_sign; [|apply SFsquare_sign].
  apply SFmul_sign.
  - destruct wB; try lia. apply float_of_pos_sign.
  - destruct wF; try lia. apply float_of_pos_sign.
Qed.

Lemma score_sign (a : PrimFloat.float) :
  Variance.score (N := binary64) a -> Doubles.not_negative (Prim2SF a).
Proof.
  intros [|wB wF sumB sumF HB HF _ _].
  - vm_compute. reflexivity.
  - apply variance_sign; assumption.
Qed.

(** A number that is neither negative nor above zero is a zero or NaN:
    what is above it is above zero. *)
Lemma SFltb_floor (a b : spec_float) :
  Doubles.not_negative b ->
  SFltb (S754_zero false) b = false ->
  SFltb (S754_zero false) a = false ->
  SFltb b a = false.
Proof.
  unfold SFltb.
  destruct a as [sa|sa| |sa ma ea], b as [sb|sb| |sb mb eb]; cbn;
    intros; subst; cbn in *; try discriminate; try reflexivity;
    destruct sa; try discriminate; try reflexivity.
Qed.

Lemma Prim2SF_zero : Prim2SF PrimFloat.zero = S754_zero false.
Proof. vm_compute. reflexivity. Qed.

(** *** The laws *)

Lemma binary64_unordered (a : PrimFloat.float) :
  Variance.unordered (N := binary64) a <-> Prim2SF a = S754_nan.
Proof.
  split.
  - intros H.
    destruct (H PrimFloat.infinity) as [_ Hhi].
    destruct (H PrimFloat.neg_infinity) as [Hlo _].
    unfold ngt, binary64 in Hhi, Hlo. rewrite FloatAxioms.ltb_spec in Hhi, Hlo.
    apply SFltb_bounds; assumption.
  - intros Hnan x. unfold ngt, binary64. rewrite !FloatAxioms.ltb_spec, Hnan.
    split; [apply SFltb_nan_r | reflexivity].
Qed.

Lemma binary64_compared : Variance.ComparedScores binary64.
Proof.
  split; unfold ngt, of_int, binary64, float_of_Z.
  - intros a. rewrite FloatAxioms.ltb_spec. apply SFltb_irrefl.
  - intros a b c. rewrite !FloatAxioms.ltb_spec. intros Hab Hbc.
    apply (SFltb_trans _ (Prim2SF b)); assumption.
  - intros a b c. rewrite !FloatAxioms.ltb_spec. intros Hab Hcb.
    destruct (SFltb_total _ _ _ Hab Hcb) as [Hnan|Hac];
      [left | right; assumption].
    apply binary64_unordered. assumption.
  - intros a b Hb. rewrite !FloatAxioms.ltb_spec, Prim2SF_zero.
    apply SFltb_floor. apply score_sign. assumption.
Qed.

End DoubleLaws.

(** ** Rounding on the doubles

    The quotients, the difference and the products of the selector are
    rounded to nearest.  Rounding never crosses an integer below 2^53:
    a quotient that is at least [c] rounds to a double that is at least
    [c], and one that is at most [c] to a double that is at most [c].
    With that, the variance of a cut point whose two sides have means
    at least 1 apart is computed above zero. *)

Section Rounding.

Import Doubles.

(** *** Right shifts *)

Lemma shr_1_spec (mrs : shr_record) :
  0 <= shr_m mrs ->
  shr_m (shr_1 mrs) = shr_m mrs / 2 /\
  (lossless (shr_1 mrs) <-> shr_m mrs mod 2 = 0 /\ lossless mrs).
Proof.
  destruct mrs as [m r s]. unfold lossless. cbn [shr_m shr_r shr_s].
  intros Hm.
  destruct m as [|[p|p|]|p]; try lia; cbn [shr_1 shr_m shr_r shr_s].
  - split; [reflexivity|]. rewrite orb_false_iff.
    split; [intros [_ H]; split; [reflexivity | exact H]|].
    intros [_ H]. split; [reflexivity | exact H].
  - rewrite (Pos2Z.inj_xI p). split; [Z.to_euclidean_division_equations; lia|].
    split; [intros [H _]; discriminate|].
    intros [H _]. Z.to_euclidean_division_equations; lia.
  - rewrite (Pos2Z.inj_xO p). split; [Z.to_euclidean_division_equations; lia|].
    rewrite orb_false_iff.
    split; [intros [_ H]; split;
            [Z.to_euclidean_division_equations; lia | exact H]|].
    intros [_ H]. split; [reflexivity | exact H].
  - split; [reflexivity|].
    split; [intros [H _]; discriminate|].
    intros [H _]. discriminate.
Qed.

Lemma mod_mul_zero (m a b : Z) :
  0 <= m -> 0 < a -> 0 < b ->
  (m mod (a * b) = 0 <-> m mod a = 0 /\ (m / a) mod b = 0).
Proof.
  intros Hm Ha Hb. rewrite Z.rem_mul_r by lia.
  pose proof (Z.mod_pos_bound m a Ha).
  pose proof (Z.mod_pos_bound (m / a) b Hb).
  split; [nia | intros [-> ->]; lia].
Qed.

Lemma shr_iter (p : positive) :
  forall mrs : shr_record,
    0 <= shr_m mrs ->
    shr_m (SpecFloat.iter_pos shr_1 p mrs) = shr_m mrs / 2 ^ Zpos p /\
    (lossless (SpecFloat.iter_pos shr_1 p mrs)
     <-> shr_m mrs mod 2 ^ Zpos p = 0 /\ lossless mrs).
Proof.
  induction p as [p IH|p IH|]; intros mrs Hm; cbn [SpecFloat.iter_pos].
  - destruct (shr_1_spec mrs Hm) as [H1 E1].
    assert (Hm1 : 0 <= shr_m (shr_1 mrs))
      by (rewrite H1; apply Z.div_pos; lia).
    destruct (IH _ Hm1) as [H2 E2].
    assert (Hm2 : 0 <= shr_m (SpecFloat.iter_pos shr_1 p (shr_1 mrs)))
      by (rewrite H2; apply Z.div_pos; [lia | apply Z.pow_pos_nonneg; lia]).
    destruct (IH _ Hm2) as [H3 E3].
    assert (Hp : 0 < 2 ^ Zpos p) by (apply Z.pow_pos_nonneg; lia).
    replace (2 ^ Zpos p~1) with (2 * (2 ^ Zpos p * 2 ^ Zpos p))
      by (rewrite (Pos2Z.inj_xI p);
          replace (2 * Zpos p + 1) with (Zpos p + Zpos p + 1) by lia;
          rewrite !Z.pow_add_r by lia; change (2 ^ 1) with 2; ring).
    split.
    + rewrite H3, H2, H1, !Z.div_div by lia. reflexivity.
    + rewrite E3, E2, E1, H2, H1.
      rewrite (mod_mul_zero (shr_m mrs) 2) by nia.
      rewrite (mod_mul_zero (shr_m mrs / 2)) by (try apply Z.div_pos; lia).
      tauto.
  - destruct (IH _ Hm) as [H2 E2].
    assert (Hm2 : 0 <= shr_m (SpecFloat.iter_pos shr_1 p mrs))
      by (rewrite H2; apply Z.div_pos; [lia | apply Z.pow_pos_nonneg; lia]).
    destruct (IH _ Hm2) as [H3 E3].
    assert (Hp : 0 < 2 ^ Zpos p) by (apply Z.pow_pos_nonneg; lia).
    replace (2 ^ Zpos p~0) with (2 ^ Zpos p * 2 ^ Zpos p)
      by (rewrite (Pos2Z.inj_xO p);
          replace (2 * Zpos p) with (Zpos p + Zpos p) by lia;
          rewrite !Z.pow_add_r by lia; ring).
    split.
    + rewrite H3, H2, !Z.div_div by lia. reflexivity.
    + rewrite E3, E2, H2.
      rewrite (mod_mul_zero (shr_m mrs)) by lia.
      tauto.
  - change (2 ^ 1) with 2. apply shr_1_spec. assumption.
Qed.

Lemma shr_spec (mrs : shr_record) (e n : Z) :
  0 <= shr_m mrs ->
  snd (shr mrs e n) = e + Z.max 0 n /\
  shr_m (fst (shr mrs e n)) = shr_m mrs / 2 ^ Z.max 0 n /\
  (lossless (fst (shr mrs e n))
   <-> shr_m mrs mod 2 ^ Z.max 0 n = 0 /\ lossless mrs).
Proof.
  intros Hm. destruct n as [|p|p]; cbn [shr fst snd].
  - change (Z.max 0 0) with 0. change (2 ^ 0) with 1.
    rewrite Z.div_1_r, Z.mod_1_r. split; [lia|]. split; [reflexivity | tauto].
  - replace (Z.max 0 (Zpos p)) with (Zpos p) by lia.
    split; [reflexivity|]. apply shr_iter. assumption.
  - replace (Z.max 0 (Zneg p)) with 0 by lia. change (2 ^ 0) with 1.
    rewrite Z.div_1_r, Z.mod_1_r. split; [lia|]. split; [reflexivity | tauto].
Qed.

Lemma record_of_loc_m (m : Z) (l : location) :
  shr_m (shr_record_of_loc m l) = m.
Proof. destruct l as [|[| |]]; reflexivity. Qed.

Lemma record_of_loc_lossless (m : Z) (l : location) :
  lossless (shr_record_of_loc m l) <-> l = loc_Exact.
Proof.
  unfold lossless. destruct l as [|[| |]]; cbn; split; intros H;
    try reflexivity; try discriminate; try (destruct H; discriminate);
    split; reflexivity.
Qed.

Lemma loc_of_record_lossless (mrs : shr_record) :
  inexactness (loc_of_shr_record mrs) = 0 <-> lossless mrs.
Proof.
  unfold lossless. destruct mrs as [m [|] [|]]; cbn; split; intros H;
    try reflexivity; try discriminate; try (destruct H; discriminate);
    split; reflexivity.
Qed.

Lemma inexactness_range (l : location) : 0 <= inexactness l <= 1.
Proof. destruct l; cbn; lia. Qed.

Lemma inexactness_zero (l : location) : inexactness l = 0 <-> l = loc_Exact.
Proof.
  destruct l; cbn; split; intros H; try reflexivity; try discriminate; lia.
Qed.

Lemma round_nearest_even_range (m : Z) (l : location) :
  m <= round_nearest_even m l <= m + inexactness l.
Proof.
  destruct l as [|[| |]]; cbn [round_nearest_even inexactness]; try lia.
  destruct (Z.even m); lia.
Qed.

(** *** Digits *)

Lemma digits2_bounds (p : positive) :
  2 ^ (Zpos (digits2_pos p) - 1) <= Zpos p < 2 ^ Zpos (digits2_pos p).
Proof.
  induction p as [p IH|p IH|]; cbn [digits2_pos].
  - rewrite Pos2Z.inj_succ, (Pos2Z.inj_xI p).
    replace (Z.succ (Zpos (digits2_pos p)) - 1)
      with (Z.succ (Zpos (digits2_pos p) - 1)) by lia.
    rewrite !Z.pow_succ_r by lia. lia.
  - rewrite Pos2Z.inj_succ, (Pos2Z.inj_xO p).
    replace (Z.succ (Zpos (digits2_pos p)) - 1)
      with (Z.succ (Zpos (digits2_pos p) - 1)) by lia.
    rewrite !Z.pow_succ_r by lia. lia.
  - cbn. lia.
Qed.

Lemma fexp_value (e : Z) : fexp prec emax e = Z.max (e - 53) (-1074).
Proof. reflexivity. Qed.

(** *** Comparing [m * 2^e] with an integer *)

Lemma ge_int_neg (m e c : Z) : e <= 0 -> (ge_int m e c <-> c * 2 ^ (- e) <= m).
Proof.
  intros He. unfold ge_int.
  replace (Z.max 0 (- e)) with (- e) by lia.
  replace (Z.max 0 e) with 0 by lia. change (2 ^ 0) with 1. lia.
Qed.

Lemma ge_int_pos (m e c : Z) : 0 <= e -> (ge_int m e c <-> c <= m * 2 ^ e).
Proof.
  intros He. unfold ge_int.
  replace (Z.max 0 (- e)) with 0 by lia.
  replace (Z.max 0 e) with e by lia. change (2 ^ 0) with 1. lia.
Qed.

Lemma ge_neg_intro (m e c : Z) : e <= 0 -> c * 2 ^ (- e) <= m -> ge_int m e c.
Proof. intros He H. apply (proj2 (ge_int_neg m e c He)). exact H. Qed.

Lemma ge_neg_elim (m e c : Z) : e <= 0 -> ge_int m e c -> c * 2 ^ (- e) <= m.
Proof. intros He H. apply (proj1 (ge_int_neg m e c He)). exact H. Qed.

Lemma ge_pos_intro (m e c : Z) : 0 <= e -> c <= m * 2 ^ e -> ge_int m e c.
Proof. intros He H. apply (proj2 (ge_int_pos m e c He)). exact H. Qed.

Lemma ge_pos_elim (m e c : Z) : 0 <= e -> ge_int m e c -> c <= m * 2 ^ e.
Proof. intros He H. apply (proj1 (ge_int_pos m e c He)). exact H. Qed.

Lemma ge_int_mono (m m' e c : Z) : m <= m' -> ge_int m e c -> ge_int m' e c.
Proof.
  unfold ge_int. intros Hm H.
  assert (0 < 2 ^ Z.max 0 e) by (apply Z.pow_pos_nonneg; lia). nia.
Qed.

Lemma pow2_pos (n : Z) : 0 <= n -> 0 < 2 ^ n.
Proof. intros. apply Z.pow_pos_nonneg; lia. Qed.

Lemma shr_fexp_lower (m e c : Z) (l : location) :
  0 < m -> 0 < c < 2 ^ 53 -> ge_int m e c ->
  0 < shr_m (fst (shr_fexp prec emax m e l)) /\
  ge_int (shr_m (fst (shr_fexp prec emax m e l)))
         (snd (shr_fexp prec emax m e l)) c.
Proof.
  intros Hm Hc Hge. unfold shr_fexp.
  destruct (shr_spec (shr_record_of_loc m l) e
              (fexp prec emax (Zdigits2 m + e) - e)) as (He & Hs & _).
  { rewrite record_of_loc_m. lia. }
  rewrite He, Hs, record_of_loc_m. clear He Hs.
  destruct m as [|p|p]; try lia. cbn [Zdigits2].
  pose proof (digits2_bounds p) as Hd.
  set (d := Zpos (digits2_pos p)) in *. rewrite fexp_value.
  destruct (Z_le_gt_dec (Z.max (d + e - 53) (-1074) - e) 0) as [Hn|Hn].
  { replace (Z.max 0 (Z.max (d + e - 53) (-1074) - e)) with 0 by lia.
    change (2 ^ 0) with 1. rewrite Z.div_1_r, Z.add_0_r.
    split; [lia | assumption]. }
  replace (Z.max 0 (Z.max (d + e - 53) (-1074) - e))
    with (Z.max (d + e - 53) (-1074) - e) by lia.
  set (n := Z.max (d + e - 53) (-1074) - e) in *.
  assert (Hpn : 0 < 2 ^ n) by (apply pow2_pos; lia).
  destruct (Z_le_gt_dec (e + n) 0) as [He'|He'].
  - apply ge_neg_elim in Hge; [|lia].
    assert (Hlow : c * 2 ^ (- (e + n)) <= Zpos p / 2 ^ n).
    { apply Z.div_le_lower_bound; [assumption|].
      replace (- e) with (n + - (e + n)) in Hge by lia.
      rewrite Z.pow_add_r in Hge by lia. lia. }
    assert (0 < 2 ^ (- (e + n))) by (apply pow2_pos; lia).
    split; [nia|]. apply ge_neg_intro; [lia | assumption].
  - assert (Hn53 : n = d - 53) by lia.
    assert (Hlow : 2 ^ 52 <= Zpos p / 2 ^ n).
    { apply Z.div_le_lower_bound; [assumption|].
      rewrite <- Z.pow_add_r by lia.
      replace (n + 52) with (d - 1) by lia. lia. }
    split; [lia|]. apply ge_pos_intro; [lia|].
    assert (2 ^ 1 <= 2 ^ (e + n)) by (apply Z.pow_le_mono_r; lia).
    change (2 ^ 1) with 2 in *. nia.
Qed.

Lemma shr_fexp_upper (m e c : Z) (l : location) :
  0 <= m -> e <= 0 -> 0 <= c < 2 ^ 53 ->
  m + inexactness l <= c * 2 ^ (- e) ->
  0 <= shr_m (fst (shr_fexp prec emax m e l)) /\
  snd (shr_fexp prec emax m e l) <= 0 /\
  shr_m (fst (shr_fexp prec emax m e l))
  + inexactness (loc_of_shr_record (fst (shr_fexp prec emax m e l)))
  <= c * 2 ^ (- snd (shr_fexp prec emax m e l)).
Proof.
  intros Hm He Hc Hle. unfold shr_fexp.
  destruct (shr_spec (shr_record_of_loc m l) e
              (fexp prec emax (Zdigits2 m + e) - e)) as (He' & Hs & Hx).
  { rewrite record_of_loc_m. lia. }
  rewrite record_of_loc_m in Hs, Hx. rewrite record_of_loc_lossless in Hx.
  set (out := shr (shr_record_of_loc m l) e
                (fexp prec emax (Zdigits2 m + e) - e)) in *.
  rewrite He', Hs.
  pose proof (inexactness_range l) as Hb.
  pose proof (inexactness_range (loc_of_shr_record (fst out))) as Hb'.
  pose proof (loc_of_record_lossless (fst out)) as Hx'.
  rewrite Hx in Hx'. clear Hx He' Hs.
  rewrite fexp_value in *.
  set (d := Zdigits2 m) in *.
  destruct (Z_le_gt_dec (Z.max (d + e - 53) (-1074) - e) 0) as [Hn|Hn].
  { replace (Z.max 0 (Z.max (d + e - 53) (-1074) - e)) with 0 in * by lia.
    change (2 ^ 0) with 1 in *. rewrite Z.div_1_r, Z.add_0_r.
    rewrite Z.mod_1_r in Hx'.
    split; [lia|]. split; [lia|].
    assert (inexactness (loc_of_shr_record (fst out)) = inexactness l).
    { destruct (inexactness_zero l) as [H1 H2].
      destruct (Z.eq_dec (inexactness l) 0) as [H0|H0].
      - rewrite H0. apply Hx'. split; [reflexivity | auto].
      - assert (inexactness (loc_of_shr_record (fst out)) <> 0).
        { intros Hz. apply Hx' in Hz as [_ Hz]. apply H2 in Hz. lia. }
        lia. }
    lia. }
  replace (Z.max 0 (Z.max (d + e - 53) (-1074) - e))
    with (Z.max (d + e - 53) (-1074) - e) in * by lia.
  set (n := Z.max (d + e - 53) (-1074) - e) in *.
  assert (Hpn : 0 < 2 ^ n) by (apply pow2_pos; lia).
  assert (He' : e + n <= 0).
  { destruct (Z_le_gt_dec (e + n) 0) as [|Hgt]; [assumption|]. exfalso.
    assert (Hn53 : n = d - 53) by lia.
    destruct m as [|p|p]; [subst d; cbn in *; lia | | lia].
    pose proof (digits2_bounds p) as Hd. subst d. cbn [Zdigits2] in *.
    assert (Hlt : 2 ^ (Zpos (digits2_pos p) - 1) < 2 ^ (53 - e)).
    { rewrite Z.pow_add_r with (b := 53) (c := - e) by lia.
      assert (0 < 2 ^ (- e)) by (apply pow2_pos; lia). nia. }
    apply Z.pow_lt_mono_r_iff in Hlt; lia. }
  split; [apply Z.div_pos; lia|]. split; [assumption|].
  replace (- e) with (n + - (e + n)) in Hle by lia.
  rewrite Z.pow_add_r in Hle by lia.
  set (C := c * 2 ^ (- (e + n))) in *.
  assert (HC : m + inexactness l <= C * 2 ^ n) by (subst C; lia).
  clear Hle.
  destruct (Z.eq_dec (inexactness (loc_of_shr_record (fst out))) 0) as [H0|H0].
  - rewrite H0, Z.add_0_r. apply Hx' in H0 as [Hmod Hl].
    subst l. cbn [inexactness] in HC.
    apply Z.div_le_upper_bound; [assumption|]. lia.
  - assert (Hstrict : m < C * 2 ^ n).
    { destruct (Z.eq_dec (inexactness l) 0) as [Hl0|Hl0]; [|lia].
      destruct (Z.eq_dec (m mod 2 ^ n) 0) as [Hmod|Hmod].
      - exfalso. apply H0, Hx'. split; [assumption|].
        apply inexactness_zero. assumption.
      - destruct (Z.eq_dec m (C * 2 ^ n)) as [Heq|]; [|lia].
        exfalso. apply Hmod. rewrite Heq. apply Z.mod_mul. lia. }
    assert (m / 2 ^ n < C) by (apply Z.div_lt_upper_bound; lia).
    lia.
Qed.

(** *** Rounding to nearest keeps integer bounds *)

Lemma binary_round_aux_lower (s : bool) (m e : Z) (l : location) (c : Z) :
  0 < m -> 0 < c < 2 ^ 53 -> ge_int m e c ->
  mag_at_least c (binary_round_aux prec emax s m e l) /\
  sign_of (binary_round_aux prec emax s m e l) = s.
Proof.
  intros Hm Hc Hge. unfold binary_round_aux.
  pose proof (shr_fexp_lower m e c l Hm Hc Hge) as [H1 H2].
  destruct (shr_fexp prec emax m e l) as [mrs' e']. cbn [fst snd] in H1, H2.
  pose proof (round_nearest_even_range (shr_m mrs') (loc_of_shr_record mrs'))
    as Hr.
  set (m1 := round_nearest_even (shr_m mrs') (loc_of_shr_record mrs')) in *.
  assert (Hm1 : 0 < m1) by lia.
  assert (Hge1 : ge_int m1 e' c)
    by (apply (ge_int_mono (shr_m mrs')); [lia | assumption]).
  pose proof (shr_fexp_lower m1 e' c loc_Exact Hm1 Hc Hge1) as [H3 H4].
  destruct (shr_fexp prec emax m1 e' loc_Exact) as [mrs'' e''].
  cbn [fst snd] in H3, H4.
  destruct (shr_m mrs'') as [|p|p]; try lia.
  destruct (e'' <=? emax - prec); cbn; auto.
Qed.

Lemma binary_round_aux_upper (s : bool) (m e : Z) (l : location) (c : Z) :
  0 <= m -> e <= 0 -> 0 <= c < 2 ^ 53 ->
  m + inexactness l <= c * 2 ^ (- e) ->
  mag_at_most c (binary_round_aux prec emax s m e l).
Proof.
  intros Hm He Hc Hle. unfold binary_round_aux.
  pose proof (shr_fexp_upper m e c l Hm He Hc Hle) as (H1 & H2 & H3).
  destruct (shr_fexp prec emax m e l) as [mrs' e'].
  cbn [fst snd] in H1, H2, H3.
  pose proof (round_nearest_even_range (shr_m mrs') (loc_of_shr_record mrs'))
    as Hr.
  set (m1 := round_nearest_even (shr_m mrs') (loc_of_shr_record mrs')) in *.
  assert (Hm1 : 0 <= m1) by lia.
  assert (Hle1 : m1 + inexactness loc_Exact <= c * 2 ^ (- e'))
    by (cbn [inexactness]; lia).
  pose proof (shr_fexp_upper m1 e' c loc_Exact Hm1 H2 Hc Hle1)
    as (H4 & H5 & H6).
  destruct (shr_fexp prec emax m1 e' loc_Exact) as [mrs'' e''].
  cbn [fst snd] in H4, H5, H6.
  pose proof (inexactness_range (loc_of_shr_record mrs'')).
  destruct (shr_m mrs'') as [|p|p]; [exact I | | lia].
  replace (e'' <=? emax - prec) with true
    by (symmetry; apply Z.leb_le; change (emax - prec) with 971; lia).
  cbn [mag_at_most]. split; [assumption | lia].
Qed.

Lemma round_int (m e z : Z) :
  0 < z < 2 ^ 53 -> e <= 0 -> m = z * 2 ^ (- e) ->
  is_int z (binary_round_aux prec emax false m e loc_Exact).
Proof.
  intros Hz He Hm.
  assert (Hp : 0 < 2 ^ (- e)) by (apply pow2_pos; lia).
  assert (H0 : 0 < m) by nia.
  assert (Hge : ge_int m e z) by (apply ge_neg_intro; lia).
  destruct (binary_round_aux_lower false m e loc_Exact z H0 Hz Hge) as [Hlo Hs].
  pose proof (binary_round_aux_upper false m e loc_Exact z
                ltac:(lia) He ltac:(lia)) as Hhi.
  cbn [inexactness] in Hhi. specialize (Hhi ltac:(lia)).
  destruct (binary_round_aux prec emax false m e loc_Exact)
    as [s'|s'| |s' m' e']; cbn in *; try contradiction.
  subst s'. destruct Hhi as [He' Hhi]. split; [assumption|].
  apply ge_neg_elim in Hlo; [lia | assumption].
Qed.

Lemma is_int_pos (z : Z) (x : spec_float) : 0 < z -> is_int z x ->
  mag_at_least z x /\ mag_at_most z x /\ sign_of x = false.
Proof.
  intros Hz. destruct x as [s|s| |[|] m e]; cbn; try contradiction.
  intros [He Hm]. split; [apply ge_neg_intro; lia|]. split; [lia | reflexivity].
Qed.

Lemma is_int_apart (z : Z) (x : spec_float) :
  0 < z -> is_int z x -> mag_at_least 1 x.
Proof.
  intros Hz. destruct x as [s|s| |[|] m e]; cbn; try contradiction.
  intros [He Hm]. apply ge_neg_intro; [assumption|].
  assert (0 < 2 ^ (- e)) by (apply pow2_pos; lia). nia.
Qed.

Lemma SFmul_int (a b : Z) (x y : spec_float) :
  0 < a -> 0 < b -> a * b < 2 ^ 53 ->
  is_int a x -> is_int b y -> is_int (a * b) (SF64mul x y).
Proof.
  intros Ha Hb Hab.
  destruct x as [sx|sx| |[|] mx ex]; cbn [is_int]; try contradiction.
  destruct y as [sy|sy| |[|] my ey]; cbn [is_int]; try contradiction.
  intros [Hex Hmx] [Hey Hmy]. cbn [SF64mul SFmul xorb].
  apply round_int; [nia | lia |].
  rewrite Pos2Z.inj_mul, Hmx, Hmy.
  replace (- (ex + ey)) with (- ex + - ey) by lia.
  rewrite Z.pow_add_r by lia. ring.
Qed.

(** *** Alignment *)

Lemma iter_xO (m d : positive) : Zpos (Pos.iter xO m d) = Zpos m * 2 ^ Zpos d.
Proof.
  induction d as [|d IH] using Pos.peano_ind.
  - cbn [Pos.iter]. rewrite (Pos2Z.inj_xO m). change (2 ^ 1) with 2. lia.
  - rewrite Pos.iter_succ, (Pos2Z.inj_xO (Pos.iter xO m d)), IH.
    rewrite Pos2Z.inj_succ, Z.pow_succ_r by lia. ring.
Qed.

Lemma shl_align_spec (m : positive) (e e' : Z) :
  snd (shl_align m e e') = Z.min e e' /\
  Zpos (fst (shl_align m e e')) = Zpos m * 2 ^ (e - Z.min e e').
Proof.
  unfold shl_align. destruct (e' - e) as [|d|d] eqn:Hd; cbn [fst snd].
  - replace (Z.min e e') with e by lia. rewrite Z.sub_diag.
    change (2 ^ 0) with 1. lia.
  - replace (Z.min e e') with e by lia. rewrite Z.sub_diag.
    change (2 ^ 0) with 1. lia.
  - replace (Z.min e e') with e' by lia. rewrite iter_xO.
    replace (e - e') with (Zpos d) by lia. lia.
Qed.

Lemma ge_int_shift (m e e' c : Z) :
  0 < m -> 0 < c -> e' <= e -> ge_int m e c -> ge_int (m * 2 ^ (e - e')) e' c.
Proof.
  intros Hm Hc He Hge.
  assert (Hp : 0 < 2 ^ (e - e')) by (apply pow2_pos; lia).
  destruct (Z_le_gt_dec e 0) as [He0|He0].
  - apply ge_neg_elim in Hge; [|assumption]. apply ge_neg_intro; [lia|].
    replace (- e') with (- e + (e - e')) by lia.
    rewrite Z.pow_add_r by lia. nia.
  - apply ge_pos_elim in Hge; [|lia].
    destruct (Z_le_gt_dec e' 0) as [He'|He'].
    + apply ge_neg_intro; [assumption|].
      replace (e - e') with (e + - e') by lia.
      rewrite Z.pow_add_r by lia.
      assert (0 < 2 ^ (- e')) by (apply pow2_pos; lia).
      apply Z.mul_le_mono_nonneg_r with (p := 2 ^ (- e')) in Hge; [|lia]. lia.
    + apply ge_pos_intro; [lia|].
      rewrite <- Z.mul_assoc, <- Z.pow_add_r by lia.
      replace (e - e' + e') with e by lia. assumption.
Qed.

Lemma binary_round_lower (s : bool) (m : positive) (e c : Z) :
  0 < c < 2 ^ 53 -> ge_int (Zpos m) e c ->
  mag_at_least c (binary_round prec emax s m e) /\
  sign_of (binary_round prec emax s m e) = s.
Proof.
  intros Hc Hge. unfold binary_round.
  destruct (shl_align_spec m e (fexp prec emax (Zpos (digits2_pos m) + e)))
    as [He Hm].
  destruct (shl_align m e (fexp prec emax (Zpos (digits2_pos m) + e)))
    as [mz ez]. cbn [fst snd] in He, Hm.
  apply binary_round_aux_lower; [lia | assumption |].
  rewrite Hm, <- He. apply ge_int_shift; [lia | lia | lia | assumption].
Qed.

Lemma binary_round_int (m : positive) (e z : Z) :
  0 < z < 2 ^ 53 -> e <= 0 -> Zpos m = z * 2 ^ (- e) ->
  is_int z (binary_round prec emax false m e).
Proof.
  intros Hz He Hm. unfold binary_round.
  destruct (shl_align_spec m e (fexp prec emax (Zpos (digits2_pos m) + e)))
    as [He' Hm'].
  destruct (shl_align m e (fexp prec emax (Zpos (digits2_pos m) + e)))
    as [mz ez]. cbn [fst snd] in He', Hm'.
  apply round_int; [assumption | lia |].
  rewrite Hm', Hm, <- He'.
  replace (- ez) with (- e + (e - ez)) by lia.
  rewrite Z.pow_add_r by lia. ring.
Qed.

Lemma SFadd_int (a b : Z) (x y : spec_float) :
  0 < a -> 0 < b -> a + b < 2 ^ 53 ->
  is_int a x -> is_int b y -> is_int (a + b) (SF64add x y).
Proof.
  intros Ha Hb Hab.
  destruct x as [sx|sx| |[|] mx ex]; cbn [is_int]; try contradiction.
  destruct y as [sy|sy| |[|] my ey]; cbn [is_int]; try contradiction.
  intros [Hex Hmx] [Hey Hmy]. cbn [SF64add SFadd cond_Zopp].
  destruct (shl_align_spec mx ex (Z.min ex ey)) as [_ H1].
  destruct (shl_align_spec my ey (Z.min ex ey)) as [_ H2].
  replace (Z.min ex (Z.min ex ey)) with (Z.min ex ey) in H1 by lia.
  replace (Z.min ey (Z.min ex ey)) with (Z.min ex ey) in H2 by lia.
  set (ez := Z.min ex ey) in *.
  assert (Hsum : Zpos (fst (shl_align mx ex ez))
                 + Zpos (fst (shl_align my ey ez))
                 = (a + b) * 2 ^ (- ez)).
  { rewrite H1, H2, Hmx, Hmy, <- !Z.mul_assoc, <- !Z.pow_add_r by lia.
    replace (- ex + (ex - ez)) with (- ez) by lia.
    replace (- ey + (ey - ez)) with (- ez) by lia. ring. }
  destruct (Zpos (fst (shl_align mx ex ez)) + Zpos (fst (shl_align my ey ez)))
    as [|p|p] eqn:Hp; try lia.
  cbn [binary_normalize]. apply binary_round_int; [lia | lia | assumption].
Qed.

(** *** The doubles of the integers *)

Lemma Prim2SF_one :
  Prim2SF PrimFloat.one = S754_finite false 4503599627370496 (-52).
Proof. vm_compute. reflexivity. Qed.

Lemma Prim2SF_two :
  Prim2SF PrimFloat.two = S754_finite false 4503599627370496 (-51).
Proof. vm_compute. reflexivity. Qed.

Lemma float_of_pos_int (p : positive) :
  Zpos p < 2 ^ 53 -> is_int (Zpos p) (Prim2SF (float_of_pos p)).
Proof.
  induction p as [q IH|q IH|]; intros Hp; cbn [float_of_pos].
  - rewrite FloatAxioms.add_spec, FloatAxioms.mul_spec.
    rewrite (Pos2Z.inj_xI q) in *.
    apply SFadd_int; [lia | lia | lia | |].
    + apply SFmul_int; [lia | lia | lia | | apply IH; lia].
      rewrite Prim2SF_two. cbn [is_int]. split; [lia | reflexivity].
    + rewrite Prim2SF_one. cbn [is_int]. split; [lia | reflexivity].
  - rewrite FloatAxioms.mul_spec. rewrite (Pos2Z.inj_xO q) in *.
    apply SFmul_int; [lia | lia | lia | | apply IH; lia].
    rewrite Prim2SF_two. cbn [is_int]. split; [lia | reflexivity].
  - rewrite Prim2SF_one. cbn [is_int]. split; [lia | reflexivity].
Qed.

(** *** Division *)

Lemma new_location_exact (n k : Z) :
  k = 0 -> new_location n k = loc_Exact.
Proof.
  intros ->. unfold new_location, new_location_even, new_location_odd.
  destruct (Z.even n); reflexivity.
Qed.

Lemma binary_round_aux_signed (s : bool) (m e : Z) (l : location) :
  sign_of (binary_round_aux prec emax s m e l) = s \/
  binary_round_aux prec emax s m e l = S754_nan.
Proof.
  unfold binary_round_aux.
  destruct (shr_fexp prec emax m e l) as [mrs' e'].
  destruct (shr_fexp prec emax _ e' loc_Exact) as [mrs'' e''].
  destruct (shr_m mrs''); cbn; auto.
  destruct (e'' <=? emax - prec); cbn; auto.
Qed.

Lemma int_digits (z : Z) (m : positive) (e : Z) :
  0 < z < 2 ^ 53 -> e <= 0 -> Zpos m = z * 2 ^ (- e) ->
  1 <= Zpos (digits2_pos m) + e <= 53.
Proof.
  intros Hz He Hm. pose proof (digits2_bounds m) as Hd.
  assert (Hp : 0 < 2 ^ (- e)) by (apply pow2_pos; lia).
  split.
  - assert (Hlt : 2 ^ (- e) < 2 ^ Zpos (digits2_pos m)) by nia.
    apply Z.pow_lt_mono_r_iff in Hlt; lia.
  - assert (Hlt : 2 ^ (Zpos (digits2_pos m) - 1) < 2 ^ (53 - e)).
    { rewrite Z.pow_add_r with (b := 53) (c := - e) by lia. nia. }
    apply Z.pow_lt_mono_r_iff in Hlt; lia.
Qed.

Lemma SFdiv_int (X Y : Z) (x y : spec_float) :
  0 < X < 2 ^ 53 -> 0 < Y < 2 ^ 53 -> is_int X x -> is_int Y y ->
  (forall c, 0 < c < 2 ^ 53 -> c * Y <= X -> mag_at_least c (SF64div x y)) /\
  (forall c, 0 <= c < 2 ^ 53 -> X <= c * Y -> mag_at_most c (SF64div x y)).
Proof.
  intros HX HY.
  destruct x as [sx|sx| |[|] mx ex]; cbn [is_int]; try contradiction.
  destruct y as [sy|sy| |[|] my ey]; cbn [is_int]; try contradiction.
  intros [Hex Hmx] [Hey Hmy].
  pose proof (int_digits X mx ex HX Hex Hmx) as Hdx.
  pose proof (int_digits Y my ey HY Hey Hmy) as Hdy.
  cbn [SF64div SFdiv xorb]. unfold SFdiv_core_binary. cbn [Zdigits2].
  rewrite fexp_value.
  set (e' := Z.min (Z.max (Zpos (digits2_pos mx) + ex
                           - (Zpos (digits2_pos my) + ey) - 53) (-1074))
                   (ex - ey)).
  assert (He' : e' <= -1) by (subst e'; lia).
  assert (Hs : 0 <= ex - ey - e') by (subst e'; lia).
  set (m' := match ex - ey - e' with
             | 0 => Zpos mx
             | Zpos _ => Z.shiftl (Zpos mx) (ex - ey - e')
             | Zneg _ => 0
             end).
  assert (Hm' : m' = Zpos mx * 2 ^ (ex - ey - e')).
  { subst m'. destruct (ex - ey - e') as [|s|s] eqn:Hse; try lia.
    rewrite Z.shiftl_mul_pow2 by lia. reflexivity. }
  clearbody m'.
  assert (Hval : m' = X * 2 ^ (- ey) * 2 ^ (- e')).
  { rewrite Hm', Hmx, <- !Z.mul_assoc, <- !Z.pow_add_r by lia.
    f_equal. f_equal. lia. }
  assert (Hpe : 0 < 2 ^ (- e')) by (apply pow2_pos; lia).
  assert (Hpy : 0 < 2 ^ (- ey)) by (apply pow2_pos; lia).
  pose proof (Z.div_mod m' (Zpos my) ltac:(lia)) as Hdm.
  pose proof (Z.mod_pos_bound m' (Zpos my) ltac:(lia)) as Hmod.
  unfold Z.div, Z.modulo in Hdm, Hmod.
  destruct (Z.div_eucl m' (Zpos my)) as [q r].
  split.
  - intros c Hc Hle.
    assert (Hq : c * 2 ^ (- e') <= q).
    { assert (Zpos my * (c * 2 ^ (- e')) <= m').
      { rewrite Hval, Hmy.
        apply Z.mul_le_mono_nonneg_r with (p := 2 ^ (- ey) * 2 ^ (- e')) in Hle;
          [lia | nia]. }
      nia. }
    apply binary_round_aux_lower; [nia | assumption |].
    apply ge_neg_intro; [lia | assumption].
  - intros c Hc Hle.
    apply binary_round_aux_upper; [nia | lia | assumption |].
    assert (Hup : m' <= Zpos my * (c * 2 ^ (- e'))).
    { rewrite Hval, Hmy.
      apply Z.mul_le_mono_nonneg_r with (p := 2 ^ (- ey) * 2 ^ (- e')) in Hle;
        [lia | nia]. }
    destruct (Z.eq_dec r 0) as [Hr|Hr].
    + rewrite (new_location_exact _ _ Hr). cbn [inexactness]. nia.
    + pose proof (inexactness_range (new_location (Zpos my) r)). nia.
Qed.

(** *** Subtraction and products of numbers at least 1 apart *)

Lemma ge_int_weaken (m e c c' : Z) :
  0 <= m -> c' <= c -> ge_int m e c -> ge_int m e c'.
Proof.
  unfold ge_int. intros Hm Hc H.
  assert (0 < 2 ^ Z.max 0 (- e)) by (apply pow2_pos; lia). nia.
Qed.

Lemma SFsub_apart (t : Z) (x y : spec_float) :
  0 <= t -> t + 1 < 2 ^ 53 ->
  mag_at_most t x -> sign_of x = false ->
  mag_at_least (t + 1) y -> sign_of y = false ->
  mag_at_least 1 (SF64sub x y).
Proof.
  intros Ht Ht'.
  destruct x as [sx|sx| |sx mx ex]; cbn [mag_at_most sign_of];
    try contradiction;
  destruct y as [sy|sy| |sy my ey]; cbn [mag_at_least sign_of];
    try contradiction; intros Hx -> Hy ->; cbn [SF64sub SFsub negb];
    try exact I.
  - cbn [mag_at_least].
    apply (ge_int_weaken _ _ (t + 1)); [lia | lia | assumption].
  - destruct Hx as [Hex Hmx]. cbn [cond_Zopp].
    destruct (shl_align_spec mx ex (Z.min ex ey)) as [_ H1].
    destruct (shl_align_spec my ey (Z.min ex ey)) as [_ H2].
    replace (Z.min ex (Z.min ex ey)) with (Z.min ex ey) in H1 by lia.
    replace (Z.min ey (Z.min ex ey)) with (Z.min ex ey) in H2 by lia.
    set (ez := Z.min ex ey) in *.
    assert (Hez : ez <= 0) by (subst ez; lia).
    assert (Hpz : 0 < 2 ^ (- ez)) by (apply pow2_pos; lia).
    assert (HM1 : Zpos (fst (shl_align mx ex ez)) <= t * 2 ^ (- ez)).
    { rewrite H1. replace (- ez) with (- ex + (ex - ez)) by lia.
      rewrite Z.pow_add_r by lia.
      assert (0 < 2 ^ (ex - ez)) by (apply pow2_pos; lia). nia. }
    assert (HM2 : (t + 1) * 2 ^ (- ez) <= Zpos (fst (shl_align my ey ez))).
    { rewrite H2. destruct (Z_le_gt_dec ey 0) as [Hey|Hey].
      - apply ge_neg_elim in Hy; [|assumption].
        replace (- ez) with (- ey + (ey - ez)) by lia.
        rewrite Z.pow_add_r by lia.
        assert (0 < 2 ^ (ey - ez)) by (apply pow2_pos; lia). nia.
      - apply ge_pos_elim in Hy; [|lia].
        replace (ey - ez) with (ey + - ez) by lia.
        rewrite Z.pow_add_r by lia. nia. }
    destruct (Zpos (fst (shl_align mx ex ez)) - Zpos (fst (shl_align my ey ez)))
      as [|p|p] eqn:Hp; try lia.
    cbn [binary_normalize].
    apply binary_round_lower; [lia|].
    apply ge_neg_intro; [assumption|]. lia.
Qed.

Lemma ge_int_mul_one (m1 e1 m2 e2 : Z) :
  0 < m1 -> 0 < m2 -> ge_int m1 e1 1 -> ge_int m2 e2 1 ->
  ge_int (m1 * m2) (e1 + e2) 1.
Proof.
  intros Hm1 Hm2 H1 H2.
  destruct (Z_le_gt_dec e1 0) as [He1|He1];
    destruct (Z_le_gt_dec e2 0) as [He2|He2].
  - apply ge_neg_elim in H1, H2; try assumption.
    apply ge_neg_intro; [lia|].
    replace (- (e1 + e2)) with (- e1 + - e2) by lia.
    rewrite Z.pow_add_r by lia.
    assert (0 < 2 ^ (- e1)) by (apply pow2_pos; lia).
    assert (0 < 2 ^ (- e2)) by (apply pow2_pos; lia). nia.
  - apply ge_neg_elim in H1; [|assumption].
    destruct (Z_le_gt_dec (e1 + e2) 0) as [He|He].
    + apply ge_neg_intro; [assumption|].
      assert (2 ^ (- (e1 + e2)) <= 2 ^ (- e1)) by (apply Z.pow_le_mono_r; lia).
      nia.
    + apply ge_pos_intro; [lia|].
      assert (0 < 2 ^ (e1 + e2)) by (apply pow2_pos; lia). nia.
  - apply ge_neg_elim in H2; [|assumption].
    destruct (Z_le_gt_dec (e1 + e2) 0) as [He|He].
    + apply ge_neg_intro; [assumption|].
      assert (2 ^ (- (e1 + e2)) <= 2 ^ (- e2)) by (apply Z.pow_le_mono_r; lia).
      nia.
    + apply ge_pos_intro; [lia|].
      assert (0 < 2 ^ (e1 + e2)) by (apply pow2_pos; lia). nia.
  - apply ge_pos_intro; [lia|].
    assert (0 < 2 ^ (e1 + e2)) by (apply pow2_pos; lia). nia.
Qed.

Lemma SFmul_apart (x y : spec_float) :
  mag_at_least 1 x -> mag_at_least 1 y -> mag_at_least 1 (SF64mul x y).
Proof.
  destruct x as [sx|sx| |sx mx ex]; cbn [mag_at_least]; try contradiction;
  destruct y as [sy|sy| |sy my ey]; cbn [mag_at_least]; try contradiction;
    intros Hx Hy; cbn [SF64mul SFmul]; try exact I.
  apply binary_round_aux_lower; [lia | lia |].
  rewrite Pos2Z.inj_mul. apply ge_int_mul_one; try lia; assumption.
Qed.

Lemma SFltb_apart (v : spec_float) :
  Doubles.not_negative v -> mag_at_least 1 v ->
  SFltb (S754_zero false) v = true.
Proof.
  destruct v as [s|s| |s m e]; cbn; try contradiction;
    intros -> _; reflexivity.
Qed.

Lemma float_of_Z_int (z : Z) :
  0 < z < 2 ^ 53 -> is_int z (Prim2SF (float_of_Z z)).
Proof.
  intros Hz. destruct z as [|p|p]; try lia. apply float_of_pos_int. lia.
Qed.

(** The variance of a cut point whose two sides have means at least 1 apart
    is above zero. *)
Lemma variance_above_zero (t wB wF sumB sumF : Z) :
  0 < wB < 2 ^ 53 -> 0 < wF < 2 ^ 53 -> 0 <= t -> t + 1 < 2 ^ 53 ->
  0 <= sumB <= t * wB -> sumB < 2 ^ 53 ->
  (t + 1) * wF <= sumF -> sumF < 2 ^ 53 ->
  ngt (Numbers := binary64)
    (Variance.variance (N := binary64) wB wF sumB sumF) PrimFloat.zero = true.
Proof.
  intros HB HF Ht Ht' HsB HsB' HsF HsF'.
  pose proof (variance_sign wB wF sumB sumF ltac:(lia) ltac:(lia)) as Hsign.
  unfold ngt, binary64. rewrite FloatAxioms.ltb_spec, Prim2SF_zero.
  apply SFltb_apart; [exact Hsign|].
  unfold Variance.variance. cbn [of_int ndiv nsub nmul nsq binary64].
  rewrite !FloatAxioms.mul_spec, FloatAxioms.sub_spec, !FloatAxioms.div_spec.
  pose proof (float_of_Z_int wB HB) as HwB.
  pose proof (float_of_Z_int wF HF) as HwF.
  assert (HsF0 : 0 < sumF < 2 ^ 53) by nia.
  pose proof (float_of_Z_int sumF HsF0) as HsumF.
  destruct (SFdiv_int sumF wF _ _ HsF0 HF HsumF HwF) as [HmF _].
  specialize (HmF (t + 1) ltac:(lia) HsF).
  assert (HsignF : sign_of (SF64div (Prim2SF (float_of_Z sumF))
                                    (Prim2SF (float_of_Z wF))) = false).
  { destruct (Prim2SF (float_of_Z sumF)) as [s|s| |[|] m1 e1];
      cbn [is_int] in HsumF; try contradiction.
    destruct (Prim2SF (float_of_Z wF)) as [s|s| |[|] m2 e2];
      cbn [is_int] in HwF; try contradiction.
    cbn [SF64div SFdiv xorb].
    destruct (SFdiv_core_binary prec emax (Zpos m1) e1 (Zpos m2) e2)
      as [[mz ez] lz].
    destruct (binary_round_aux_signed false mz ez lz) as [H|H];
      [exact H | rewrite H; reflexivity]. }
  assert (HmB : mag_at_most t (SF64div (Prim2SF (float_of_Z sumB))
                                       (Prim2SF (float_of_Z wB))) /\
                sign_of (SF64div (Prim2SF (float_of_Z sumB))
                                 (Prim2SF (float_of_Z wB))) = false).
  { destruct (Z.eq_dec sumB 0) as [->|Hne].
    - cbn [float_of_Z]. rewrite Prim2SF_zero.
      destruct (Prim2SF (float_of_Z wB)) as [s|s| |[|] m2 e2];
        cbn [is_int] in HwB; try contradiction.
      cbn. split; [exact I | reflexivity].
    - assert (HsB0 : 0 < sumB < 2 ^ 53) by lia.
      pose proof (float_of_Z_int sumB HsB0) as HsumB.
      destruct (SFdiv_int sumB wB _ _ HsB0 HB HsumB HwB) as [_ Hup].
      split; [apply Hup; lia|].
      destruct (Prim2SF (float_of_Z sumB)) as [s|s| |[|] m1 e1];
        cbn [is_int] in HsumB; try contradiction.
      destruct (Prim2SF (float_of_Z wB)) as [s|s| |[|] m2 e2];
        cbn [is_int] in HwB; try contradiction.
      cbn [SF64div SFdiv xorb].
      destruct (SFdiv_core_binary prec emax (Zpos m1) e1 (Zpos m2) e2)
        as [[mz ez] lz].
      destruct (binary_round_aux_signed false mz ez lz) as [H|H];
        [exact H | rewrite H; reflexivity]. }
  destruct HmB as [HmB HsignB].
  pose proof (SFsub_apart t _ _ Ht Ht' HmB HsignB HmF HsignF) as Hd.
  apply SFmul_apart; [|apply SFmul_apart; assumption].
  apply SFmul_apart.
  - apply (is_int_apart wB); [lia | assumption].
  - apply (is_int_apart wF); [lia | assumption].
Qed.

End Rounding.

(** ** What [otsuLike] returns *)

Section Selector.

Import Otsu Variance ScanInv.

Context {num : Type} {N : Numbers num}.

Variable data : list Z.
Hypothesis Hgray : gray data.

Lemma otsuLike_range : 0 <= otsuLike data <= 255.
Proof.
  destruct (otsuLike_picked data Hgray) as [->|[H _]]; lia.
Qed.

Lemma otsuLike_uniform (v : Z) :
  (forall u, In u data -> u = v) -> otsuLike data = 0.
Proof.
  intros Hall.
  destruct (otsuLike_picked data Hgray) as [H|(_ & HB & HF)]; [assumption|].
  apply weight_below_pos in HB as (a & Ha & Hle).
  apply weight_above_pos in HF as (b & Hb & Hlt).
  rewrite (Hall a Ha) in Hle. rewrite (Hall b Hb) in Hlt. lia.
Qed.

(** With two intensities present, the cut point is below the largest
    one; it is the initial 0 or at least the smallest one. *)
Lemma otsuLike_spread :
  darkest data < brightest data ->
  otsuLike data < brightest data /\
  (otsuLike data = 0 \/ darkest data <= otsuLike data).
Proof.
  intros Hspread.
  assert (Hne : data <> []).
  { intros ->. unfold darkest, brightest in Hspread. simpl in Hspread. lia. }
  pose proof (darkest_in data Hgray Hne) as Hlo.
  assert (Hs : sample (darkest data)).
  { unfold gray in Hgray. rewrite List.Forall_forall in Hgray. auto. }
  destruct Hs as [Hs _].
  destruct (otsuLike_picked data Hgray) as [H0|(_ & HB & HF)].
  - rewrite H0. split; [lia | left; reflexivity].
  - apply weight_below_pos in HB as (a & Ha & Hle).
    apply weight_above_pos in HF as (b & Hb & Hlt).
    pose proof (darkest_le data a Ha). pose proof (brightest_ge data b Hb).
    split; [lia | right; lia].
Qed.

Context {O : ComparedScores N}.

Lemma otsuLike_cases :
  (otsuLike data = 0 /\
   forall t, 0 <= t <= 255 -> ngt (betweenVar data t) (of_int 0) = false) \/
  ngt (betweenVar data (otsuLike data)) (of_int 0) = true.
Proof.
  destruct (otsuLike_best data Hgray) as (st & -> & Hall & Hdisj & _).
  destruct Hdisj as [[Hz Ht]|(Hr & Heq & Hpos)].
  - left. split; [assumption|]. intros t Ht'.
    rewrite <- Hz. apply Hall. lia.
  - right. rewrite <- Heq. assumption.
Qed.

Lemma otsuLike_argmax : maximizer data (otsuLike data).
Proof.
  intros t Ht.
  destruct (otsuLike_best data Hgray) as (st & -> & Hall & Hdisj & _).
  destruct Hdisj as [[Hz ->]|(Hr & Heq & Hpos)].
  - rewrite Hz in Hall.
    apply score_floor;
      [apply betweenVar_score; assumption | apply Hall; lia | apply Hall; lia].
  - rewrite <- Heq. apply Hall. lia.
Qed.

(** The variance of a cut point below the returned one is below the
    returned variance, or unordered. *)
Lemma otsuLike_first (t : Z) :
  0 <= t < otsuLike data ->
  unordered (betweenVar data t) \/
  ngt (betweenVar data (otsuLike data)) (betweenVar data t) = true.
Proof.
  destruct (otsuLike_best data Hgray) as (st & -> & Hall & Hdisj & Hfst).
  intros Ht. specialize (Hfst t Ht).
  destruct Hdisj as [[Hz Hthr]|(Hr & Heq & Hpos)]; [lia|].
  rewrite <- Heq. assumption.
Qed.

Lemma otsuLike_least (t : Z) :
  0 <= t <= 255 -> maximizer data t -> ~ unordered (betweenVar data t) ->
  otsuLike data <= t.
Proof.
  intros Ht Hmax Hord.
  destruct (Z_le_gt_dec (otsuLike data) t) as [|Hgt]; [assumption|].
  destruct (otsuLike_first t ltac:(lia)) as [Hun|Hlt]; [contradiction|].
  rewrite (Hmax (otsuLike data) otsuLike_range) in Hlt. discriminate.
Qed.

Lemma positive_splits (t : Z) :
  ngt (betweenVar data t) (of_int 0) = true ->
  0 < weight_below t data /\
  0 < Z.of_nat (length data) - weight_below t data.
Proof.
  intros Hpos. pose proof (weight_below_range t data) as Hr.
  destruct (Z.eq_dec (weight_below t data) 0) as [Hz|Hnz].
  { rewrite (betweenVar_empty_below data t Hz) in Hpos.
    rewrite gt_irrefl in Hpos. discriminate. }
  destruct (Z.eq_dec (Z.of_nat (length data) - weight_below t data) 0)
    as [Hf|Hnf].
  { rewrite (betweenVar_empty_above data t Hf) in Hpos.
    rewrite gt_irrefl in Hpos. discriminate. }
  lia.
Qed.

End Selector.

(** ** On doubles, a cut point with samples on both sides has a
    variance above zero *)

Lemma intensity_bound (data : list Z) :
  gray data ->
  0 <= Variance.intensity data <= 255 * Z.of_nat (length data).
Proof.
  induction 1 as [|v l [Hlo Hhi] _ IH]; cbn [Variance.intensity length];
    [lia|].
  rewrite Nat2Z.inj_succ. lia.
Qed.

Section Separation.

Import Otsu Variance.

Variable data : list Z.
Hypothesis Hgray : gray data.
Hypothesis Hsize : 255 * Z.of_nat (length data) < 2 ^ 53.

Lemma betweenVar_splits (t : Z) :
  0 <= t <= 255 ->
  0 < weight_below t data ->
  0 < Z.of_nat (length data) - weight_below t data ->
  ngt (Numbers := binary64)
    (betweenVar (N := binary64) data t) PrimFloat.zero = true.
Proof.
  intros Ht HB HF. rewrite betweenVar_both by lia.
  pose proof (weight_below_range t data) as Hr.
  pose proof (mass_below_nonneg t data Hgray) as HsB.
  pose proof (mass_below_bound t data) as HsB'.
  pose proof (mass_above_bound t data) as HsF.
  pose proof (intensity_bound data Hgray) as Hi.
  apply (variance_above_zero t); try lia; nia.
Qed.

(** The cut points of variance above zero are those from the smallest
    intensity present to just below the largest one. *)
Lemma betweenVar_positive (t : Z) :
  0 <= t <= 255 ->
  (ngt (Numbers := binary64)
     (betweenVar (N := binary64) data t) PrimFloat.zero = true
   <-> darkest data <= t < brightest data).
Proof.
  intros Ht. split.
  - intros Hpos.
    apply (@positive_splits _ binary64 data binary64_compared) in Hpos
      as [HB HF].
    apply weight_below_pos in HB as (a & Ha & Hle).
    apply weight_above_pos in HF as (b & Hb & Hlt).
    pose proof (darkest_le data a Ha). pose proof (brightest_ge data b Hb).
    lia.
  - intros [Hlo Hhi].
    assert (Hne : data <> []).
    { intros ->. unfold darkest, brightest in *. simpl in *. lia. }
    apply betweenVar_splits; [assumption | |].
    + apply weight_below_pos. exists (darkest data).
      split; [apply darkest_in; assumption | assumption].
    + apply weight_above_pos. exists (brightest data).
      split; [apply brightest_in; assumption | assumption].
Qed.

(** No variance is NaN. *)
Lemma betweenVar_number (t : Z) :
  0 <= t <= 255 -> Prim2SF (betweenVar (N := binary64) data t) <> S754_nan.
Proof.
  intros Ht. pose proof (weight_below_range t data) as Hr.
  destruct (Z.eq_dec (weight_below t data) 0) as [HB|HB].
  { rewrite betweenVar_empty_below by assumption.
    change (of_int (Numbers := binary64) 0) with PrimFloat.zero.
    rewrite Prim2SF_zero. discriminate. }
  destruct (Z.eq_dec (Z.of_nat (length data) - weight_below t data) 0)
    as [HF|HF].
  { rewrite betweenVar_empty_above by assumption.
    change (of_int (Numbers := binary64) 0) with PrimFloat.zero.
    rewrite Prim2SF_zero. discriminate. }
  pose proof (betweenVar_splits t Ht ltac:(lia) ltac:(lia)) as Hpos.
  change (PrimFloat.ltb PrimFloat.zero (betweenVar (N := binary64) data t)
          = true) in Hpos.
  rewrite FloatAxioms.ltb_spec in Hpos.
  intros Hnan. rewrite Hnan, SFltb_nan_r in Hpos. discriminate.
Qed.

Lemma otsuLike_between :
  darkest data < brightest data ->
  darkest data <= otsuLike (N := binary64) data < brightest data /\
  (exists v, In v data /\ v <= otsuLike (N := binary64) data) /\
  (exists v, In v data /\ otsuLike (N := binary64) data < v).
Proof.
  intros Hspread.
  assert (Hne : data <> []).
  { intros ->. unfold darkest, brightest in Hspread. simpl in Hspread. lia. }
  pose proof (darkest_in data Hgray Hne) as Hlo.
  assert (Hs : sample (darkest data)).
  { unfold gray in Hgray. rewrite List.Forall_forall in Hgray. auto. }
  destruct (@otsuLike_cases _ binary64 data Hgray binary64_compared)
    as [[_ Hflat]|Hbest].
  - exfalso.
    pose proof (proj2 (betweenVar_positive (darkest data) Hs) ltac:(lia))
      as Hpos.
    specialize (Hflat (darkest data) Hs).
    change (of_int (Numbers := binary64) 0) with PrimFloat.zero in Hflat.
    congruence.
  - apply (@positive_splits _ binary64 data binary64_compared) in Hbest
      as [HB HF].
    apply weight_below_pos in HB as (a & Ha & Hle).
    apply weight_above_pos in HF as (b & Hb & Hlt).
    pose proof (darkest_le data a Ha). pose proof (brightest_ge data b Hb).
    split; [lia|]. split; eauto.
Qed.

End Separation.

(** A finite check that decides [maximizer] on a concrete buffer. *)
Lemma maximizer_check {num : Type} {N : Numbers num} (data : list Z) (t : Z) :
  forallb
    (fun u => negb (ngt (Variance.betweenVar data u)
                        (Variance.betweenVar data t)))
    (seqZ 0 256) = true ->
  Variance.maximizer data t.
Proof.
  intros H u Hu. rewrite forallb_forall in H.
  apply negb_true_iff, H.
  apply list_elem_of_In, elem_of_seqZ. lia.
Qed.

(** ** The threshold selector: optimality, tie-break, bounds *)

(** C1, as the spec words it, fails.  The selector computes the
    variances in doubles.  On [near_tie], a 180 x 342 raster, it returns
    129, and the between-class variance of the cut point 128, as a real
    number, is strictly greater than that of 129: the selected cut point
    does not maximize the variance. *)
Lemma rounding_hides_the_maximum :
  gray Samples.near_tie /\
  Otsu.otsuLike (N := binary64) Samples.near_tie = 129 /\
  ngt (Numbers := exact)
    (Variance.betweenVar (N := exact) Samples.near_tie 128)
    (Variance.betweenVar (N := exact) Samples.near_tie 129) = true /\
  ~ Variance.maximizer (N := exact) Samples.near_tie
      (Otsu.otsuLike (N := binary64) Samples.near_tie).
Proof.
  assert (Hsel : Otsu.otsuLike (N := binary64) Samples.near_tie = 129)
    by (vm_compute; reflexivity).
  assert (Hgt : ngt (Numbers := exact)
            (Variance.betweenVar (N := exact) Samples.near_tie 128)
            (Variance.betweenVar (N := exact) Samples.near_tie 129) = true)
    by (vm_compute; reflexivity).
  split; [|split; [exact Hsel|split; [exact Hgt|]]].
  - unfold Samples.near_tie, gray. rewrite !Forall_app.
    split; [|split]; [apply Forall_replicate | repeat constructor
                     | apply Forall_replicate]; unfold sample; lia.
  - rewrite Hsel. intros Hmax.
    rewrite (Hmax 128 ltac:(lia)) in Hgt. discriminate.
Qed.

(** C1, amended.  For every grayscale buffer, the threshold returned by
    the selector maximizes the between-class variance as the selector
    computes it, in doubles: no cut point of 0..255 has a computed
    variance strictly greater than that of the returned one; and as
    soon as the computed variance of some cut point is above zero, so is
    that of the returned one.  On a buffer whose sums are exact (255
    times its length below 2^53) no computed variance is NaN, and that
    of every cut point is less than or equal to that of the returned
    one.  The first statement also holds for [otsuThreshold] on buffers
    of fewer than 2^32 samples (where the 32-bit bins cannot wrap). *)
Theorem otsu_maximizes_variance (data : list Z) (t : Z) :
  gray data -> 0 <= t <= 255 ->
  ngt (Numbers := binary64)
    (Variance.betweenVar (N := binary64) data t)
    (Variance.betweenVar (N := binary64) data
       (Otsu.otsuLike (N := binary64) data)) = false /\
  (ngt (Numbers := binary64)
     (Variance.betweenVar (N := binary64) data t) PrimFloat.zero = true ->
   ngt (Numbers := binary64)
     (Variance.betweenVar (N := binary64) data
        (Otsu.otsuLike (N := binary64) data)) PrimFloat.zero = true) /\
  (255 * Z.of_nat (length data) < 2 ^ 53 ->
   PrimFloat.leb
     (Variance.betweenVar (N := binary64) data t)
     (Variance.betweenVar (N := binary64) data
        (Otsu.otsuLike (N := binary64) data)) = true) /\
  (Z.of_nat (length data) < 2 ^ 32 ->
   ngt (Numbers := binary64)
     (Variance.betweenVar (N := binary64) data t)
     (Variance.betweenVar (N := binary64) data
        (Otsu.otsuThreshold (N := binary64) data)) = false).
Proof.
  intros Hg Ht.
  pose proof (@otsuLike_argmax _ binary64 data Hg binary64_compared t Ht)
    as Hle.
  split; [assumption|]. split; [|split].
  - intros Hpos.
    destruct (@otsuLike_cases _ binary64 data Hg binary64_compared)
      as [[_ Hflat]|Hbest]; [|exact Hbest].
    specialize (Hflat t Ht).
    change (of_int (Numbers := binary64) 0) with PrimFloat.zero in Hflat.
    congruence.
  - intros Hsize. rewrite FloatAxioms.leb_spec.
    change (PrimFloat.ltb
              (Variance.betweenVar (N := binary64) data
                 (Otsu.otsuLike (N := binary64) data))
              (Variance.betweenVar (N := binary64) data t) = false) in Hle.
    rewrite FloatAxioms.ltb_spec in Hle.
    apply SFleb_total; [assumption | |].
    + apply betweenVar_number; [assumption | assumption |].
      apply otsuLike_range. assumption.
    + apply betweenVar_number; assumption.
  - intros Hlen. rewrite otsuThreshold_otsuLike by assumption. assumption.
Qed.

Lemma otsu_maximizes_variance_witness :
  gray Samples.three_levels /\ 0 <= 120 <= 255 /\
  ngt (Numbers := binary64)
    (Variance.betweenVar (N := binary64) Samples.three_levels 120)
    (Variance.betweenVar (N := binary64) Samples.three_levels
       (Otsu.otsuLike (N := binary64) Samples.three_levels)) = false.
Proof.
  assert (Hg : gray Samples.three_levels) by gray_list.
  assert (Ht : 0 <= 120 <= 255) by lia.
  split; [exact Hg|]. split; [exact Ht|].
  exact (proj1 (otsu_maximizes_variance Samples.three_levels 120 Hg Ht)).
Defined.

(** C4, as the spec words it, fails.  On [tied_thirds] the cut points 0
    and 1 both attain the largest between-class variance, 16/3; in
    doubles the second one comes out one rounding step above the first,
    and the selector returns 1, not the smaller cut point 0.  Likewise
    on the 180 x 60 raster [tied_bands], where the cut points 0 and 64
    tie and the selector returns 64. *)
Lemma rounding_breaks_the_tie :
  (gray Samples.tied_thirds /\
   Variance.maximizer (N := exact) Samples.tied_thirds 0 /\
   Variance.maximizer (N := exact) Samples.tied_thirds 1 /\
   (Variance.betweenVar (N := exact) Samples.tied_thirds 0
    == Variance.betweenVar (N := exact) Samples.tied_thirds 1)%Q /\
   Otsu.otsuLike (N := binary64) Samples.tied_thirds = 1) /\
  (gray Samples.tied_bands /\
   Variance.maximizer (N := exact) Samples.tied_bands 0 /\
   Variance.maximizer (N := exact) Samples.tied_bands 64 /\
   (Variance.betweenVar (N := exact) Samples.tied_bands 0
    == Variance.betweenVar (N := exact) Samples.tied_bands 64)%Q /\
   Otsu.otsuLike (N := binary64) Samples.tied_bands = 64).
Proof.
  split.
  - split; [gray_list|].
    split; [apply maximizer_check; vm_compute; reflexivity|].
    split; [apply maximizer_check; vm_compute; reflexivity|].
    split; vm_compute; reflexivity.
  - split.
    { unfold Samples.tied_bands, gray. rewrite !Forall_app.
      split; [|split]; apply Forall_replicate; unfold sample; lia. }
    split; [apply maximizer_check; vm_compute; reflexivity|].
    split; [apply maximizer_check; vm_compute; reflexivity|].
    split; vm_compute; reflexivity.
Qed.

(** C4, amended.  Among the cut points whose variance, as the selector
    computes it in doubles, is the largest, the selector returns the
    smallest: the returned cut point is a maximizer of the computed
    variance, no cut point below it has a computed variance equal to or
    greater than its own, and every cut point with an equal computed
    variance is at or above it.  On a buffer whose sums are exact (255
    times its length below 2^53) the computed variance of every cut
    point below the returned one is strictly smaller than its own. *)
Theorem otsu_first_maximizer (data : list Z) :
  gray data ->
  Variance.maximizer (N := binary64) data
    (Otsu.otsuLike (N := binary64) data) /\
  (forall u, 0 <= u < Otsu.otsuLike (N := binary64) data ->
     PrimFloat.leb
       (Variance.betweenVar (N := binary64) data
          (Otsu.otsuLike (N := binary64) data))
       (Variance.betweenVar (N := binary64) data u) = false) /\
  (forall u, 0 <= u <= 255 ->
     PrimFloat.eqb
       (Variance.betweenVar (N := binary64) data u)
       (Variance.betweenVar (N := binary64) data
          (Otsu.otsuLike (N := binary64) data)) = true ->
     Otsu.otsuLike (N := binary64) data <= u) /\
  (255 * Z.of_nat (length data) < 2 ^ 53 ->
   forall u, 0 <= u < Otsu.otsuLike (N := binary64) data ->
     PrimFloat.ltb
       (Variance.betweenVar (N := binary64) data u)
       (Variance.betweenVar (N := binary64) data
          (Otsu.otsuLike (N := binary64) data)) = true).
Proof.
  intros Hg.
  assert (Hbelow : forall u, 0 <= u < Otsu.otsuLike (N := binary64) data ->
     PrimFloat.leb
       (Variance.betweenVar (N := binary64) data
          (Otsu.otsuLike (N := binary64) data))
       (Variance.betweenVar (N := binary64) data u) = false).
  { intros u Hu. rewrite FloatAxioms.leb_spec.
    destruct (@otsuLike_first _ binary64 data Hg binary64_compared u Hu)
      as [Hun|Hlt].
    - apply binary64_unordered in Hun. rewrite Hun. apply SFleb_nan_r.
    - unfold ngt, binary64 in Hlt. rewrite FloatAxioms.ltb_spec in Hlt.
      apply SFltb_not_leb. assumption. }
  split; [exact (@otsuLike_argmax _ binary64 data Hg binary64_compared)|].
  split; [exact Hbelow|]. split.
  - intros u Hu Heq.
    destruct (Z_le_gt_dec (Otsu.otsuLike (N := binary64) data) u) as [|Hgt];
      [assumption|].
    specialize (Hbelow u ltac:(lia)).
    rewrite FloatAxioms.eqb_spec in Heq. apply SFeqb_leb in Heq.
    rewrite FloatAxioms.leb_spec in Hbelow. congruence.
  - intros Hsize u Hu.
    pose proof (otsuLike_range (N := binary64) data Hg) as Hr.
    destruct (@otsuLike_first _ binary64 data Hg binary64_compared u Hu)
      as [Hun|Hlt]; [|exact Hlt].
    apply binary64_unordered in Hun.
    destruct (betweenVar_number data Hg Hsize u ltac:(lia) Hun).
Qed.

Lemma otsu_first_maximizer_witness :
  gray Samples.tied_thirds /\
  0 <= 0 < Otsu.otsuLike (N := binary64) Samples.tied_thirds /\
  PrimFloat.leb
    (Variance.betweenVar (N := binary64) Samples.tied_thirds
       (Otsu.otsuLike (N := binary64) Samples.tied_thirds))
    (Variance.betweenVar (N := binary64) Samples.tied_thirds 0) = false.
Proof.
  assert (Hg : gray Samples.tied_thirds) by gray_list.
  assert (Hu : 0 <= 0 < Otsu.otsuLike (N := binary64) Samples.tied_thirds)
    by (split; vm_compute; [discriminate | reflexivity]).
  split; [exact Hg|]. split; [exact Hu|].
  exact (proj1 (proj2 (otsu_first_maximizer Samples.tied_thirds Hg)) 0 Hu).
Defined.

(** C5.  For a non-empty buffer whose samples all have the same
    intensity the selector returns 0, whatever the arithmetic: no cut
    point has samples on both sides, so no variance is ever computed.
    So does [otsuThreshold] on buffers of fewer than 2^32 samples. *)
Theorem otsu_uniform_zero
    {num : Type} (N : Numbers num) (data : list Z) (v : Z) :
  sample v -> data <> [] -> (forall u, In u data -> u = v) ->
  Otsu.otsuLike data = 0 /\
  (Z.of_nat (length data) < 2 ^ 32 -> Otsu.otsuThreshold data = 0).
Proof.
  intros Hv _ Hall.
  assert (Hg : gray data).
  { apply List.Forall_forall. intros u Hu. rewrite (Hall u Hu). assumption. }
  pose proof (otsuLike_uniform data Hg v Hall) as H0.
  split; [assumption|].
  intros Hlen. rewrite otsuThreshold_otsuLike by assumption. assumption.
Qed.

Lemma otsu_uniform_zero_witness :
  sample 100 /\ Samples.flat <> [] /\
  (forall u, In u Samples.flat -> u = 100) /\
  Otsu.otsuLike (N := binary64) Samples.flat = 0.
Proof.
  assert (Hv : sample 100) by (unfold sample; lia).
  assert (Hne : Samples.flat <> []) by discriminate.
  assert (Hall : forall u, In u Samples.flat -> u = 100).
  { simpl. intros u [H|[H|[H|[]]]]; symmetry; exact H. }
  split; [exact Hv|]. split; [exact Hne|]. split; [exact Hall|].
  exact (proj1 (otsu_uniform_zero binary64 Samples.flat 100 Hv Hne Hall)).
Defined.

(** C10.  For a buffer with at least two distinct intensities, the
    threshold that the selector returns, computing in doubles, lies
    between the smallest intensity present (inclusive) and the largest
    (exclusive), so that some sample is at or below it and some sample
    is above it; likewise for [otsuThreshold] on buffers of fewer than
    2^32 samples.  The buffer is one whose sums the code holds exactly:
    255 times its length is below 2^53. *)
Theorem otsu_between_extremes (data : list Z) (v1 v2 : Z) :
  gray data -> 255 * Z.of_nat (length data) < 2 ^ 53 ->
  In v1 data -> In v2 data -> v1 <> v2 ->
  (Variance.darkest data <= Otsu.otsuLike (N := binary64) data
   < Variance.brightest data /\
   (exists v, In v data /\ v <= Otsu.otsuLike (N := binary64) data) /\
   (exists v, In v data /\ Otsu.otsuLike (N := binary64) data < v)) /\
  (Z.of_nat (length data) < 2 ^ 32 ->
   Variance.darkest data <= Otsu.otsuThreshold (N := binary64) data
   < Variance.brightest data).
Proof.
  intros Hg Hsize H1 H2 Hne.
  assert (Hspread : Variance.darkest data < Variance.brightest data).
  { pose proof (darkest_le data v1 H1). pose proof (darkest_le data v2 H2).
    pose proof (brightest_ge data v1 H1). pose proof (brightest_ge data v2 H2).
    lia. }
  pose proof (otsuLike_between data Hg Hsize Hspread) as Hb.
  split; [assumption|].
  intros Hlen. rewrite otsuThreshold_otsuLike by assumption. apply Hb.
Qed.

Lemma otsu_between_extremes_witness :
  gray Samples.two_levels /\
  255 * Z.of_nat (length Samples.two_levels) < 2 ^ 53 /\
  In 20 Samples.two_levels /\ In 230 Samples.two_levels /\ 20 <> 230 /\
  Variance.darkest Samples.two_levels
  <= Otsu.otsuLike (N := binary64) Samples.two_levels
  < Variance.brightest Samples.two_levels.
Proof.
  assert (Hg : gray Samples.two_levels) by gray_list.
  assert (Hsize : 255 * Z.of_nat (length Samples.two_levels) < 2 ^ 53)
    by (vm_compute; reflexivity).
  assert (H1 : In 20 Samples.two_levels) by (simpl; auto).
  assert (H2 : In 230 Samples.two_levels) by (simpl; auto 6).
  assert (Hne : 20 <> 230) by lia.
  split; [exact Hg|]. split; [exact Hsize|]. split; [exact H1|].
  split; [exact H2|]. split; [exact Hne|].
  exact (proj1 (proj1
    (otsu_between_extremes Samples.two_levels 20 230 Hg Hsize H1 H2 Hne))).
Defined.

(** The selector on doubles.  On [two_levels] and [tied] nothing is
    rounded and both arithmetics return the same cut point.  On
    [tied_thirds] the variances of the cut points 0 and 1 are both 16/3;
    computed in doubles, the second one comes out one rounding step
    above the first, and the selector returns 1. *)
Example selector_on_doubles :
  Otsu.otsuLike (N := binary64) Samples.two_levels = 20 /\
  Otsu.otsuLike (N := exact) Samples.two_levels = 20 /\
  Otsu.otsuLike (N := binary64) Samples.tied = 0 /\
  Otsu.otsuLike (N := exact) Samples.tied = 0 /\
  Otsu.otsuLike (N := binary64) Samples.tied_thirds = 1 /\
  Otsu.otsuLike (N := exact) Samples.tied_thirds = 0 /\
  ngt (Numbers := binary64)
    (Variance.betweenVar Samples.tied_thirds 1)
    (Variance.betweenVar Samples.tied_thirds 0) = true.
Proof. vm_compute. repeat split. Qed.

(** On these buffers the cut point returned on doubles is checked, one
    cut point after the other, to have the largest variance as computed
    on doubles. *)
Example maximizer_on_doubles :
  Variance.maximizer (N := binary64) Samples.tied_thirds
    (Otsu.otsuLike (N := binary64) Samples.tied_thirds) /\
  Variance.maximizer (N := binary64) Samples.three_levels
    (Otsu.otsuLike (N := binary64) Samples.three_levels) /\
  Variance.maximizer (N := binary64) Samples.bright_block
    (Otsu.otsuLike (N := binary64) Samples.bright_block).
Proof. repeat split; apply maximizer_check; vm_compute; reflexivity. Qed.

(** ** The region of interest *)

Section Roi.

Import Handler.

Lemma roi_row_count (width : Z) (data : list Z) (y : Z) (xs : list Z) :
  forall acc : option Z * Z,
    snd (fold_left
           (fun '(roiSum, roiCount) x =>
              (accumulate roiSum (read data (y * width + x)), roiCount + 1))
           xs acc)
    = snd acc + Z.of_nat (length xs).
Proof.
  induction xs as [|x xs IH]; intros [s c]; cbn [fold_left length].
  - simpl. lia.
  - rewrite IH. simpl. lia.
Qed.

Lemma roi_scan_count (width : Z) (data : list Z) (ys : list Z) :
  forall acc : option Z * Z,
    snd (fold_left (fun acc y => roi_row width data y acc) ys acc)
    = snd acc
      + Z.of_nat (length ys) * Z.max 0 (roiEnd width - roiStart width).
Proof.
  induction ys as [|y ys IH]; intros acc; cbn [fold_left length].
  - lia.
  - rewrite IH. unfold roi_row. rewrite roi_row_count, length_seqZ. lia.
Qed.

(** [roiCount] is the area of the box. *)
Lemma roiCount_area (width height : Z) (data : list Z) :
  roiCount width height data
  = Z.max 0 (roiEnd height - roiStart height)
    * Z.max 0 (roiEnd width - roiStart width).
Proof.
  unfold roiCount, roi_scan. rewrite roi_scan_count, length_seqZ.
  simpl. lia.
Qed.

Lemma roi_rows_skip (width : Z) (data : list Z) (ys : list Z) :
  roiEnd width - roiStart width <= 0 ->
  forall acc : option Z * Z,
    fold_left (fun acc y => roi_row width data y acc) ys acc = acc.
Proof.
  intros Hw. induction ys as [|y ys IH]; intros acc; cbn [fold_left].
  - reflexivity.
  - rewrite IH. unfold roi_row. rewrite seqZ_nil by assumption. reflexivity.
Qed.

Lemma roi_scan_empty (width height : Z) (data : list Z) :
  roiEnd width - roiStart width <= 0 \/
  roiEnd height - roiStart height <= 0 ->
  roi_scan width height data = (Some 0, 0).
Proof.
  unfold roi_scan. intros [Hw|Hh].
  - apply roi_rows_skip. assumption.
  - rewrite seqZ_nil by assumption. reflexivity.
Qed.

Lemma roi_extent_small (extent : Z) :
  0 <= extent < 2 -> roiEnd extent - roiStart extent <= 0.
Proof.
  intros H. unfold roiEnd, roiStart.
  assert (extent = 0 \/ extent = 1) as [->| ->] by lia; vm_compute; discriminate.
Qed.

Lemma roi_extent_large (extent : Z) :
  2 <= extent -> 0 < roiEnd extent - roiStart extent.
Proof.
  intros H. unfold roiEnd, roiStart.
  pose proof (Z.div_mod extent 4 ltac:(lia)).
  pose proof (Z.mod_pos_bound extent 4 ltac:(lia)).
  pose proof (Z.div_mod (3 * extent) 4 ltac:(lia)).
  pose proof (Z.mod_pos_bound (3 * extent) 4 ltac:(lia)).
  lia.
Qed.

End Roi.

(** C6, as the spec words it, fails: a 3 x 3 raster has a region of
    interest of four pixels (x and y in [0, 2)), its mean is taken from
    the pixels, and a bright raster is classified as lighter. *)
Lemma roi_below_four_not_empty :
  3 < 4 /\
  Handler.roiCount 3 3 (replicate 9 200) = 4 /\
  Handler.avgROIGray 3 3 (replicate 9 200) = Some (800 # 4) /\
  Handler.numbersAreLighter 3 3 (replicate 9 200) = true.
Proof. repeat split. Qed.

(** C6, amended.  For every raster whose width or height is below 2 the
    region of interest is empty, the detector returns the neutral mean
    128 and [numbersAreLighter] is false; for width and height of at
    least 2 the region of interest is never empty. *)
Theorem roi_degenerate (width height : Z) (data : list Z) :
  0 <= width -> 0 <= height ->
  (width < 2 \/ height < 2 ->
   Handler.roiCount width height data = 0 /\
   Handler.avgROIGray width height data = Some (inject_Z 128) /\
   Handler.numbersAreLighter width height data = false) /\
  (2 <= width -> 2 <= height -> 0 < Handler.roiCount width height data).
Proof.
  intros Hw Hh. split.
  - intros Hsmall.
    assert (Hscan : Handler.roi_scan width height data = (Some 0, 0)).
    { apply roi_scan_empty.
      destruct Hsmall; [left | right]; apply roi_extent_small; lia. }
    unfold Handler.numbersAreLighter, Handler.avgROIGray, Handler.roiCount.
    rewrite Hscan. repeat split.
  - intros Hw2 Hh2. rewrite roiCount_area.
    pose proof (roi_extent_large width Hw2).
    pose proof (roi_extent_large height Hh2). nia.
Qed.

Lemma roi_degenerate_witness :
  0 <= 1 /\ 0 <= 5 /\
  Handler.avgROIGray 1 5 (replicate 5 200) = Some (inject_Z 128) /\
  Handler.numbersAreLighter 1 5 (replicate 5 200) = false.
Proof.
  assert (Hw : 0 <= 1) by lia.
  assert (Hh : 0 <= 5) by lia.
  assert (Hs : 1 < 2 \/ 5 < 2) by (left; lia).
  split; [exact Hw|]. split; [exact Hh|].
  exact (proj2 (proj1 (roi_degenerate 1 5 (replicate 5 200) Hw Hh) Hs)).
Defined.

(** ** Polarity and binarisation *)

Section Polarity.

Import Handler.

Lemma invert_involutive (data : list Z) : invert (invert data) = data.
Proof.
  unfold invert. rewrite List.map_map. rewrite <- (List.map_id data) at 2.
  apply List.map_ext. intros v. lia.
Qed.

Lemma negate_invert (data : list Z) : Sharp.negate data = invert data.
Proof. reflexivity. Qed.

Lemma read_invert (data : list Z) (i : Z) :
  read (invert data) i = (fun v => 255 - v) <$> read data i.
Proof.
  unfold read, invert. destruct (i <? 0); [reflexivity|].
  apply list_lookup_fmap.
Qed.

Lemma roi_row_invert (width : Z) (data : list Z) (y : Z) (xs : list Z) :
  forall acc : option Z * Z,
    fold_left
      (fun '(roiSum, roiCount) x =>
         (accumulate roiSum (read (invert data) (y * width + x)),
          roiCount + 1))
      xs (mirrored acc)
    = mirrored
        (fold_left
           (fun '(roiSum, roiCount) x =>
              (accumulate roiSum (read data (y * width + x)), roiCount + 1))
           xs acc).
Proof.
  induction xs as [|x xs IH]; intros [s c]; cbn [fold_left].
  - reflexivity.
  - rewrite <- IH. f_equal. unfold mirrored; cbn.
    rewrite read_invert.
    destruct s as [s|], (read data (y * width + x)) as [v|]; cbn;
      repeat f_equal; lia.
Qed.

Lemma roi_scan_invert_from (width : Z) (data : list Z) (ys : list Z) :
  forall acc : option Z * Z,
    fold_left (fun acc y => roi_row width (invert data) y acc) ys
      (mirrored acc)
    = mirrored (fold_left (fun acc y => roi_row width data y acc) ys acc).
Proof.
  induction ys as [|y ys IH]; intros acc; cbn [fold_left].
  - reflexivity.
  - rewrite <- IH. f_equal. apply roi_row_invert.
Qed.

Lemma roi_scan_invert (width height : Z) (data : list Z) :
  roi_scan width height (invert data)
  = mirrored (roi_scan width height data).
Proof.
  unfold roi_scan. rewrite <- roi_scan_invert_from. reflexivity.
Qed.

(** The mean of the inverted raster is 255 minus the mean of the
    original, whenever the region of interest is not empty. *)
Lemma avgROIGray_invert (width height : Z) (data : list Z) (m : Q) :
  avgROIGray width height data = Some m ->
  0 < roiCount width height data ->
  exists m', avgROIGray width height (invert data) = Some m' /\
             (m' == inject_Z 255 - m)%Q.
Proof.
  unfold avgROIGray, roiCount. rewrite roi_scan_invert.
  destruct (roi_scan width height data) as [s c]; cbn.
  intros Havg Hc.
  destruct (Z.gtb_spec c 0) as [_|]; [|lia].
  destruct s as [s|]; [|discriminate]. injection Havg as <-. cbn.
  eexists. split; [reflexivity|].
  unfold Z.sub. rewrite inject_Z_plus, inject_Z_opp, inject_Z_mult.
  field. intros H0.
  assert (Hne : ~ (inject_Z c == inject_Z 0)%Q)
    by (rewrite inject_Z_injective; lia).
  apply Hne. exact H0.
Qed.

Lemma avgROIGray_default (width height : Z) (data : list Z) (m : Q) :
  avgROIGray width height data = Some m ->
  roiCount width height data <= 0 ->
  m = inject_Z 128.
Proof.
  unfold avgROIGray, roiCount.
  destruct (roi_scan width height data) as [s c]; cbn.
  intros Havg Hc. destruct (Z.gtb_spec c 0); [lia|]. congruence.
Qed.

End Polarity.

Section Binarize.

Import Handler.

Context {num : Type} {N : Numbers num}.

Lemma threshold_binary (thr : Z) (img : list Z) :
  Forall (fun v => v = 0 \/ v = 255) (Sharp.threshold thr img).
Proof.
  induction img as [|v img IH]; cbn; constructor; [|exact IH].
  destruct (v >? thr); auto.
Qed.

Lemma threshold_lookup (thr : Z) (img : list Z) (i : nat) :
  Sharp.threshold thr img !! i
  = (fun v => if v >? thr then 255 else 0) <$> img !! i.
Proof. apply list_lookup_fmap. Qed.

Lemma negate_lookup (img : list Z) (i : nat) :
  Sharp.negate img !! i = (fun v => 255 - v) <$> img !! i.
Proof. apply list_lookup_fmap. Qed.

Lemma binarize_buffer (width height : Z) (data : list Z) :
  binarize width height data
  = Sharp.threshold (Otsu.otsuLike data)
      (if numbersAreLighter width height data then invert data else data).
Proof. unfold binarize. destruct (numbersAreLighter _ _ _); reflexivity. Qed.

Lemma lighter_flips (width height : Z) (data : list Z) (m : Q) :
  avgROIGray width height data = Some m ->
  (m < 127 \/ 128 < m)%Q ->
  numbersAreLighter width height (invert data)
  = negb (numbersAreLighter width height data).
Proof.
  intros Havg Hm.
  destruct (Z_le_gt_dec (roiCount width height data) 0) as [Hc|Hc].
  { pose proof (avgROIGray_default _ _ _ _ Havg Hc) as ->.
    exfalso. change (inject_Z 128) with 128%Q in Hm. lra. }
  destruct (avgROIGray_invert _ _ _ _ Havg ltac:(lia)) as (m' & Havg' & Hm').
  unfold numbersAreLighter. rewrite Havg, Havg'.
  change (inject_Z 128) with 128%Q. change (inject_Z 255) with 255%Q in Hm'.
  destruct (Qgtb m 128) eqn:H1, (Qgtb m' 128) eqn:H2; try reflexivity;
    exfalso;
    rewrite ?Qgtb_true, ?Qgtb_false in H1, H2; lra.
Qed.

End Binarize.

(** C8.  Modelled from the spec's threshold operation: every sample of
    the binarised raster is exactly 0 or exactly 255, with and without
    the inversion branch, with either selector and in any arithmetic;
    the raster has as many samples as the input. *)
Theorem binarize_binary
    {num : Type} (N : Numbers num) (width height : Z) (data : list Z) :
  Forall (fun v => v = 0 \/ v = 255) (Handler.binarize width height data) /\
  Forall (fun v => v = 0 \/ v = 255) (Handler.binarize2 width height data) /\
  length (Handler.binarize width height data) = length data.
Proof.
  split; [|split].
  - rewrite binarize_buffer. apply threshold_binary.
  - unfold Handler.binarize2. apply threshold_binary.
  - rewrite binarize_buffer. unfold Sharp.threshold, Handler.invert.
    destruct (Handler.numbersAreLighter _ _ _);
      rewrite ?List.length_map; reflexivity.
Qed.

(** C2, as the spec words it, fails.  On [bright_block] the region of
    interest is bright (mean 250), so [numbersAreLighter] holds; the
    bright block, above the cut point 100 of the raster, comes out
    black and the dark surround comes out white, on doubles as in exact
    arithmetic. *)
Lemma bright_pixels_come_out_black :
  Handler.numbersAreLighter 4 4 Samples.bright_block = true /\
  Otsu.otsuLike (N := binary64) Samples.bright_block = 100 /\
  Samples.bright_block !! 5%nat = Some 250 /\
  Handler.binarize (N := binary64) 4 4 Samples.bright_block !! 5%nat
  = Some 0 /\
  Samples.bright_block !! 0%nat = Some 100 /\
  Handler.binarize (N := binary64) 4 4 Samples.bright_block !! 0%nat
  = Some 255 /\
  Handler.binarize (N := exact) 4 4 Samples.bright_block
  = Handler.binarize (N := binary64) 4 4 Samples.bright_block.
Proof. vm_compute. repeat split. Qed.

(** C2, amended.  A pixel comes out white exactly when its sample,
    after the polarity-conditional inversion, exceeds the cut point
    computed from the un-inverted buffer: without inversion a sample
    [v] maps to 255 iff [v > t]; with inversion ([numbersAreLighter]
    true) it maps to 255 iff [255 - v > t], so that the bright pixels
    of the original ([v >= 255 - t]) map to 0. *)
Theorem binarize_pixel
    {num : Type} (N : Numbers num)
    (width height : Z) (data : list Z) (i : nat) (v : Z) :
  data !! i = Some v ->
  Handler.binarize width height data !! i
  = Some (if Handler.numbersAreLighter width height data
          then (if 255 - v >? Otsu.otsuLike data then 255 else 0)
          else (if v >? Otsu.otsuLike data then 255 else 0)) /\
  (Handler.numbersAreLighter width height data = true ->
   255 - Otsu.otsuLike data <= v ->
   Handler.binarize width height data !! i = Some 0).
Proof.
  intros Hv. unfold Handler.binarize.
  destruct (Handler.numbersAreLighter width height data).
  - rewrite threshold_lookup, negate_lookup, Hv. cbn. split; [reflexivity|].
    intros _ Hbright.
    destruct (Z.gtb_spec (255 - v) (Otsu.otsuLike data)); [lia | reflexivity].
  - rewrite threshold_lookup, Hv. cbn. split; [reflexivity | discriminate].
Qed.

Lemma binarize_pixel_witness :
  Samples.bright_block !! 5%nat = Some 250 /\
  Handler.binarize (N := binary64) 4 4 Samples.bright_block !! 5%nat
  = Some (if Handler.numbersAreLighter 4 4 Samples.bright_block
          then (if 255 - 250 >? Otsu.otsuLike (N := binary64)
                                  Samples.bright_block
                then 255 else 0)
          else (if 250 >? Otsu.otsuLike (N := binary64) Samples.bright_block
                then 255 else 0)).
Proof.
  assert (Hv : Samples.bright_block !! 5%nat = Some 250) by reflexivity.
  split; [exact Hv|].
  exact (proj1 (binarize_pixel binary64 4 4 Samples.bright_block 5 250 Hv)).
Defined.

(** C3, as the spec words it, fails on both counts.  A mid-gray raster
    and its inversion (means 128 and 127) are both classified as not
    lighter; and on [three_levels], where the decision does flip, the
    two runs give different binary rasters, because each run takes its
    cut point from its own un-inverted input (20 and 135), on doubles
    as in exact arithmetic. *)
Lemma polarity_symmetry_fails :
  (Handler.numbersAreLighter 4 4 Samples.mid_gray = false /\
   Handler.numbersAreLighter 4 4 (Handler.invert Samples.mid_gray) = false) /\
  (Handler.numbersAreLighter 4 4 Samples.three_levels = true /\
   Handler.numbersAreLighter 4 4 (Handler.invert Samples.three_levels)
   = false /\
   Otsu.otsuLike (N := binary64) Samples.three_levels = 20 /\
   Otsu.otsuLike (N := binary64) (Handler.invert Samples.three_levels)
   = 135 /\
   Handler.binarize (N := binary64) 4 4 Samples.three_levels <>
   Handler.binarize (N := binary64) 4 4
     (Handler.invert Samples.three_levels) /\
   Handler.binarize (N := exact) 4 4 Samples.three_levels <>
   Handler.binarize (N := exact) 4 4
     (Handler.invert Samples.three_levels)).
Proof. vm_compute. repeat split; discriminate. Qed.

(** C3, amended.  When the mean over the region of interest is a number
    outside [127, 128], the polarity decision on the inverted image is
    the negation of the decision on the image.  Both runs then threshold
    the same buffer (the inverted image if the image was classified as
    lighter, the image itself otherwise), each with the cut point of its
    own un-inverted input.  The two binary rasters are therefore
    identical exactly when the two cut points separate the samples of
    that buffer alike, in particular when the cut points are equal. *)
Theorem polarity_symmetry
    {num : Type} (N : Numbers num)
    (width height : Z) (data : list Z) (m : Q) :
  Handler.avgROIGray width height data = Some m ->
  (m < 127 \/ 128 < m)%Q ->
  Handler.numbersAreLighter width height (Handler.invert data)
  = negb (Handler.numbersAreLighter width height data) /\
  Handler.binarize width height data
  = Sharp.threshold (Otsu.otsuLike data)
      (if Handler.numbersAreLighter width height data
       then Handler.invert data else data) /\
  Handler.binarize width height (Handler.invert data)
  = Sharp.threshold (Otsu.otsuLike (Handler.invert data))
      (if Handler.numbersAreLighter width height data
       then Handler.invert data else data) /\
  (Handler.binarize width height data
   = Handler.binarize width height (Handler.invert data)
   <-> forall v,
         In v (if Handler.numbersAreLighter width height data
               then Handler.invert data else data) ->
         (v >? Otsu.otsuLike data)
         = (v >? Otsu.otsuLike (Handler.invert data))) /\
  (Otsu.otsuLike data = Otsu.otsuLike (Handler.invert data) ->
   Handler.binarize width height data
   = Handler.binarize width height (Handler.invert data)).
Proof.
  intros Havg Hm.
  pose proof (lighter_flips width height data m Havg Hm) as Hflip.
  assert (Hsame : Handler.binarize width height (Handler.invert data)
    = Sharp.threshold (Otsu.otsuLike (Handler.invert data))
        (if Handler.numbersAreLighter width height data
         then Handler.invert data else data)).
  { rewrite binarize_buffer, Hflip, invert_involutive.
    destruct (Handler.numbersAreLighter width height data); reflexivity. }
  split; [assumption|]. split; [apply binarize_buffer|].
  split; [exact Hsame|]. split.
  - rewrite Hsame, binarize_buffer. unfold Sharp.threshold.
    rewrite List.map_ext_in_iff.
    split; intros Hpix v Hv; specialize (Hpix v Hv).
    + destruct (v >? Otsu.otsuLike data),
        (v >? Otsu.otsuLike (Handler.invert data));
        reflexivity || discriminate.
    + rewrite Hpix. reflexivity.
  - intros Heq. rewrite Hsame, <- Heq. apply binarize_buffer.
Qed.

(** On [dark_on_bright] the two runs have the cut points 20 and 25,
    which separate the levels 20 and 230 alike: the two rasters are
    identical. *)
Lemma polarity_symmetry_witness :
  Handler.avgROIGray 4 4 Cases.dark_on_bright = Some (80 # 4) /\
  (80 # 4 < 127 \/ 128 < 80 # 4)%Q /\
  Handler.numbersAreLighter 4 4 (Handler.invert Cases.dark_on_bright)
  = negb (Handler.numbersAreLighter 4 4 Cases.dark_on_bright) /\
  Otsu.otsuLike (N := binary64) Cases.dark_on_bright = 20 /\
  Otsu.otsuLike (N := binary64) (Handler.invert Cases.dark_on_bright) = 25 /\
  Handler.binarize (N := binary64) 4 4 Cases.dark_on_bright
  = Handler.binarize (N := binary64) 4 4
      (Handler.invert Cases.dark_on_bright).
Proof.
  assert (Havg : Handler.avgROIGray 4 4 Cases.dark_on_bright
                 = Some (80 # 4)) by reflexivity.
  assert (Hm : (80 # 4 < 127 \/ 128 < 80 # 4)%Q)
    by (left; reflexivity).
  assert (Hpix : forall v,
            In v (if Handler.numbersAreLighter 4 4 Cases.dark_on_bright
                  then Handler.invert Cases.dark_on_bright
                  else Cases.dark_on_bright) ->
            (v >? Otsu.otsuLike (N := binary64) Cases.dark_on_bright)
            = (v >? Otsu.otsuLike (N := binary64)
                      (Handler.invert Cases.dark_on_bright))).
  { apply List.Forall_forall. vm_compute. repeat constructor. }
  pose proof (polarity_symmetry binary64 4 4 Cases.dark_on_bright (80 # 4)
                Havg Hm) as (Hflip & _ & _ & Hiff & _).
  split; [exact Havg|]. split; [exact Hm|]. split; [exact Hflip|].
  split; [vm_compute; reflexivity|]. split; [vm_compute; reflexivity|].
  exact (proj2 Hiff Hpix).
Defined.

(** ** The digit filter *)

Section DigitFilter.

Import OcrText.

Lemma strip_idempotent (cls : Z -> bool) (text : list Z) :
  strip cls (strip cls text) = strip cls text.
Proof.
  unfold strip. induction text as [|c text IH]; cbn; [reflexivity|].
  destruct (negb (cls c)) eqn:Hc; cbn; rewrite ?Hc, IH; reflexivity.
Qed.

Lemma strip_kept (cls : Z -> bool) (text : list Z) :
  Forall (fun c => cls c = false) (strip cls text).
Proof.
  unfold strip. induction text as [|c text IH]; cbn; [constructor|].
  destruct (cls c) eqn:Hc; cbn; [exact IH | constructor; assumption].
Qed.

Lemma strip_ext (cls1 cls2 : Z -> bool) (text : list Z) :
  (forall c, cls1 c = cls2 c) -> strip cls1 text = strip cls2 text.
Proof.
  intros Hext. unfold strip. apply List.filter_ext.
  intros c. rewrite Hext. reflexivity.
Qed.

(** White space is never a digit, so [[\s\D]] and [[^\d]] are the same
    class. *)
Lemma space_not_digit (c : Z) : is_space c = true -> is_digit c = false.
Proof.
  unfold is_space, is_digit. cbn [existsb].
  intros H. apply andb_false_iff.
  destruct (Z.leb_spec 48 c); [|left; reflexivity].
  destruct (Z.leb_spec c 57); [|right; reflexivity].
  exfalso.
  repeat match type of H with
  | (_ || _) = true => apply orb_true_iff in H; destruct H as [H|H]
  | (_ && _) = true => apply andb_true_iff in H; destruct H as [H ?]
  | (_ =? _) = true => apply Z.eqb_eq in H
  | (_ <=? _) = true => apply Z.leb_le in H
  | false = true => discriminate H
  end; lia.
Qed.

Lemma classes_agree (c : Z) :
  is_space c || negb (is_digit c) = negb (is_digit c).
Proof.
  destruct (is_space c) eqn:Hs; [|reflexivity].
  rewrite (space_not_digit c Hs). reflexivity.
Qed.

End DigitFilter.

(** C9.  The digit filter is idempotent and its result contains only
    the decimal digits (code units 48..57); the filter of the
    [otsuThreshold] variant is the same function. *)
Theorem digit_filter_idempotent (text : list Z) :
  OcrText.cleanedText (OcrText.cleanedText text) = OcrText.cleanedText text /\
  Forall (fun c => 48 <= c <= 57) (OcrText.cleanedText text) /\
  OcrText.cleanedText2 text = OcrText.cleanedText text.
Proof.
  split; [apply strip_idempotent|]. split.
  - eapply Forall_impl; [apply strip_kept|]. cbn. intros c Hc.
    rewrite classes_agree in Hc. apply negb_false_iff in Hc.
    unfold OcrText.is_digit in Hc. apply andb_true_iff in Hc as [H1 H2].
    apply Z.leb_le in H1, H2. lia.
  - symmetry. apply strip_ext, classes_agree.
Qed.

Example digit_filter_sample :
  OcrText.cleanedText [32; 52; 50; 10; 65; 55; 12288; 1633] = [52; 50; 55].
Proof. reflexivity. Qed.

(** ** The readiness guard *)

Section Guard.

Import Readiness.

Lemma after_guard_ready (r : request) : after_guard true r <> Respond 503.
Proof.
  unfold after_guard; cbn. destruct (imageUrl r) as [[|c url]|]; discriminate.
Qed.

(** Once the promise is fulfilled the flag is set; the handler only
    tests the flag after the promise is fulfilled. *)
Lemma step_settled (s : server) (e : event) :
  (tesseractReadyPromise s = Fulfilled -> isTesseractWorkerReady s = true) ->
  (tesseractReadyPromise (fst (step s e)) = Fulfilled ->
   isTesseractWorkerReady (fst (step s e)) = true) /\
  (forall q o, In (q, o) (snd (step s e)) -> o <> Respond 503).
Proof.
  intros Hinv. unfold step.
  destruct (running s); cbn; [|split; [assumption | intros ? ? []]].
  destruct e as [r| |]; destruct (tesseractReadyPromise s) eqn:Hp; cbn;
    (split; [auto; try discriminate|]); intros q o Hin;
    try (destruct Hin; fail).
  - destruct Hin as [Heq|[]]. injection Heq as <- <-.
    rewrite Hinv by reflexivity. apply after_guard_ready.
  - apply List.in_map_iff in Hin as (x & Heq & _). injection Heq as <- <-.
    apply after_guard_ready.
Qed.

Lemma run_never_503 (events : list event) :
  forall s : server,
    (tesseractReadyPromise s = Fulfilled -> isTesseractWorkerReady s = true) ->
    forall q o, In (q, o) (snd (run step s events)) -> o <> Respond 503.
Proof.
  induction events as [|e events IH]; intros s Hinv q o; cbn [run].
  - intros [].
  - destruct (step_settled s e Hinv) as [Hinv' Hout].
    destruct (step s e) as [s1 out1]; cbn [fst snd] in *.
    specialize (IH s1 Hinv' q o).
    destruct (run step s1 events) as [s2 out2]; cbn [fst snd] in *.
    intros Hin. apply List.in_app_or in Hin as [Hin|Hin]; eauto.
Qed.

End Guard.

(** C7, as the spec words it, fails on server.js: a request that arrives
    while the worker is initialising gets no response at that point (it
    is suspended on the promise), and once the initialisation has
    succeeded it goes on to the image processing; it is never answered
    503. *)
Lemma request_during_init_is_suspended :
  Readiness.isTesseractWorkerReady Readiness.boot = false /\
  snd (Readiness.step Readiness.boot (Readiness.Arrive Samples.some_request))
  = [] /\
  snd (Readiness.run Readiness.step Readiness.boot
         [Readiness.Arrive Samples.some_request; Readiness.InitSucceeded])
  = [(Samples.some_request, Readiness.Process [104; 116])].
Proof. repeat split. Qed.

(** C7, amended.  In server.js (and in the [otsuThreshold] variant) no request
    is ever answered 503: a request that arrives while the worker is
    initialising is suspended without a response, and when the
    initialisation succeeds it resumes past the guard, to the 400
    response or to the image processing.  In the password variant, which
    does not await the initialisation, an authorised request that arrives
    while the flag is unset is answered 503 at once and nothing else
    happens. *)
Theorem readiness_guard
    (events : list Readiness.event) (s : Readiness.server)
    (r : Readiness.request) :
  (forall q o,
     In (q, o) (snd (Readiness.run Readiness.step Readiness.boot events)) ->
     o <> Readiness.Respond 503) /\
  (Readiness.running s = true ->
   Readiness.tesseractReadyPromise s = Readiness.Pending ->
   snd (Readiness.step s (Readiness.Arrive r)) = [] /\
   In (r, Readiness.after_guard true r)
     (snd (Readiness.step (fst (Readiness.step s (Readiness.Arrive r)))
             Readiness.InitSucceeded))) /\
  (Readiness.running s = true ->
   Readiness.isTesseractWorkerReady s = false ->
   Readiness.authorized r = true ->
   Readiness.step0 s (Readiness.Arrive r)
   = (s, [(r, Readiness.Respond 503)])).
Proof.
  split; [|split].
  - apply run_never_503. cbn. discriminate.
  - intros Hrun Hp. unfold Readiness.step. rewrite Hrun, Hp. cbn.
    split; [reflexivity|].
    apply List.in_map_iff. exists r. split; [reflexivity|].
    apply List.in_or_app. right. left. reflexivity.
  - intros Hrun Hflag Hauth. unfold Readiness.step0.
    rewrite Hrun, Hauth. cbn. unfold Readiness.after_guard.
    rewrite Hflag. reflexivity.
Qed.

Lemma readiness_guard_witness :
  Readiness.running Readiness.boot = true /\
  Readiness.tesseractReadyPromise Readiness.boot = Readiness.Pending /\
  Readiness.isTesseractWorkerReady Readiness.boot = false /\
  Readiness.authorized Samples.some_request = true /\
  snd (Readiness.step Readiness.boot (Readiness.Arrive Samples.some_request))
  = [] /\
  Readiness.step0 Readiness.boot (Readiness.Arrive Samples.some_request)
  = (Readiness.boot, [(Samples.some_request, Readiness.Respond 503)]).
Proof.
  assert (Hrun : Readiness.running Readiness.boot = true) by reflexivity.
  assert (Hp : Readiness.tesseractReadyPromise Readiness.boot
               = Readiness.Pending) by reflexivity.
  assert (Hflag : Readiness.isTesseractWorkerReady Readiness.boot = false)
    by reflexivity.
  assert (Hauth : Readiness.authorized Samples.some_request = true)
    by reflexivity.
  pose proof (readiness_guard [] Readiness.boot Samples.some_request)
    as (_ & Hwait & Hnow).
  split; [exact Hrun|]. split; [exact Hp|]. split; [exact Hflag|].
  split; [exact Hauth|]. split.
  - exact (proj1 (Hwait Hrun Hp)).
  - exact (Hnow Hrun Hflag Hauth).
Defined.

(** * Further properties of the code *)

(** ** The histogram *)

Section HistogramTotals.

Import Otsu Variance.

Lemma total_insert (l : list Z) (i : nat) (x : Z) :
  (i < length l)%nat ->
  fold_right Z.add 0 (<[i := x]> l) = fold_right Z.add 0 l - l !!! i + x.
Proof.
  revert i. induction l as [|y l IH]; intros [|i] Hi; cbn [length] in Hi;
    try lia.
  - change (fold_right Z.add 0 (x :: l) = y + fold_right Z.add 0 l - y + x).
    cbn [fold_right]. lia.
  - change (<[S i := x]> (y :: l)) with (y :: <[i := x]> l).
    change ((y :: l) !!! S i) with (l !!! i).
    cbn [fold_right]. rewrite IH by lia. lia.
Qed.

Lemma histogram_fold_length (data hist : list Z) :
  length
    (fold_left
       (fun hist v => <[Z.to_nat v := (hist !!! Z.to_nat v) + 1]> hist)
       data hist)
  = length hist.
Proof.
  revert hist. induction data as [|v data IH]; intros hist; cbn; [reflexivity|].
  rewrite IH. apply length_insert.
Qed.

Lemma histogram_fold_total (data : list Z) :
  gray data ->
  forall hist : list Z,
    length hist = 256%nat ->
    fold_right Z.add 0
      (fold_left
         (fun hist v => <[Z.to_nat v := (hist !!! Z.to_nat v) + 1]> hist)
         data hist)
    = fold_right Z.add 0 hist + Z.of_nat (length data).
Proof.
  induction 1 as [|v data [Hv0 Hv1] _ IH]; intros hist Hlen.
  - cbn. lia.
  - cbn [fold_left length]. rewrite IH by (rewrite length_insert; assumption).
    rewrite total_insert by lia. lia.
Qed.

Lemma occurrences_permutation (t : Z) (data data' : list Z) :
  Permutation data data' -> occurrences t data = occurrences t data'.
Proof.
  induction 1 as [|v l l' _ IH|v w l|l l' l'' _ IH1 _ IH2]; cbn; lia.
Qed.

Lemma gray_permutation (data data' : list Z) :
  Permutation data data' -> gray data -> gray data'.
Proof. intros Hp Hg. unfold gray in *. rewrite <- Hp. assumption. Qed.

Lemma histogram_permutation (data data' : list Z) :
  gray data -> Permutation data data' ->
  histogram data = histogram data'.
Proof.
  intros Hg Hp. pose proof (gray_permutation _ _ Hp Hg) as Hg'.
  apply (list_eq_same_length _ _ 256).
  - unfold histogram. rewrite histogram_fold_length. apply length_replicate.
  - unfold histogram. rewrite histogram_fold_length. apply length_replicate.
  - intros i x y Hi Hx Hy.
    apply list_lookup_total_correct in Hx, Hy. subst x y.
    rewrite <- (Nat2Z.id i).
    rewrite !histogram_lookup by (auto; lia).
    apply occurrences_permutation. assumption.
Qed.

End HistogramTotals.

Lemma otsuLike_below_top {num : Type} {N : Numbers num} (data : list Z) :
  gray data -> Otsu.otsuLike data <= 254.
Proof.
  intros Hg.
  destruct (otsuLike_picked data Hg) as [->|(_ & _ & HF)]; [lia|].
  apply weight_above_pos in HF as (v & Hv & Hlt).
  unfold gray in Hg. rewrite List.Forall_forall in Hg.
  destruct (Hg v Hv). lia.
Qed.

(** X1.  For every grayscale buffer and in any arithmetic, the cut
    point returned by [otsuLike] is an integer of 0..254: it is always
    an argument that the threshold operation accepts, and never the top
    intensity 255.  The same holds for [otsuThreshold] on buffers of
    fewer than 2^32 samples. *)
Theorem threshold_in_range {num : Type} (N : Numbers num) (data : list Z) :
  gray data ->
  0 <= Otsu.otsuLike data <= 254 /\
  (Z.of_nat (length data) < 2 ^ 32 -> 0 <= Otsu.otsuThreshold data <= 254).
Proof.
  intros Hg. pose proof (otsuLike_range data Hg) as Hr.
  pose proof (otsuLike_below_top (N := N) data Hg) as Ht.
  split; [lia|].
  intros Hlen. rewrite otsuThreshold_otsuLike by assumption. lia.
Qed.

Lemma threshold_in_range_witness :
  gray Samples.three_levels /\
  0 <= Otsu.otsuLike (N := binary64) Samples.three_levels <= 254.
Proof.
  assert (Hg : gray Samples.three_levels) by gray_list.
  split; [exact Hg|].
  exact (proj1 (threshold_in_range binary64 Samples.three_levels Hg)).
Defined.

(** X2.  The histogram built by the first loop of [otsuLike] has 256
    bins, bin [t] holds the number of samples equal to [t], and the bins
    add up to the number of samples. *)
Theorem histogram_counts (data : list Z) :
  gray data ->
  length (Otsu.histogram data) = 256%nat /\
  (forall t, 0 <= t < 256 ->
     Otsu.histogram data !!! Z.to_nat t = Variance.occurrences t data) /\
  fold_right Z.add 0 (Otsu.histogram data) = Z.of_nat (length data).
Proof.
  intros Hg. split; [|split].
  - unfold Otsu.histogram. rewrite histogram_fold_length.
    apply length_replicate.
  - intros t Ht. apply histogram_lookup; assumption.
  - unfold Otsu.histogram.
    rewrite histogram_fold_total by (auto using length_replicate).
    reflexivity.
Qed.

Lemma histogram_counts_witness :
  gray Samples.two_levels /\
  fold_right Z.add 0 (Otsu.histogram Samples.two_levels)
  = Z.of_nat (length Samples.two_levels).
Proof.
  assert (Hg : gray Samples.two_levels) by gray_list.
  split; [exact Hg|].
  exact (proj2 (proj2 (histogram_counts Samples.two_levels Hg))).
Defined.

(** X3.  On a grayscale buffer of fewer than 2^32 samples the two
    selectors return the same cut point, in any arithmetic, and the two
    versions of the binarisation stage produce the same raster. *)
Theorem selectors_agree
    {num : Type} (N : Numbers num) (width height : Z) (data : list Z) :
  gray data -> Z.of_nat (length data) < 2 ^ 32 ->
  Otsu.otsuThreshold data = Otsu.otsuLike data /\
  Handler.binarize2 width height data = Handler.binarize width height data.
Proof.
  intros Hg Hlen.
  pose proof (otsuThreshold_otsuLike (N := N) data Hg Hlen) as Heq.
  split; [assumption|].
  unfold Handler.binarize2, Handler.binarize. rewrite Heq.
  destruct (Handler.numbersAreLighter width height data); reflexivity.
Qed.

Lemma selectors_agree_witness :
  gray Samples.three_levels /\
  Z.of_nat (length Samples.three_levels) < 2 ^ 32 /\
  Otsu.otsuThreshold (N := binary64) Samples.three_levels
  = Otsu.otsuLike (N := binary64) Samples.three_levels.
Proof.
  assert (Hg : gray Samples.three_levels) by gray_list.
  assert (Hlen : Z.of_nat (length Samples.three_levels) < 2 ^ 32)
    by (vm_compute; reflexivity).
  split; [exact Hg|]. split; [exact Hlen|].
  exact (proj1 (selectors_agree binary64 4 4 Samples.three_levels Hg Hlen)).
Defined.

(** X4.  The cut point depends on the samples only through their
    histogram: any rearrangement of the pixels of a grayscale buffer
    gives the same cut point, in any arithmetic. *)
Theorem threshold_of_rearrangement
    {num : Type} (N : Numbers num) (data data' : list Z) :
  gray data -> Permutation data data' ->
  Otsu.otsuLike data' = Otsu.otsuLike data.
Proof.
  intros Hg Hp. unfold Otsu.otsuLike.
  rewrite (histogram_permutation data data' Hg Hp).
  rewrite (Permutation_length Hp). reflexivity.
Qed.

Lemma threshold_of_rearrangement_witness :
  gray Samples.two_levels /\
  Permutation Samples.two_levels (rev Samples.two_levels) /\
  Otsu.otsuLike (N := binary64) (rev Samples.two_levels)
  = Otsu.otsuLike (N := binary64) Samples.two_levels.
Proof.
  assert (Hg : gray Samples.two_levels) by gray_list.
  assert (Hp : Permutation Samples.two_levels (rev Samples.two_levels))
    by apply Permutation_rev.
  split; [exact Hg|]. split; [exact Hp|].
  exact (threshold_of_rearrangement binary64 _ _ Hg Hp).
Defined.

(** ** The cut point is an intensity of the buffer *)

Section Present.

Import Otsu Variance.

Context {num : Type} {N : Numbers num} {O : ComparedScores N}.

Variable data : list Z.
Hypothesis Hgray : gray data.

Lemma occurrences_pos (t : Z) : 0 < occurrences t data <-> In t data.
Proof.
  clear Hgray. induction data as [|v l IH]; cbn.
  - split; [lia | intros []].
  - pose proof (occurrences_nonneg t l).
    destruct (Z.eqb_spec v t) as [->|Hne]; split.
    + intros _. left. reflexivity.
    + intros _. lia.
    + intros H0. right. apply IH. lia.
    + intros [Heq|Hin]; [congruence|]. apply IH in Hin. lia.
Qed.

(** Two cut points with the same samples below them have the same
    variance. *)
Lemma betweenVar_same (t u : Z) :
  weight_below t data = weight_below u data ->
  mass_below t data = mass_below u data ->
  betweenVar data t = betweenVar data u.
Proof. intros Hw Hm. unfold betweenVar. rewrite Hw, Hm. reflexivity. Qed.

(** A cut point between two intensities of the buffer has the variance
    of the cut point before it, computed from the same sums, and cannot
    replace it. *)
Lemma otsuLike_present : otsuLike data = 0 \/ In (otsuLike data) data.
Proof.
  destruct (otsuLike_cases data Hgray) as [[H0 _]|Hpos]; [left; assumption|].
  right. apply occurrences_pos.
  pose proof (occurrences_nonneg (otsuLike data) data) as Hocc.
  destruct (Z.eq_dec (occurrences (otsuLike data) data) 0) as [Hz|]; [|lia].
  exfalso.
  pose proof (positive_splits data _ Hpos) as [HB _].
  pose proof (weight_below_step (otsuLike data) data) as Hw.
  pose proof (mass_below_step (otsuLike data) data) as Hm.
  rewrite Hz in Hw, Hm.
  assert (Hge : 1 <= otsuLike data).
  { destruct (Z_lt_le_dec (otsuLike data) 1) as [Hlt|]; [|assumption].
    rewrite (weight_below_neg (otsuLike data - 1) data Hgray) in Hw by lia.
    lia. }
  assert (Hr : 0 <= otsuLike data - 1 < otsuLike data) by lia.
  destruct (otsuLike_first data Hgray _ Hr) as [Hun|Hlt];
    rewrite (betweenVar_same (otsuLike data - 1) (otsuLike data)) in * by lia.
  - exact (gt_ordered _ _ Hpos Hun).
  - rewrite gt_irrefl in Hlt. discriminate.
Qed.

End Present.

(** On doubles, with two intensities present, the cut point is not the
    initial 0 unless 0 is the smallest intensity. *)
Lemma otsuLike_present_spread (data : list Z) :
  gray data -> 255 * Z.of_nat (length data) < 2 ^ 53 ->
  Variance.darkest data < Variance.brightest data ->
  In (Otsu.otsuLike (N := binary64) data) data.
Proof.
  intros Hg Hsize Hspread.
  destruct (@otsuLike_present _ binary64 binary64_compared data Hg)
    as [H0|]; [|assumption].
  pose proof (otsuLike_between data Hg Hsize Hspread) as [[Hlo _] _].
  assert (Hne : data <> []).
  { intros ->. unfold Variance.darkest, Variance.brightest in Hspread.
    simpl in Hspread. lia. }
  pose proof (darkest_in data Hg Hne) as Hin.
  assert (Hs : sample (Variance.darkest data)).
  { unfold gray in Hg. rewrite List.Forall_forall in Hg. auto. }
  destruct Hs as [Hs _].
  replace (Otsu.otsuLike (N := binary64) data) with (Variance.darkest data)
    by lia.
  assumption.
Qed.

(** X5.  The cut point that the selector, computing in doubles, returns
    for a grayscale buffer is 0 or one of the intensities present in the
    buffer; it is one of the intensities present when the buffer holds
    two distinct ones and its sums are exact (255 times its length below
    2^53).  Likewise for [otsuThreshold] on buffers of fewer than 2^32
    samples. *)
Theorem threshold_is_present (data : list Z) :
  gray data ->
  (Otsu.otsuLike (N := binary64) data = 0 \/
   In (Otsu.otsuLike (N := binary64) data) data) /\
  (255 * Z.of_nat (length data) < 2 ^ 53 ->
   Variance.darkest data < Variance.brightest data ->
   In (Otsu.otsuLike (N := binary64) data) data) /\
  (Z.of_nat (length data) < 2 ^ 32 ->
   Otsu.otsuThreshold (N := binary64) data = 0 \/
   In (Otsu.otsuThreshold (N := binary64) data) data).
Proof.
  intros Hg.
  pose proof (@otsuLike_present _ binary64 binary64_compared data Hg) as Hp.
  split; [assumption|]. split.
  - intros Hsize Hspread. apply otsuLike_present_spread; assumption.
  - intros Hlen. rewrite otsuThreshold_otsuLike by assumption. assumption.
Qed.

Lemma threshold_is_present_witness :
  gray Samples.three_levels /\
  255 * Z.of_nat (length Samples.three_levels) < 2 ^ 53 /\
  Variance.darkest Samples.three_levels
  < Variance.brightest Samples.three_levels /\
  In (Otsu.otsuLike (N := binary64) Samples.three_levels)
    Samples.three_levels.
Proof.
  assert (Hg : gray Samples.three_levels) by gray_list.
  assert (Hsize : 255 * Z.of_nat (length Samples.three_levels) < 2 ^ 53)
    by (vm_compute; reflexivity).
  assert (Hspread : Variance.darkest Samples.three_levels
                    < Variance.brightest Samples.three_levels)
    by (vm_compute; reflexivity).
  split; [exact Hg|]. split; [exact Hsize|]. split; [exact Hspread|].
  exact (proj1 (proj2 (threshold_is_present Samples.three_levels Hg))
           Hsize Hspread).
Defined.

(** X6.  For a grayscale buffer that holds exactly two intensities
    [a < b] (and whose sums are exact: 255 times its length is below
    2^53), the selector, computing in doubles, returns the lower one,
    [a]. *)
Theorem two_level_threshold (data : list Z) (a b : Z) :
  gray data -> 255 * Z.of_nat (length data) < 2 ^ 53 ->
  In a data -> In b data -> a < b ->
  (forall v, In v data -> v = a \/ v = b) ->
  Otsu.otsuLike (N := binary64) data = a.
Proof.
  intros Hg Hsize Ha Hb Hab Hall.
  pose proof (darkest_le data a Ha) as Hda.
  pose proof (brightest_ge data b Hb) as Hbb.
  assert (Hne : data <> []) by (intros ->; destruct Ha).
  destruct (Hall _ (brightest_in data Hg Hne)) as [Hbr|Hbr]; [lia|].
  assert (Hspread : Variance.darkest data < Variance.brightest data) by lia.
  pose proof (otsuLike_between data Hg Hsize Hspread) as [[_ Hhi] _].
  destruct (Hall _ (otsuLike_present_spread data Hg Hsize Hspread))
    as [|Heq]; [assumption | lia].
Qed.

Lemma two_level_threshold_witness :
  gray Cases.bright_on_dark /\
  255 * Z.of_nat (length Cases.bright_on_dark) < 2 ^ 53 /\
  In 20 Cases.bright_on_dark /\
  In 230 Cases.bright_on_dark /\ 20 < 230 /\
  (forall v, In v Cases.bright_on_dark -> v = 20 \/ v = 230) /\
  Otsu.otsuLike (N := binary64) Cases.bright_on_dark = 20.
Proof.
  assert (Hg : gray Cases.bright_on_dark) by gray_list.
  assert (Hsize : 255 * Z.of_nat (length Cases.bright_on_dark) < 2 ^ 53)
    by (vm_compute; reflexivity).
  assert (Ha : In 20 Cases.bright_on_dark) by (simpl; auto).
  assert (Hb : In 230 Cases.bright_on_dark) by (simpl; auto 8).
  assert (Hab : 20 < 230) by lia.
  assert (Hall : forall v, In v Cases.bright_on_dark -> v = 20 \/ v = 230)
    by two_levels_list.
  split; [exact Hg|]. split; [exact Hsize|]. split; [exact Ha|].
  split; [exact Hb|]. split; [exact Hab|]. split; [exact Hall|].
  exact (two_level_threshold Cases.bright_on_dark 20 230
           Hg Hsize Ha Hb Hab Hall).
Defined.

(** X25.  On a grayscale buffer whose sums are exact (255 times its
    length below 2^53), the variance that the selector computes in
    doubles for a cut point of 0..255 is above zero exactly when the
    cut point has samples on both sides, that is, from the smallest
    intensity present to just below the largest: rounding turns no such
    variance into zero or NaN. *)
Theorem separating_cuts_are_positive (data : list Z) (t : Z) :
  gray data -> 255 * Z.of_nat (length data) < 2 ^ 53 -> 0 <= t <= 255 ->
  (ngt (Numbers := binary64)
     (Variance.betweenVar (N := binary64) data t) PrimFloat.zero = true
   <-> Variance.darkest data <= t < Variance.brightest data).
Proof.
  intros Hg Hsize Ht. apply betweenVar_positive; assumption.
Qed.

Lemma separating_cuts_are_positive_witness :
  gray Samples.three_levels /\
  255 * Z.of_nat (length Samples.three_levels) < 2 ^ 53 /\
  0 <= 100 <= 255 /\
  Variance.darkest Samples.three_levels <= 100
  < Variance.brightest Samples.three_levels /\
  ngt (Numbers := binary64)
    (Variance.betweenVar (N := binary64) Samples.three_levels 100)
    PrimFloat.zero = true.
Proof.
  assert (Hg : gray Samples.three_levels) by gray_list.
  assert (Hsize : 255 * Z.of_nat (length Samples.three_levels) < 2 ^ 53)
    by (vm_compute; reflexivity).
  assert (Ht : 0 <= 100 <= 255) by lia.
  assert (Hin : Variance.darkest Samples.three_levels <= 100
                < Variance.brightest Samples.three_levels)
    by (vm_compute; split; [discriminate | reflexivity]).
  split; [exact Hg|]. split; [exact Hsize|]. split; [exact Ht|].
  split; [exact Hin|].
  exact (proj2 (separating_cuts_are_positive Samples.three_levels 100
                  Hg Hsize Ht) Hin).
Defined.

(** X24.  For a grayscale buffer with at least two distinct intensities
    and in any arithmetic, the cut point is strictly below the largest
    intensity present, so that some sample is above it, and it is the
    initial 0 or at least the smallest intensity present; likewise for
    [otsuThreshold] on buffers of fewer than 2^32 samples. *)
Theorem threshold_below_brightest
    {num : Type} (N : Numbers num) (data : list Z) (v1 v2 : Z) :
  gray data -> In v1 data -> In v2 data -> v1 <> v2 ->
  Otsu.otsuLike data < Variance.brightest data /\
  (exists v, In v data /\ Otsu.otsuLike data < v) /\
  (Otsu.otsuLike data = 0 \/
   Variance.darkest data <= Otsu.otsuLike data) /\
  (Z.of_nat (length data) < 2 ^ 32 ->
   Otsu.otsuThreshold data < Variance.brightest data).
Proof.
  intros Hg H1 H2 Hne.
  assert (Hspread : Variance.darkest data < Variance.brightest data).
  { pose proof (darkest_le data v1 H1). pose proof (darkest_le data v2 H2).
    pose proof (brightest_ge data v1 H1). pose proof (brightest_ge data v2 H2).
    lia. }
  pose proof (otsuLike_spread (N := N) data Hg Hspread) as [Hlt Hlo].
  split; [assumption|]. split; [|split; [assumption|]].
  - exists (Variance.brightest data). split; [|assumption].
    apply brightest_in; [assumption|]. intros ->. destruct H1.
  - intros Hlen. rewrite otsuThreshold_otsuLike by assumption. assumption.
Qed.

Lemma threshold_below_brightest_witness :
  gray Samples.two_levels /\ In 20 Samples.two_levels /\
  In 230 Samples.two_levels /\ 20 <> 230 /\
  Otsu.otsuLike (N := binary64) Samples.two_levels
  < Variance.brightest Samples.two_levels.
Proof.
  assert (Hg : gray Samples.two_levels) by gray_list.
  assert (H1 : In 20 Samples.two_levels) by (simpl; auto).
  assert (H2 : In 230 Samples.two_levels) by (simpl; auto 6).
  assert (Hne : 20 <> 230) by lia.
  split; [exact Hg|]. split; [exact H1|]. split; [exact H2|].
  split; [exact Hne|].
  exact (proj1 (threshold_below_brightest binary64 Samples.two_levels 20 230
                  Hg H1 H2 Hne)).
Defined.

(** On doubles, a dark-on-bright raster of two levels is separated
    exactly, and a bright-on-dark one, inverted and cut at the lower
    level 20 of the un-inverted raster, comes out white all over. *)
Example two_levels_on_doubles :
  Handler.binarize (N := binary64) 4 4 Cases.dark_on_bright
  = map (fun v => if v =? 230 then 255 else 0) Cases.dark_on_bright /\
  Handler.binarize (N := binary64) 4 4 Cases.bright_on_dark
  = map (fun _ => 255) Cases.bright_on_dark.
Proof. vm_compute. split; reflexivity. Qed.

(** ** The region of interest: bounds, mean, locality *)

Section RoiReads.

Import Handler.

Lemma fold_left_agree {A B : Type} (f g : A -> B -> A) (l : list B) :
  (forall a b, In b l -> f a b = g a b) ->
  forall a, fold_left f l a = fold_left g l a.
Proof.
  induction l as [|b l IH]; intros Hfg a; cbn; [reflexivity|].
  rewrite (Hfg a b) by (left; reflexivity).
  apply IH. intros a' b' Hb'. apply Hfg. right. assumption.
Qed.

Lemma roi_extent_inside (extent : Z) :
  0 <= extent -> 0 <= roiStart extent /\ roiEnd extent <= extent.
Proof.
  intros H. unfold roiStart, roiEnd. split.
  - apply Z.div_pos; lia.
  - apply Z.div_le_upper_bound; lia.
Qed.

Lemma in_seqZ (x m n : Z) : In x (seqZ m n) <-> m <= x < m + n.
Proof. rewrite <- list_elem_of_In. apply elem_of_seqZ. Qed.

Lemma read_sample (data : list Z) (i : Z) :
  gray data -> 0 <= i < Z.of_nat (length data) ->
  exists v, read data i = Some v /\ sample v.
Proof.
  intros Hg Hi. unfold read.
  destruct (Z.ltb_spec i 0); [lia|].
  destruct (lookup_lt_is_Some_2 data (Z.to_nat i) ltac:(lia)) as [v Hv].
  exists v. split; [assumption|].
  unfold gray in Hg. rewrite Forall_lookup in Hg. eauto.
Qed.

(** The state of the loops while every read is inside the buffer: a
    sum of [roiCount] samples. *)
Lemma roi_row_bounded (width : Z) (data : list Z) (y : Z) (xs : list Z) :
  gray data ->
  (forall x, In x xs -> 0 <= y * width + x < Z.of_nat (length data)) ->
  forall (s c : Z),
    0 <= s <= 255 * c ->
    exists s',
      fold_left
        (fun '(roiSum, roiCount) x =>
           (accumulate roiSum (read data (y * width + x)), roiCount + 1))
        xs (Some s, c)
      = (Some s', c + Z.of_nat (length xs)) /\
      0 <= s' <= 255 * (c + Z.of_nat (length xs)).
Proof.
  intros Hg. induction xs as [|x xs IH]; intros Hin s c Hs.
  - exists s. cbn. rewrite Z.add_0_r. auto.
  - cbn [fold_left length].
    destruct (read_sample data (y * width + x) Hg) as (v & Hv & [Hv0 Hv1]).
    { apply Hin. left. reflexivity. }
    rewrite Hv. cbn [accumulate].
    destruct (IH (fun x' Hx' => Hin x' (or_intror Hx')) (s + v) (c + 1))
      as (s' & Heq & Hs'); [lia|].
    exists s'. rewrite Heq. split; [f_equal; lia | lia].
Qed.

Lemma roi_scan_bounded (width height : Z) (data : list Z) :
  gray data -> 0 <= width -> 0 <= height ->
  Z.of_nat (length data) = width * height ->
  exists s,
    roi_scan width height data = (Some s, roiCount width height data) /\
    0 <= s <= 255 * roiCount width height data.
Proof.
  intros Hg Hw Hh Hlen.
  pose proof (roi_extent_inside width Hw) as [Hx0 Hx1].
  pose proof (roi_extent_inside height Hh) as [Hy0 Hy1].
  assert (Hgen : forall ys,
    (forall y, In y ys -> 0 <= y < height) ->
    forall s c, 0 <= s <= 255 * c ->
    exists s' c',
      fold_left (fun acc y => roi_row width data y acc) ys (Some s, c)
      = (Some s', c') /\ 0 <= s' <= 255 * c').
  { induction ys as [|y ys IH]; intros Hys s c Hs; cbn [fold_left].
    - exists s, c. auto.
    - unfold roi_row at 2.
      destruct (roi_row_bounded width data y
                  (seqZ (roiStart width) (roiEnd width - roiStart width)) Hg)
        with (s := s) (c := c) as (s1 & Heq & Hs1); [|assumption|].
      + intros x Hx. apply in_seqZ in Hx.
        pose proof (Hys y (or_introl eq_refl)). nia.
      + rewrite Heq. apply IH; [|assumption].
        intros y' Hy'. apply Hys. right. assumption. }
  destruct (Hgen (seqZ (roiStart height) (roiEnd height - roiStart height)))
    with (s := 0) (c := 0) as (s & c & Heq & Hs); [|lia|].
  { intros y Hy. apply in_seqZ in Hy. lia. }
  exists s. unfold roiCount. unfold roi_scan at 1 2. rewrite Heq. cbn.
  unfold roi_scan in Heq.
  assert (c = snd (fold_left (fun acc y => roi_row width data y acc)
                     (seqZ (roiStart height) (roiEnd height - roiStart height))
                     (Some 0, 0))) as Hc by (rewrite Heq; reflexivity).
  split; [reflexivity|]. unfold roi_scan. rewrite <- Hc. assumption.
Qed.

End RoiReads.

(** X9.  For a grayscale buffer whose length is [width * height], the
    loops over the region of interest never read outside the buffer: the
    mean is a number (never [NaN]) and lies between 0 and 255. *)
Theorem roi_mean_in_range (width height : Z) (data : list Z) :
  gray data -> 0 <= width -> 0 <= height ->
  Z.of_nat (length data) = width * height ->
  exists m : Q,
    Handler.avgROIGray width height data = Some m /\ (0 <= m <= 255)%Q.
Proof.
  intros Hg Hw Hh Hlen.
  destruct (roi_scan_bounded width height data Hg Hw Hh Hlen)
    as (s & Hscan & Hs).
  unfold Handler.avgROIGray. rewrite Hscan.
  set (c := Handler.roiCount width height data) in *.
  destruct (Z.gtb_spec c 0) as [Hc|Hc].
  - eexists. split; [reflexivity|].
    assert (Hcq : (0 < inject_Z c)%Q)
      by (change 0%Q with (inject_Z 0); rewrite <- Zlt_Qlt; lia).
    split.
    + apply Qle_shift_div_l; [assumption|].
      rewrite Qmult_0_l. change 0%Q with (inject_Z 0).
      rewrite <- Zle_Qle. lia.
    + apply Qle_shift_div_r; [assumption|].
      change 255%Q with (inject_Z 255).
      rewrite <- inject_Z_mult, <- Zle_Qle. lia.
  - exists (inject_Z 128). split; [reflexivity|].
    split; [discriminate | discriminate].
Qed.

Lemma roi_mean_in_range_witness :
  gray Samples.bright_block /\ 0 <= 4 /\ 0 <= 4 /\
  Z.of_nat (length Samples.bright_block) = 4 * 4 /\
  exists m : Q,
    Handler.avgROIGray 4 4 Samples.bright_block = Some m /\
    (0 <= m <= 255)%Q.
Proof.
  assert (Hg : gray Samples.bright_block) by gray_list.
  assert (Hw : 0 <= 4) by lia.
  assert (Hlen : Z.of_nat (length Samples.bright_block) = 4 * 4)
    by reflexivity.
  split; [exact Hg|]. split; [exact Hw|]. split; [exact Hw|].
  split; [exact Hlen|].
  exact (roi_mean_in_range 4 4 Samples.bright_block Hg Hw Hw Hlen).
Defined.

(** X10.  The number of pixels visited by the two loops is the area of
    the box: [floor(0.75 w) - floor(0.25 w)] columns times
    [floor(0.75 h) - floor(0.25 h)] rows, whatever the buffer holds. *)
Theorem roi_count_is_area (width height : Z) (data : list Z) :
  0 <= width -> 0 <= height ->
  Handler.roiCount width height data
  = (Handler.roiEnd width - Handler.roiStart width)
    * (Handler.roiEnd height - Handler.roiStart height).
Proof.
  intros Hw Hh. rewrite roiCount_area.
  assert (Hx : 0 <= Handler.roiEnd width - Handler.roiStart width).
  { unfold Handler.roiEnd, Handler.roiStart.
    apply Z.le_0_sub, Z.div_le_mono; lia. }
  assert (Hy : 0 <= Handler.roiEnd height - Handler.roiStart height).
  { unfold Handler.roiEnd, Handler.roiStart.
    apply Z.le_0_sub, Z.div_le_mono; lia. }
  rewrite !Z.max_r by assumption. apply Z.mul_comm.
Qed.

Lemma roi_count_is_area_witness :
  0 <= 180 /\ 0 <= 60 /\
  Handler.roiCount 180 60 [] = (135 - 45) * (45 - 15).
Proof.
  assert (Hw : 0 <= 180) by lia.
  assert (Hh : 0 <= 60) by lia.
  split; [exact Hw|]. split; [exact Hh|].
  exact (roi_count_is_area 180 60 [] Hw Hh).
Defined.

(** X11.  Over the region of interest, the two loops accumulate on the
    pixel-wise inverted buffer the mirror image of what they accumulate
    on the buffer: the same number of pixels, and 255 times that number
    minus the sum (NaN where the sum of the buffer is NaN).  Hence the
    buffer and its inversion are never both classified as lighter. *)
Theorem roi_sum_of_inversion (width height : Z) (data : list Z) :
  Handler.roi_scan width height (Handler.invert data)
  = ((fun roiSum => 255 * Handler.roiCount width height data - roiSum)
       <$> fst (Handler.roi_scan width height data),
     Handler.roiCount width height data) /\
  (Handler.numbersAreLighter width height data = true ->
   Handler.numbersAreLighter width height (Handler.invert data) = false).
Proof.
  split; [apply roi_scan_invert|].
  intros Hlight.
  destruct (Handler.avgROIGray width height data) as [m|] eqn:Havg;
    [|unfold Handler.numbersAreLighter in Hlight; rewrite Havg in Hlight;
      discriminate].
  assert (Hm : (128 < m)%Q).
  { unfold Handler.numbersAreLighter in Hlight. rewrite Havg in Hlight.
    apply Qgtb_true in Hlight. exact Hlight. }
  rewrite (lighter_flips width height data m Havg (or_intror Hm)), Hlight.
  reflexivity.
Qed.

Lemma roi_sum_of_inversion_witness :
  Handler.roi_scan 4 4 Samples.three_levels = (Some 810, 4) /\
  Handler.roi_scan 4 4 (Handler.invert Samples.three_levels)
  = (Some (255 * 4 - 810), 4) /\
  Handler.numbersAreLighter 4 4 Samples.three_levels = true /\
  Handler.numbersAreLighter 4 4 (Handler.invert Samples.three_levels)
  = false.
Proof.
  assert (Hlight : Handler.numbersAreLighter 4 4 Samples.three_levels = true)
    by reflexivity.
  split; [reflexivity|].
  split; [exact (proj1 (roi_sum_of_inversion 4 4 Samples.three_levels))|].
  split; [exact Hlight|].
  exact (proj2 (roi_sum_of_inversion 4 4 Samples.three_levels) Hlight).
Defined.

(** X12.  The polarity decision looks at the region of interest only:
    two buffers that hold the same samples at every position of the box
    get the same mean and the same decision, whatever they hold
    elsewhere. *)
Theorem polarity_is_local (width height : Z) (data data' : list Z) :
  (forall x y,
     Handler.roiStart width <= x < Handler.roiEnd width ->
     Handler.roiStart height <= y < Handler.roiEnd height ->
     Handler.read data (y * width + x) = Handler.read data' (y * width + x)) ->
  Handler.avgROIGray width height data = Handler.avgROIGray width height data'
  /\ Handler.numbersAreLighter width height data
     = Handler.numbersAreLighter width height data'.
Proof.
  intros Hsame.
  assert (Hscan : Handler.roi_scan width height data
                  = Handler.roi_scan width height data').
  { unfold Handler.roi_scan. apply fold_left_agree.
    intros acc y Hy. apply in_seqZ in Hy.
    unfold Handler.roi_row. apply fold_left_agree.
    intros [s c] x Hx. apply in_seqZ in Hx.
    rewrite Hsame by lia. reflexivity. }
  assert (Havg : Handler.avgROIGray width height data
                 = Handler.avgROIGray width height data').
  { unfold Handler.avgROIGray. rewrite Hscan. reflexivity. }
  split; [assumption|].
  unfold Handler.numbersAreLighter. rewrite Havg. reflexivity.
Qed.

Lemma polarity_is_local_witness :
  (forall x y,
     Handler.roiStart 4 <= x < Handler.roiEnd 4 ->
     Handler.roiStart 4 <= y < Handler.roiEnd 4 ->
     Handler.read Samples.bright_block (y * 4 + x)
     = Handler.read Cases.bright_block_pale (y * 4 + x)) /\
  Handler.numbersAreLighter 4 4 Samples.bright_block
  = Handler.numbersAreLighter 4 4 Cases.bright_block_pale.
Proof.
  assert (Hsame : forall x y,
     Handler.roiStart 4 <= x < Handler.roiEnd 4 ->
     Handler.roiStart 4 <= y < Handler.roiEnd 4 ->
     Handler.read Samples.bright_block (y * 4 + x)
     = Handler.read Cases.bright_block_pale (y * 4 + x)).
  { change (Handler.roiStart 4) with 1. change (Handler.roiEnd 4) with 3.
    intros x y Hx Hy.
    assert (Hx' : x = 1 \/ x = 2) by lia.
    assert (Hy' : y = 1 \/ y = 2) by lia.
    destruct Hx' as [-> | ->], Hy' as [-> | ->]; reflexivity. }
  split; [exact Hsame|].
  exact (proj2 (polarity_is_local 4 4 Samples.bright_block
                  Cases.bright_block_pale Hsame)).
Defined.

(** ** More on the digit filter *)

Section DigitFilterMore.

Import OcrText.

Lemma strip_app (cls : Z -> bool) (a b : list Z) :
  strip cls (a ++ b) = strip cls a ++ strip cls b.
Proof. unfold strip. apply List.filter_app. Qed.

Lemma strip_fixed (cls : Z -> bool) (text : list Z) :
  strip cls text = text <-> Forall (fun c => cls c = false) text.
Proof.
  split.
  - intros Heq. rewrite <- Heq. apply strip_kept.
  - unfold strip. induction 1 as [|c text Hc _ IH]; cbn; [reflexivity|].
    rewrite Hc. cbn. rewrite IH. reflexivity.
Qed.

Lemma strip_count (cls : Z -> bool) (text : list Z) (c : Z) :
  cls c = false ->
  count_occ Z.eq_dec (strip cls text) c = count_occ Z.eq_dec text c.
Proof.
  intros Hc. unfold strip. induction text as [|d text IH]; cbn; [reflexivity|].
  destruct (Z.eq_dec d c) as [->|Hne].
  - rewrite Hc. cbn. destruct (Z.eq_dec c c); [|congruence].
    rewrite IH. reflexivity.
  - destruct (cls d); cbn; [assumption|].
    destruct (Z.eq_dec d c); [congruence | assumption].
Qed.

Lemma strip_length (cls : Z -> bool) (text : list Z) :
  (length (strip cls text) <= length text)%nat.
Proof. unfold strip. apply List.filter_length_le. Qed.

Lemma digit_class (c : Z) :
  is_space c || negb (is_digit c) = false <-> 48 <= c <= 57.
Proof.
  rewrite classes_agree, negb_false_iff. unfold is_digit.
  rewrite andb_true_iff, !Z.leb_le. reflexivity.
Qed.

End DigitFilterMore.

(** X13.  The digit filter leaves a text unchanged exactly when the text
    consists of decimal digits only. *)
Theorem digit_filter_fixed_points (text : list Z) :
  OcrText.cleanedText text = text <-> Forall (fun c => 48 <= c <= 57) text.
Proof.
  unfold OcrText.cleanedText. rewrite strip_fixed.
  split; intros H; eapply Forall_impl; try exact H; cbn;
    intros c Hc; apply digit_class; assumption.
Qed.

(** X14.  The digit filter works code unit by code unit: the filtered
    concatenation of two texts is the concatenation of the filtered
    texts. *)
Theorem digit_filter_concat (a b : list Z) :
  OcrText.cleanedText (a ++ b)
  = OcrText.cleanedText a ++ OcrText.cleanedText b.
Proof. apply strip_app. Qed.

(** X15.  The digit filter loses no digit and adds nothing: every
    decimal digit occurs in the result as many times as in the text, and
    the result is not longer than the text. *)
Theorem digit_filter_keeps_digits (text : list Z) (c : Z) :
  48 <= c <= 57 ->
  count_occ Z.eq_dec (OcrText.cleanedText text) c
  = count_occ Z.eq_dec text c /\
  (length (OcrText.cleanedText text) <= length text)%nat.
Proof.
  intros Hc. split; [|apply strip_length].
  apply strip_count. apply digit_class. assumption.
Qed.

Lemma digit_filter_keeps_digits_witness :
  48 <= 55 <= 57 /\
  count_occ Z.eq_dec (OcrText.cleanedText [55; 32; 55; 65; 49]) 55
  = count_occ Z.eq_dec [55; 32; 55; 65; 49] 55.
Proof.
  assert (Hc : 48 <= 55 <= 57) by lia.
  split; [exact Hc|].
  exact (proj1 (digit_filter_keeps_digits [55; 32; 55; 65; 49] 55 Hc)).
Defined.

(** ** Splitting and comparing strings *)

Section Strings.

Import Text.

Lemma same_eq (a b : list Z) : same a b = true <-> a = b.
Proof.
  revert b. induction a as [|x a IH]; intros [|y b]; cbn.
  - split; reflexivity.
  - split; discriminate.
  - split; discriminate.
  - rewrite andb_true_iff, Z.eqb_eq, IH. split.
    + intros [-> ->]. reflexivity.
    + intros [= -> ->]. auto.
Qed.

Lemma split_not_nil (sep : Z) (s : list Z) : split sep s <> [].
Proof.
  destruct s as [|c s]; cbn; [discriminate|].
  destruct (c =? sep); [discriminate|].
  destruct (split sep s); discriminate.
Qed.

(** No separator: one field, the string itself. *)
Lemma split_whole (sep : Z) (s : list Z) :
  ~ In sep s -> split sep s = [s].
Proof.
  induction s as [|c s IH]; cbn; [reflexivity|].
  intros Hn. destruct (Z.eqb_spec c sep) as [->|Hne]; [tauto|].
  rewrite IH by tauto. reflexivity.
Qed.

(** The first field ends at the first separator. *)
Lemma split_first (sep : Z) (a b : list Z) :
  ~ In sep a -> split sep (a ++ sep :: b) = a :: split sep b.
Proof.
  induction a as [|c a IH]; cbn.
  - intros _. rewrite Z.eqb_refl. reflexivity.
  - intros Hn. destruct (Z.eqb_spec c sep) as [->|Hne]; [tauto|].
    rewrite IH by tauto. reflexivity.
Qed.

(** No field holds the separator. *)
Lemma split_fields (sep : Z) (s : list Z) :
  Forall (fun field => ~ In sep field) (split sep s).
Proof.
  induction s as [|c s IH]; cbn.
  - constructor; [tauto | constructor].
  - destruct (Z.eqb_spec c sep) as [->|Hne].
    + constructor; [tauto | assumption].
    + destruct (split sep s) as [|field fields]; cbn.
      * constructor; [intros [|[]]; congruence | constructor].
      * inversion IH as [|? ? Hf Hfs]; subst.
        constructor; [|assumption]. intros [|]; [congruence | tauto].
Qed.

(** The second field of [a sep b rest], where [rest] is empty or begins
    with the separator. *)
Lemma split_second (sep : Z) (a b rest : list Z) :
  ~ In sep a -> ~ In sep b ->
  rest = [] \/ (exists r, rest = sep :: r) ->
  split sep (a ++ sep :: b ++ rest) !! 1%nat = Some b.
Proof.
  intros Ha Hb Hrest. rewrite split_first by assumption. cbn.
  destruct Hrest as [->|[r ->]].
  - rewrite app_nil_r, split_whole by assumption. reflexivity.
  - rewrite split_first by assumption. reflexivity.
Qed.

Lemma startsWith_app (s rest prefix : list Z) :
  startsWith s prefix = true -> startsWith (s ++ rest) prefix = true.
Proof.
  revert s. induction prefix as [|p prefix IH]; intros s H.
  - destruct (s ++ rest); reflexivity.
  - destruct s as [|c s]; [discriminate H|].
    cbn in H. apply andb_true_iff in H as [Hc Hs].
    cbn. apply andb_true_iff. split; [assumption | apply IH, Hs].
Qed.

End Strings.

(** ** The password checks *)

(** X16.  Once the server has started with password [secret], any
    password that [/verify-password] accepts is the string [secret];
    if it holds no space, [authMiddleware] lets through every header
    whose second word is that password, whatever the first word is and
    whatever follows a further space. *)
Theorem verified_password_opens
    (env : option (list Z)) (secret : list Z) (password : Text.jsvalue)
    (scheme rest : list Z) :
  Auth.a_secret_password env = Some secret ->
  Auth.verify_password secret password = 200 ->
  ~ In Text.space secret -> ~ In Text.space scheme ->
  rest = [] \/ (exists r, rest = Text.space :: r) ->
  password = Text.JString secret /\
  Auth.authMiddleware secret
    (Some (scheme ++ Text.space :: secret ++ rest)) = true.
Proof.
  intros Hstart Hverify Hsecret Hscheme Hrest.
  assert (Hne : exists c s, secret = c :: s).
  { unfold Auth.a_secret_password in Hstart.
    destruct env as [[|c s]|]; try discriminate.
    injection Hstart as <-. eauto. }
  split.
  - unfold Auth.verify_password in Hverify.
    destruct password as [| |b|q|p|]; cbn in Hverify;
      rewrite ?andb_false_r in Hverify; try discriminate.
    destruct (Text.same p secret) eqn:Hsame.
    + apply same_eq in Hsame. congruence.
    + rewrite andb_false_r in Hverify. discriminate.
  - unfold Auth.authMiddleware, Auth.providedPassword.
    rewrite split_second by assumption.
    destruct Hne as (c & s & ->). apply same_eq. reflexivity.
Qed.

Lemma verified_password_opens_witness :
  Auth.a_secret_password (Some Cases.hunter2) = Some Cases.hunter2 /\
  Auth.verify_password Cases.hunter2 (Text.JString Cases.hunter2) = 200 /\
  ~ In Text.space Cases.hunter2 /\ ~ In Text.space Cases.bearer /\
  Auth.authMiddleware Cases.hunter2
    (Some (Cases.bearer ++ Text.space :: Cases.hunter2 ++ [])) = true.
Proof.
  assert (Hstart : Auth.a_secret_password (Some Cases.hunter2)
                   = Some Cases.hunter2) by reflexivity.
  assert (Hverify : Auth.verify_password Cases.hunter2
                      (Text.JString Cases.hunter2) = 200) by reflexivity.
  assert (Hsecret : ~ In Text.space Cases.hunter2).
  { unfold Text.space. simpl. intros H.
    repeat (destruct H as [H|H]; [discriminate H|]). exact H. }
  assert (Hscheme : ~ In Text.space Cases.bearer).
  { unfold Text.space. simpl. intros H.
    repeat (destruct H as [H|H]; [discriminate H|]). exact H. }
  assert (Hrest : @nil Z = [] \/ (exists r, @nil Z = Text.space :: r))
    by (left; reflexivity).
  split; [exact Hstart|]. split; [exact Hverify|].
  split; [exact Hsecret|]. split; [exact Hscheme|].
  exact (proj2 (verified_password_opens (Some Cases.hunter2) Cases.hunter2
                  (Text.JString Cases.hunter2) Cases.bearer []
                  Hstart Hverify Hsecret Hscheme Hrest)).
Defined.

(** X17.  When the password holds a space, [/verify-password] accepts
    it, but [authMiddleware] refuses every header: the protected route
    answers 401 to every request, before the readiness test and before
    any collaborator is called. *)
Theorem spaced_password_locks_out
    {num : Type} (N : Numbers num)
    (env : option (list Z)) (secret : list Z)
    (authorization : option (list Z)) (ready : bool)
    (c : Pipeline.collaborators) (imageUrl : Text.jsvalue) :
  Auth.a_secret_password env = Some secret ->
  In Text.space secret ->
  Auth.verify_password secret (Text.JString secret) = 200 /\
  Auth.authMiddleware secret authorization = false /\
  Pipeline.solve_protected secret ready c authorization imageUrl
  = Pipeline.Failed 401.
Proof.
  intros Hstart Hspace.
  assert (Hne : exists x s, secret = x :: s).
  { unfold Auth.a_secret_password in Hstart.
    destruct env as [[|x s]|]; try discriminate.
    injection Hstart as <-. eauto. }
  assert (Hauth : Auth.authMiddleware secret authorization = false).
  { unfold Auth.authMiddleware, Auth.providedPassword.
    destruct authorization as [header|]; [|reflexivity].
    destruct (Text.split Text.space header !! 1%nat) as [[|x p]|] eqn:Hp;
      try reflexivity.
    destruct (Text.same (x :: p) secret) eqn:Hsame; [|reflexivity].
    apply same_eq in Hsame. exfalso.
    pose proof (split_fields Text.space header) as Hfields.
    rewrite Forall_lookup in Hfields.
    apply (Hfields _ _ Hp). rewrite Hsame. assumption. }
  split; [|split; [assumption|]].
  - destruct Hne as (x & s & ->). unfold Auth.verify_password.
    cbn [Text.truthy]. cbn [andb].
    destruct (Text.same (x :: s) (x :: s)) eqn:Hsame; [reflexivity|].
    assert (Text.same (x :: s) (x :: s) = true) by (apply same_eq; reflexivity).
    congruence.
  - unfold Pipeline.solve_protected. rewrite Hauth. reflexivity.
Qed.

Lemma spaced_password_locks_out_witness :
  Auth.a_secret_password (Some Cases.open_sesame) = Some Cases.open_sesame /\
  In Text.space Cases.open_sesame /\
  Auth.authMiddleware Cases.open_sesame
    (Some (Cases.bearer ++ Text.space :: Cases.open_sesame)) = false.
Proof.
  assert (Hstart : Auth.a_secret_password (Some Cases.open_sesame)
                   = Some Cases.open_sesame) by reflexivity.
  assert (Hspace : In Text.space Cases.open_sesame)
    by (unfold Text.space; simpl; auto 8).
  split; [exact Hstart|]. split; [exact Hspace|].
  exact (proj1 (proj2
    (spaced_password_locks_out binary64 (Some Cases.open_sesame)
       Cases.open_sesame
       (Some (Cases.bearer ++ Text.space :: Cases.open_sesame))
       true Cases.echo Text.JUndefined Hstart Hspace))).
Defined.

(** ** The handler past the guard *)

(** X18.  For an inline image, [imageUrl] made of a header that begins
    with ['data:image'], a comma and a payload, neither holding a comma,
    the bytes are decoded from exactly the payload; a further comma and
    whatever follows it are dropped; the address is never fetched. *)
Theorem inline_payload
    (c : Pipeline.collaborators) (header payload rest : list Z) :
  Text.startsWith header Text.data_image = true ->
  ~ In Text.comma header -> ~ In Text.comma payload ->
  rest = [] \/ (exists r, rest = Text.comma :: r) ->
  Pipeline.imageSource (header ++ Text.comma :: payload ++ rest)
  = Pipeline.Inline (Some payload) /\
  Pipeline.imageBuffer c (header ++ Text.comma :: payload ++ rest)
  = Some (Pipeline.from_base64 c payload).
Proof.
  intros Hprefix Hheader Hpayload Hrest.
  assert (Hsrc : Pipeline.imageSource (header ++ Text.comma :: payload ++ rest)
                 = Pipeline.Inline (Some payload)).
  { unfold Pipeline.imageSource.
    rewrite startsWith_app by assumption.
    rewrite split_second by assumption. reflexivity. }
  split; [assumption|].
  unfold Pipeline.imageBuffer. rewrite Hsrc. reflexivity.
Qed.

Lemma inline_payload_witness :
  Text.startsWith Cases.png_header Text.data_image = true /\
  ~ In Text.comma Cases.png_header /\ ~ In Text.comma Cases.png_payload /\
  Pipeline.imageBuffer Cases.broken
    (Cases.png_header ++ Text.comma :: Cases.png_payload ++ [])
  = Some Cases.png_payload.
Proof.
  assert (Hprefix : Text.startsWith Cases.png_header Text.data_image = true)
    by reflexivity.
  assert (Hheader : ~ In Text.comma Cases.png_header).
  { unfold Text.comma. simpl. intros H.
    repeat (destruct H as [H|H]; [discriminate H|]). exact H. }
  assert (Hpayload : ~ In Text.comma Cases.png_payload).
  { unfold Text.comma. simpl. intros H.
    repeat (destruct H as [H|H]; [discriminate H|]). exact H. }
  assert (Hrest : @nil Z = [] \/ (exists r, @nil Z = Text.comma :: r))
    by (left; reflexivity).
  split; [exact Hprefix|]. split; [exact Hheader|]. split; [exact Hpayload|].
  exact (proj2 (inline_payload Cases.broken Cases.png_header
                  Cases.png_payload [] Hprefix Hheader Hpayload Hrest)).
Defined.

(** X19.  Whatever the network, the image library and the OCR worker
    return, a text sent back by the handler consists of decimal digits
    only, and filtering it again changes nothing. *)
Theorem solved_text_is_digits
    {num : Type} (N : Numbers num)
    (c : Pipeline.collaborators) (imageUrl : Text.jsvalue) (text : list Z) :
  Pipeline.solve c imageUrl = Pipeline.Solved text ->
  Forall (fun d => 48 <= d <= 57) text /\ OcrText.cleanedText text = text.
Proof.
  intros Hsolved.
  assert (Hraw : exists raw, text = OcrText.cleanedText raw).
  { unfold Pipeline.solve in Hsolved.
    destruct (negb (Text.truthy imageUrl)); [discriminate|].
    destruct imageUrl as [| |b|q|s|]; try discriminate.
    destruct (Pipeline.process c s) as [cleaned|] eqn:Hp; [|discriminate].
    injection Hsolved as <-.
    unfold Pipeline.process in Hp.
    destruct (Pipeline.imageBuffer c s) as [buffer|]; [|discriminate].
    cbn in Hp.
    destruct (Pipeline.preprocess c buffer) as [[[data width] height]|];
      [|discriminate].
    cbn in Hp.
    destruct (Pipeline.to_png c _ width height) as [png|]; [|discriminate].
    cbn in Hp.
    destruct (Pipeline.recognize c png) as [raw|]; [|discriminate].
    cbn in Hp. injection Hp as <-. eauto. }
  destruct Hraw as [raw ->].
  split; [|apply strip_idempotent].
  eapply Forall_impl; [apply strip_kept|]. cbn.
  intros d Hd. apply digit_class. assumption.
Qed.

Lemma solved_text_is_digits_witness :
  Pipeline.solve (N := binary64) Cases.reader
    (Text.JString (Cases.png_header ++ Text.comma :: Cases.png_payload))
  = Pipeline.Solved [52; 50; 55] /\
  Forall (fun d => 48 <= d <= 57) [52; 50; 55].
Proof.
  assert (Hsolved :
    Pipeline.solve (N := binary64) Cases.reader
      (Text.JString (Cases.png_header ++ Text.comma :: Cases.png_payload))
    = Pipeline.Solved [52; 50; 55]) by (vm_compute; reflexivity).
  split; [exact Hsolved|].
  exact (proj1 (solved_text_is_digits binary64 Cases.reader _ _ Hsolved)).
Defined.



(** ** Requests around the end of the initialisation *)

Section Arrivals.

Import Readiness.

Lemma run_app (stp : server -> event -> server * list (request * outcome))
    (s : server) (es1 es2 : list event) :
  run stp s (es1 ++ es2)
  = let '(s1, out1) := run stp s es1 in
    let '(s2, out2) := run stp s1 es2 in
    (s2, out1 ++ out2).
Proof.
  revert s. induction es1 as [|e es1 IH]; intros s; cbn [run app].
  - destruct (run stp s es2). reflexivity.
  - destruct (stp s e) as [s1 out1]. rewrite IH.
    destruct (run stp s1 es1) as [s2 out2].
    destruct (run stp s2 es2) as [s3 out3].
    rewrite app_assoc. reflexivity.
Qed.

(** Arrivals while the promise is pending: all suspended, in order,
    nothing sent. *)
Lemma run_arrivals_pending (rs : list request) :
  forall (flag : bool) (waiting : list request),
    run step
      {| running := true; isTesseractWorkerReady := flag;
         tesseractReadyPromise := Pending; suspended := waiting |}
      (map Arrive rs)
    = ({| running := true; isTesseractWorkerReady := flag;
          tesseractReadyPromise := Pending; suspended := waiting ++ rs |},
       []).
Proof.
  induction rs as [|r rs IH]; intros flag waiting; cbn [map run].
  - rewrite app_nil_r. reflexivity.
  - cbn [step running negb tesseractReadyPromise isTesseractWorkerReady
         suspended].
    rewrite IH. rewrite <- app_assoc. reflexivity.
Qed.

(** Arrivals once the worker is ready: each leaves the guard at once. *)
Lemma run_arrivals_ready (rs : list request) :
  run step
    {| running := true; isTesseractWorkerReady := true;
       tesseractReadyPromise := Fulfilled; suspended := [] |}
    (map Arrive rs)
  = ({| running := true; isTesseractWorkerReady := true;
        tesseractReadyPromise := Fulfilled; suspended := [] |},
     map (fun r => (r, after_guard true r)) rs).
Proof.
  induction rs as [|r rs IH]; cbn [map run]; [reflexivity|].
  cbn [step running negb tesseractReadyPromise isTesseractWorkerReady].
  rewrite IH. reflexivity.
Qed.

(** Once the process has exited nothing is sent. *)
Lemma run_exited (events : list event) (s : server) :
  running s = false -> run step s events = (s, []).
Proof.
  intros Hs. induction events as [|e events IH]; cbn [run]; [reflexivity|].
  unfold step at 1. rewrite Hs. cbn [negb]. rewrite IH. reflexivity.
Qed.

End Arrivals.

(** X21.  In server.js, when the initialisation succeeds, every request
    leaves the readiness guard exactly once, and the requests leave it
    in the order of their arrival, those that came before the end of the
    initialisation as well as those that came after it.  At the guard
    the worker is ready: a request is refused with 400 at once or
    enters the image processing, and none is refused with 503.  When
    the processed requests are answered is not stated. *)
Theorem every_request_leaves_the_guard_once
    (before after : list Readiness.request) :
  snd (Readiness.run Readiness.step Readiness.boot
         (map Readiness.Arrive before
          ++ Readiness.InitSucceeded :: map Readiness.Arrive after))
  = map (fun r => (r, Readiness.after_guard true r)) (before ++ after).
Proof.
  rewrite run_app. unfold Readiness.boot.
  rewrite run_arrivals_pending. cbn [app].
  cbn [Readiness.run Readiness.step Readiness.running negb
       Readiness.tesseractReadyPromise Readiness.suspended].
  rewrite run_arrivals_ready. cbn [snd app].
  rewrite List.map_app. reflexivity.
Qed.

(** X22.  In server.js, when the initialisation fails, the process
    exits: the requests that arrived while it was pending are never
    answered, and nothing is answered afterwards. *)
Theorem failed_start_answers_nothing
    (before : list Readiness.request) (later : list Readiness.event) :
  snd (Readiness.run Readiness.step Readiness.boot
         (map Readiness.Arrive before ++ Readiness.InitFailed :: later))
  = [].
Proof.
  rewrite run_app. unfold Readiness.boot.
  rewrite run_arrivals_pending. cbn [app].
  cbn [Readiness.run Readiness.step Readiness.running negb
       Readiness.tesseractReadyPromise Readiness.suspended
       Readiness.isTesseractWorkerReady].
  rewrite run_exited by reflexivity. reflexivity.
Qed.

(** X23.  In the password variant no request waits at the readiness
    guard.  A request without the password is answered 401 at once,
    whenever it comes.  An authorised request that comes before the end
    of the initialisation is answered 503 at once; one that comes after
    it is refused with 400 at once or enters the image processing.
    When the processed requests are answered is not stated. *)
Theorem password_variant_never_waits
    (before after : list Readiness.request) :
  snd (Readiness.run Readiness.step0 Readiness.boot
         (map Readiness.Arrive before
          ++ Readiness.InitSucceeded :: map Readiness.Arrive after))
  = map (fun r =>
           (r, if Readiness.authorized r then Readiness.Respond 503
               else Readiness.Respond 401)) before
    ++ map (fun r =>
              (r, if Readiness.authorized r
                  then Readiness.after_guard true r
                  else Readiness.Respond 401)) after.
Proof.
  assert (Hrun : forall (flag : bool) (p : Readiness.promise)
                        (rs : list Readiness.request),
    Readiness.run Readiness.step0
      {| Readiness.running := true; Readiness.isTesseractWorkerReady := flag;
         Readiness.tesseractReadyPromise := p; Readiness.suspended := [] |}
      (map Readiness.Arrive rs)
    = ({| Readiness.running := true;
          Readiness.isTesseractWorkerReady := flag;
          Readiness.tesseractReadyPromise := p;
          Readiness.suspended := [] |},
       map (fun r =>
              (r, if Readiness.authorized r
                  then Readiness.after_guard flag r
                  else Readiness.Respond 401)) rs)).
  { intros flag p rs. induction rs as [|r rs IH];
      cbn [map Readiness.run]; [reflexivity|].
    unfold Readiness.step0 at 1.
    cbn [Readiness.running negb Readiness.isTesseractWorkerReady].
    destruct (Readiness.authorized r); rewrite IH; reflexivity. }
  rewrite run_app. unfold Readiness.boot. rewrite Hrun.
  cbn [Readiness.run Readiness.step0 Readiness.running negb
       Readiness.tesseractReadyPromise Readiness.suspended].
  rewrite Hrun. cbn [snd app]. reflexivity.
Qed.
